(** * FourlinkProtocol: a shallow embedding of
      [scenarios/three_satellites/fourlink.py] and [protocol.py].

    The protocol object, the world it holds ([Protocol.__init__] stores it
    as [self.world]) and the event queue are modelled by records; every
    method becomes a function in a small state-and-exception monad over the
    protocol object, so that a raised Python exception keeps the mutations
    made before it.  The recursion of [check] is bounded by fuel, and
    [check_terminates] shows that two nested calls are always enough. *)

From Stdlib Require Import List ZArith Bool Arith Lia PeanoNat Permutation.
Import ListNotations.

Set Implicit Arguments.

(** ** Python exceptions and results *)

(** The exceptions the code can raise, and the three the specification
    names ([TopologyError], [InterfaceError], [NotInitializedError]), which
    no definition below raises. *)
Inductive Exception :=
| AssertionError
| AttributeError
| TypeError
| IndexError
| InvalidScheduleError
| DoubleDestroyError
| KeyError
| TopologyError
| InterfaceError
| NotInitializedError.

Inductive Result (A : Type) :=
| Ok (a : A)
| Raise (e : Exception).

Arguments Ok {A} a.
Arguments Raise {A} e.

(** ** What the simulation is parametric in

    [num] stands for Python's float, with the three operations the protocol
    and the event queue use on it.  [qstate] is the opaque quantum state of a
    pair.  [distance] is [libs.aux_functions.distance] and [C] is
    [consts.SPEED_OF_LIGHT_IN_VACCUM]; neither file is part of the sources
    at hand, so both are taken as parameters. *)

Record Station := { station_id : nat }.

Record Qubit := { qubit_id : nat }.

Class Platform := {
  num : Type;
  num_add : num -> num -> num;
  num_div : num -> num -> num;
  num_ltb : num -> num -> bool;
  qstate : Type;
  qstate_eq_dec : forall x y : qstate, {x = y} + {x <> y};
  distance : Station -> Station -> num;
  C : num
}.

Definition Station_eq_dec (a b : Station) : {a = b} + {a <> b}.
Proof. decide equality. apply Nat.eq_dec. Defined.

Definition Qubit_eq_dec (a b : Qubit) : {a = b} + {a <> b}.
Proof. decide equality. apply Nat.eq_dec. Defined.

Definition station_eqb (a b : Station) : bool :=
  if Station_eq_dec a b then true else false.

(** [x in xs] on a list of stations. *)
Definition station_in (s : Station) (l : list Station) : bool :=
  existsb (station_eqb s) l.

(** What an object has under a name: no attribute, an attribute that is
    not callable, or a method. *)
Inductive Attribute :=
| Missing
| NotCallable
| Callable.

Section Entities.
Context {P : Platform}.

(** Modelled from the spec: the class [Pair] of [quantum_objects] is not
    among the sources.  A pair has an identity, refers to exactly two
    stations and two qubits, and carries a state and two resource-cost
    counters.  Python compares objects by identity: the record carries the
    identity as [pair_id], and two records denote the same object exactly
    when they are equal. *)
Record Pair := {
  pair_id : nat;
  pair_stations : Station * Station;
  qubits : Qubit * Qubit;
  state : qstate;
  resource_cost_max : Z;
  resource_cost_add : Z
}.

Definition Pair_eq_dec (p q : Pair) : {p = q} + {p <> q}.
Proof.
  decide equality;
    try apply Z.eq_dec; try apply qstate_eq_dec; try apply Nat.eq_dec;
    decide equality; try apply Station_eq_dec; apply Qubit_eq_dec.
Defined.

Definition pair_eqb (p q : Pair) : bool :=
  if Pair_eq_dec p q then true else false.

(** [p in ps] on a list of pairs. *)
Definition pair_in (p : Pair) (l : list Pair) : bool :=
  existsb (pair_eqb p) l.

(** Modelled from the spec: [Pair.is_between_stations] is not among the
    sources; it is the order-independent membership test on the pair's two
    stations. *)
Definition is_between_stations (p : Pair) (station1 station2 : Station) : bool :=
  let (a, b) := pair_stations p in
  (station_eqb station1 a && station_eqb station2 b)
  || (station_eqb station1 b && station_eqb station2 a).

(** Modelled from the spec: [SchedulingSource] is not among the sources.
    A source has an identity, the stations it entangles, a time
    distribution and a state generation.  The time distribution draws from
    numpy's global generator; the model indexes its outcomes by the number
    of draws made so far.  [schedule_event_attr] is what the object has
    under the name [schedule_event]: nothing, something that cannot be
    called, or a method. *)
Record Source := {
  source_id : nat;
  target_stations : list Station;
  time_distribution : nat -> num * nat;
  state_generation : qstate;
  schedule_event_attr : Attribute
}.

(** [callable(getattr(source, "schedule_event", None))], line 92. *)
Definition has_schedule_event (source : Source) : bool :=
  match schedule_event_attr source with
  | Callable => true
  | _ => false
  end.

(** Modelled from the spec: the classes of [events] are not among the
    sources.  Every event has a scheduled time. *)
Inductive Event :=
| SourceEvent (t : num) (source : Source) (initial_state : qstate) (attempts : nat)
| EntanglementSwappingEvent (t : num) (pairs : list Pair)
| GenericEvent (t : num).

Definition time (e : Event) : num :=
  match e with
  | SourceEvent t _ _ _ => t
  | EntanglementSwappingEvent t _ => t
  | GenericEvent t => t
  end.

Record EventQueue := {
  queue : list Event;
  current_time : num
}.

(** The registry [world_objects]: a dict from the name of a kind to the
    list of the live objects of that kind.  Only the two kinds the protocol
    touches are kept; [None] is a missing key. *)
Record WorldObjects := {
  bucket_Pair : option (list Pair);
  bucket_Qubit : option (list Qubit)
}.

Record World := {
  world_objects : WorldObjects;
  event_queue : EventQueue;
  rng_draws : nat
}.

(** *** Event queue (modelled from the spec, section 4.1) *)

(** Stable insertion by scheduled time: after every event that is not
    later. *)
Fixpoint insert_event (e : Event) (q : list Event) : list Event :=
  match q with
  | [] => [e]
  | x :: q' =>
      if num_ltb (time e) (time x) then e :: x :: q'
      else x :: insert_event e q'
  end.

Definition with_queue (w : World) (q : list Event) : World :=
  {| world_objects := world_objects w;
     event_queue := {| queue := q; current_time := current_time (event_queue w) |};
     rng_draws := rng_draws w |}.

Definition with_world_objects (w : World) (o : WorldObjects) : World :=
  {| world_objects := o;
     event_queue := event_queue w;
     rng_draws := rng_draws w |}.

Definition next_draw (w : World) : World :=
  {| world_objects := world_objects w;
     event_queue := event_queue w;
     rng_draws := S (rng_draws w) |}.

(** Modelled from the spec: [EventQueue.add_event] is not among the
    sources.  It refuses an event before the current time and otherwise
    inserts it in time order. *)
Definition add_event (e : Event) (w : World) : Result unit * World :=
  if num_ltb (time e) (current_time (event_queue w))
  then (Raise InvalidScheduleError, w)
  else (Ok tt, with_queue w (insert_event e (queue (event_queue w)))).

(** Modelled from the spec: [SchedulingSource.schedule_event] is not among
    the sources.  It samples the elapsed time and the number of attempts,
    computes the state and enqueues a [SourceEvent] at the current time
    plus the elapsed time. *)
Definition schedule_event (src : Source) (w : World) : Result unit * World :=
  let (elapsed, attempts) := time_distribution src (rng_draws w) in
  let w1 := next_draw w in
  add_event (SourceEvent (num_add (current_time (event_queue w)) elapsed)
                         src (state_generation src) attempts) w1.

(** *** Destruction (modelled from the spec, section 4.3) *)

(** Modelled from the spec: [Qubit.destroy] is not among the sources.  It
    takes the qubit out of the registry, so that it is in no bucket
    afterwards, and fails with [DoubleDestroyError] on a qubit that is not
    registered any more. *)
Definition destroy_qubit (q : Qubit) (w : World) : Result unit * World :=
  match bucket_Qubit (world_objects w) with
  | Some l =>
      if in_dec Qubit_eq_dec q l
      then (Ok tt, with_world_objects w
                     {| bucket_Pair := bucket_Pair (world_objects w);
                        bucket_Qubit := Some (remove Qubit_eq_dec q l) |})
      else (Raise DoubleDestroyError, w)
  | None => (Raise DoubleDestroyError, w)
  end.

(** Modelled from the spec: [Pair.destroy] is not among the sources.  It
    takes the pair out of the registry, so that it is in no bucket
    afterwards, and fails with [DoubleDestroyError] on a pair that is not
    registered any more. *)
Definition destroy_pair (p : Pair) (w : World) : Result unit * World :=
  match bucket_Pair (world_objects w) with
  | Some l =>
      if in_dec Pair_eq_dec p l
      then (Ok tt, with_world_objects w
                     {| bucket_Pair := Some (remove Pair_eq_dec p l);
                        bucket_Qubit := bucket_Qubit (world_objects w) |})
      else (Raise DoubleDestroyError, w)
  | None => (Raise DoubleDestroyError, w)
  end.

(** ** The protocol object *)

(** The attributes [setup] creates are optional: reading one that has not
    been assigned raises [AttributeError]. *)
Record FourlinkProtocol := {
  world : World;
  num_memories : Z;
  time_list : list num;
  state_list : list qstate;
  resource_cost_max_list : list Z;
  resource_cost_add_list : list Z;
  stations : list Station;
  sources : list Source;
  station_ground_left : option Station;
  sat_left : option Station;
  sat_central : option Station;
  sat_right : option Station;
  station_ground_right : option Station;
  source_links : option (Source * Source * Source * Source);
  link_stations : option (list (Station * Station))
}.

(** [FourlinkProtocol.__init__] *)
Definition init (w : World) (n : Z) (sts : list Station) (srcs : list Source)
  : FourlinkProtocol :=
  {| world := w;
     num_memories := n;
     time_list := [];
     state_list := [];
     resource_cost_max_list := [];
     resource_cost_add_list := [];
     stations := sts;
     sources := srcs;
     station_ground_left := None;
     sat_left := None;
     sat_central := None;
     sat_right := None;
     station_ground_right := None;
     source_links := None;
     link_stations := None |}.

(** *** The monad of methods *)

Definition M (A : Type) : Type := FourlinkProtocol -> Result A * FourlinkProtocol.

Definition ret {A} (a : A) : M A := fun self => (Ok a, self).

Definition raise {A} (e : Exception) : M A := fun self => (Raise e, self).

Definition bind {A B} (m : M A) (f : A -> M B) : M B :=
  fun self =>
    match m self with
    | (Ok a, self') => f a self'
    | (Raise e, self') => (Raise e, self')
    end.

Definition set_world (w : World) (self : FourlinkProtocol) : FourlinkProtocol :=
  {| world := w;
     num_memories := num_memories self;
     time_list := time_list self;
     state_list := state_list self;
     resource_cost_max_list := resource_cost_max_list self;
     resource_cost_add_list := resource_cost_add_list self;
     stations := stations self;
     sources := sources self;
     station_ground_left := station_ground_left self;
     sat_left := sat_left self;
     sat_central := sat_central self;
     sat_right := sat_right self;
     station_ground_right := station_ground_right self;
     source_links := source_links self;
     link_stations := link_stations self |}.

(** Run an operation of the world on [self.world]. *)
Definition on_world {A} (op : World -> Result A * World) : M A :=
  fun self =>
    let (r, w') := op (world self) in (r, set_world w' self).

(** Read an attribute that [setup] assigns. *)
Definition getattr {A} (field : FourlinkProtocol -> option A) : M A :=
  fun self =>
    match field self with
    | Some a => (Ok a, self)
    | None => (Raise AttributeError, self)
    end.

(** [l[i]] *)
Definition getitem {A} (l : list A) (i : nat) : M A :=
  match nth_error l i with
  | Some a => ret a
  | None => raise IndexError
  end.

(** [assert b] *)
Definition assert (b : bool) : M unit :=
  if b then ret tt else raise AssertionError.
End Entities.

Notation "x <- m ;; k" := (bind m (fun x => k))
  (at level 61, m at next level, right associativity).
Notation "m ;;; k" := (bind m (fun _ => k))
  (at level 61, right associativity).

Section Protocol.
Context {P : Platform}.

(** *** Loops *)

Fixpoint mapM {A B} (f : A -> M B) (l : list A) : M (list B) :=
  match l with
  | [] => ret []
  | x :: l' => y <- f x ;; ys <- mapM f l' ;; ret (y :: ys)
  end.

Fixpoint forM_ {A} (f : A -> M unit) (l : list A) : M unit :=
  match l with
  | [] => ret tt
  | x :: l' => f x ;;; forM_ f l'
  end.

(** [for _ in range(n): m] *)
Fixpoint repeatM (n : nat) (m : M unit) : M unit :=
  match n with
  | O => ret tt
  | S n' => m ;;; repeatM n' m
  end.

(** *** Attribute assignment *)

Definition set_time_list (v : list num) (self : FourlinkProtocol) :=
  Build_FourlinkProtocol (world self) (num_memories self)
    v (state_list self) (resource_cost_max_list self) (resource_cost_add_list self)
    (stations self) (sources self)
    (station_ground_left self) (sat_left self) (sat_central self) (sat_right self)
    (station_ground_right self) (source_links self) (link_stations self).

Definition set_state_list (v : list qstate) (self : FourlinkProtocol) :=
  Build_FourlinkProtocol (world self) (num_memories self)
    (time_list self) v (resource_cost_max_list self) (resource_cost_add_list self)
    (stations self) (sources self)
    (station_ground_left self) (sat_left self) (sat_central self) (sat_right self)
    (station_ground_right self) (source_links self) (link_stations self).

Definition set_resource_cost_max_list (v : list Z) (self : FourlinkProtocol) :=
  Build_FourlinkProtocol (world self) (num_memories self)
    (time_list self) (state_list self) v (resource_cost_add_list self)
    (stations self) (sources self)
    (station_ground_left self) (sat_left self) (sat_central self) (sat_right self)
    (station_ground_right self) (source_links self) (link_stations self).

Definition set_resource_cost_add_list (v : list Z) (self : FourlinkProtocol) :=
  Build_FourlinkProtocol (world self) (num_memories self)
    (time_list self) (state_list self) (resource_cost_max_list self) v
    (stations self) (sources self)
    (station_ground_left self) (sat_left self) (sat_central self) (sat_right self)
    (station_ground_right self) (source_links self) (link_stations self).

Definition set_station_ground_left (v : Station) (self : FourlinkProtocol) :=
  Build_FourlinkProtocol (world self) (num_memories self)
    (time_list self) (state_list self) (resource_cost_max_list self)
    (resource_cost_add_list self) (stations self) (sources self)
    (Some v) (sat_left self) (sat_central self) (sat_right self)
    (station_ground_right self) (source_links self) (link_stations self).

Definition set_sat_left (v : Station) (self : FourlinkProtocol) :=
  Build_FourlinkProtocol (world self) (num_memories self)
    (time_list self) (state_list self) (resource_cost_max_list self)
    (resource_cost_add_list self) (stations self) (sources self)
    (station_ground_left self) (Some v) (sat_central self) (sat_right self)
    (station_ground_right self) (source_links self) (link_stations self).

Definition set_sat_central (v : Station) (self : FourlinkProtocol) :=
  Build_FourlinkProtocol (world self) (num_memories self)
    (time_list self) (state_list self) (resource_cost_max_list self)
    (resource_cost_add_list self) (stations self) (sources self)
    (station_ground_left self) (sat_left self) (Some v) (sat_right self)
    (station_ground_right self) (source_links self) (link_stations self).

Definition set_sat_right (v : Station) (self : FourlinkProtocol) :=
  Build_FourlinkProtocol (world self) (num_memories self)
    (time_list self) (state_list self) (resource_cost_max_list self)
    (resource_cost_add_list self) (stations self) (sources self)
    (station_ground_left self) (sat_left self) (sat_central self) (Some v)
    (station_ground_right self) (source_links self) (link_stations self).

Definition set_station_ground_right (v : Station) (self : FourlinkProtocol) :=
  Build_FourlinkProtocol (world self) (num_memories self)
    (time_list self) (state_list self) (resource_cost_max_list self)
    (resource_cost_add_list self) (stations self) (sources self)
    (station_ground_left self) (sat_left self) (sat_central self) (sat_right self)
    (Some v) (source_links self) (link_stations self).

Definition set_source_links (v : Source * Source * Source * Source)
    (self : FourlinkProtocol) :=
  Build_FourlinkProtocol (world self) (num_memories self)
    (time_list self) (state_list self) (resource_cost_max_list self)
    (resource_cost_add_list self) (stations self) (sources self)
    (station_ground_left self) (sat_left self) (sat_central self) (sat_right self)
    (station_ground_right self) (Some v) (link_stations self).

Definition set_link_stations (v : list (Station * Station))
    (self : FourlinkProtocol) :=
  Build_FourlinkProtocol (world self) (num_memories self)
    (time_list self) (state_list self) (resource_cost_max_list self)
    (resource_cost_add_list self) (stations self) (sources self)
    (station_ground_left self) (sat_left self) (sat_central self) (sat_right self)
    (station_ground_right self) (source_links self) (Some v).

(** Read an attribute that [__init__] assigns. *)
Definition gets {A} (field : FourlinkProtocol -> A) : M A :=
  fun self => (Ok (field self), self).

(** [self.x = v] and [self.x += [v]] *)
Definition modify (f : FourlinkProtocol -> FourlinkProtocol) : M unit :=
  fun self => (Ok tt, f self).

(** *** [setup], lines 82-93 *)

(** [a, b, c, d = l] once [len(l) == 4] has been asserted. *)
Definition unpack4 (l : list Source) : M (Source * Source * Source * Source) :=
  a <- getitem l 0 ;; b <- getitem l 1 ;; c <- getitem l 2 ;; d <- getitem l 3 ;;
  ret (a, b, c, d).

Definition setup : M unit :=
  sts <- gets stations ;;
  assert (length sts =? 5) ;;;
  s0 <- getitem sts 0 ;; modify (set_station_ground_left s0) ;;;
  s1 <- getitem sts 1 ;; modify (set_sat_left s1) ;;;
  s2 <- getitem sts 2 ;; modify (set_sat_central s2) ;;;
  s3 <- getitem sts 3 ;; modify (set_sat_right s3) ;;;
  s4 <- getitem sts 4 ;; modify (set_station_ground_right s4) ;;;
  srcs <- gets sources ;;
  assert (length srcs =? 4) ;;;
  links <- unpack4 srcs ;; modify (set_source_links links) ;;;
  forM_ (fun source => assert (has_schedule_event source)) srcs ;;;
  ls <- mapM (fun i => a <- getitem sts i ;; b <- getitem sts (i + 1) ;; ret (a, b))
             (seq 0 4) ;;
  modify (set_link_stations ls).

(** *** The queries, lines 95-107 *)

(** [self.world.world_objects["Pair"]], [KeyError] on a missing key. *)
Definition world_objects_Pair : M (list Pair) :=
  fun self =>
    match bucket_Pair (world_objects (world self)) with
    | Some l => (Ok l, self)
    | None => (Raise KeyError, self)
    end.

(** [try: m  except KeyError: handler] *)
Definition try_except_KeyError {A} (m : M A) (handler : M A) : M A :=
  fun self =>
    match m self with
    | (Raise KeyError, self') => handler self'
    | r => r
    end.

Definition _get_pairs_between_stations (station1 station2 : Station)
  : M (list Pair) :=
  pairs <- try_except_KeyError world_objects_Pair (ret []) ;;
  ret (filter (fun pair => is_between_stations pair station1 station2) pairs).

Definition is_scheduled_for (station1 station2 : Station) (event : Event) : bool :=
  match event with
  | SourceEvent _ source _ _ =>
      station_in station1 (target_stations source)
      && station_in station2 (target_stations source)
  | _ => false
  end.

Definition _get_pairs_scheduled (station1 station2 : Station) : M (list Event) :=
  q <- gets (fun self => queue (event_queue (world self))) ;;
  ret (filter (is_scheduled_for station1 station2) q).

(** *** [_eval_pair], lines 109-117 *)

(** [np.max] of a list of two. *)
Definition np_max2 (a b : num) : num := if num_ltb a b then b else a.

Definition _eval_pair (long_range_pair : Pair) : M unit :=
  sc <- getattr sat_central ;;
  gl <- getattr station_ground_left ;;
  sc' <- getattr sat_central ;;
  gr <- getattr station_ground_right ;;
  let comm_distance := np_max2 (distance sc gl) (distance sc' gr) in
  let comm_time := num_div comm_distance C in
  now <- gets (fun self => current_time (event_queue (world self))) ;;
  modify (fun self => set_time_list (time_list self ++ [num_add now comm_time]) self) ;;;
  modify (fun self => set_state_list (state_list self ++ [state long_range_pair]) self) ;;;
  modify (fun self => set_resource_cost_max_list
            (resource_cost_max_list self ++ [resource_cost_max long_range_pair]) self) ;;;
  modify (fun self => set_resource_cost_add_list
            (resource_cost_add_list self ++ [resource_cost_add long_range_pair]) self).

(** *** [check], lines 129-202 *)

(** [source.schedule_event()], line 137: the attribute is looked up, then
    called. *)
Definition call_schedule_event (source : Source) : M unit :=
  match schedule_event_attr source with
  | Missing => raise AttributeError
  | NotCallable => raise TypeError
  | Callable => on_world (schedule_event source)
  end.

(** The filter of lines 144-148: a pending swap that refers to both pairs. *)
Definition is_swap_of (left_pair right_pair : Pair) (event : Event) : bool :=
  match event with
  | EntanglementSwappingEvent _ pairs =>
      pair_in left_pair pairs && pair_in right_pair pairs
  | _ => false
  end.

(** The body of the three swapping loops, lines 141-154, 158-171 and
    179-192, which are the same text. *)
Definition schedule_swap (lr : Pair * Pair) : M unit :=
  let (left_pair, right_pair) := lr in
  q <- gets (fun self => queue (event_queue (world self))) ;;
  let is_already_scheduled := existsb (is_swap_of left_pair right_pair) q in
  if negb is_already_scheduled then
    now <- gets (fun self => current_time (event_queue (world self))) ;;
    on_world (add_event (EntanglementSwappingEvent now [left_pair; right_pair]))
  else ret tt.

(** Lines 139-154 with [i, j = 0, 1] and lines 156-171 with [i, j = 2, 3];
    [and] evaluates its right operand only when the left one holds. *)
Definition swapping (num_pairs_links : list nat) (pairs_links : list (list Pair))
    (i j : nat) : M unit :=
  ni <- getitem num_pairs_links i ;;
  if ni =? 0 then ret tt else
  nj <- getitem num_pairs_links j ;;
  if nj =? 0 then ret tt else
  li <- getitem pairs_links i ;;
  lj <- getitem pairs_links j ;;
  forM_ schedule_swap (combine li lj).

(** Lines 134-137. *)
Definition replenish (lu_source : nat * Source) : M unit :=
  let (link_used, source) := lu_source in
  n <- gets num_memories ;;
  if (Z.of_nat link_used <? n)%Z then
    n' <- gets num_memories ;;
    repeatM (Z.to_nat (n' - Z.of_nat link_used)) (call_schedule_event source)
  else ret tt.

(** Lines 196-201. *)
Definition evaluate (long_range_pair : Pair) : M unit :=
  _eval_pair long_range_pair ;;;
  on_world (destroy_qubit (fst (qubits long_range_pair))) ;;;
  on_world (destroy_qubit (snd (qubits long_range_pair))) ;;;
  on_world (destroy_pair long_range_pair).

(** Lines 172-192, "Swapping central". *)
Definition swapping_central : M unit :=
  gl <- getattr station_ground_left ;;
  sc <- getattr sat_central ;;
  left_pairs <- _get_pairs_between_stations gl sc ;;
  sc' <- getattr sat_central ;;
  gr <- getattr station_ground_right ;;
  right_pairs <- _get_pairs_between_stations sc' gr ;;
  let num_left_pairs := length left_pairs in
  let num_right_pairs := length right_pairs in
  if negb (num_left_pairs =? 0) && negb (num_right_pairs =? 0)
  then forM_ schedule_swap (combine left_pairs right_pairs)
  else ret tt.

(** Lines 193-201, "Evaluate long range pairs".  The result tells whether
    [long_range_pairs] was non-empty, that is whether line 202 is reached. *)
Definition evaluation : M bool :=
  gl <- getattr station_ground_left ;;
  gr <- getattr station_ground_right ;;
  long_range_pairs <- _get_pairs_between_stations gl gr ;;
  match long_range_pairs with
  | [] => ret false
  | _ => forM_ evaluate long_range_pairs ;;; ret true
  end.

(** Lines 130-137, "replenishment": the per-link counts and the calls of
    [schedule_event].  It hands the lists of lines 130-131 to the swapping
    steps. *)
Definition replenishment : M (list nat * list (list Pair)) :=
  links <- getattr link_stations ;;
  pairs_links <- mapM (fun st => _get_pairs_between_stations (fst st) (snd st)) links ;;
  let num_pairs_links := map (@length Pair) pairs_links in
  links' <- getattr link_stations ;;
  scheduled <- mapM (fun st => _get_pairs_scheduled (fst st) (snd st)) links' ;;
  let num_pairs_scheduled_links := map (@length Event) scheduled in
  let links_used :=
    map (fun nn => fst nn + snd nn) (combine num_pairs_links num_pairs_scheduled_links) in
  srcs <- gets sources ;;
  forM_ replenish (combine links_used srcs) ;;;
  ret (num_pairs_links, pairs_links).

(** Lines 130-192: everything before the evaluation. *)
Definition scheduling_steps : M unit :=
  lists <- replenishment ;;
  swapping (fst lists) (snd lists) 0 1 ;;;
  swapping (fst lists) (snd lists) 2 3 ;;;
  swapping_central.

(** One pass of [check]: lines 130-201. *)
Definition check_pass : M bool :=
  scheduling_steps ;;;
  evaluation.

(** [check]: a pass, and the call of line 202 when the pass evaluated a
    long-range pair.  [None] is a call that has not returned within
    [fuel] nested invocations. *)
Fixpoint check (fuel : nat) (self : FourlinkProtocol)
  : option (Result unit * FourlinkProtocol) :=
  match fuel with
  | O => None
  | S fuel' =>
      match check_pass self with
      | (Ok true, self') => check fuel' self'
      | (Ok false, self') => Some (Ok tt, self')
      | (Raise e, self') => Some (Raise e, self')
      end
  end.
End Protocol.

(** ** The link budget: [eta_dif], lines 38-44 *)

Section LinkBudget.
Context {P : Platform}.

(** [np.tan], the product and the power of floats, and the number 1 to which
    line 43 clamps. *)
Variable np_tan : num -> num.
Variable num_mul : num -> num -> num.
Variable num_pow : num -> nat -> num.
Variable one : num.

Definition eta_dif (distance divergence_half_angle sender_aperture_radius
    receiver_aperture_radius : num) : num :=
  let x := num_add sender_aperture_radius
             (num_mul distance (np_tan divergence_half_angle)) in
  let arriving_fraction :=
    num_div (num_pow receiver_aperture_radius 2) (num_pow x 2) in
  if num_ltb one arriving_fraction then one else arriving_fraction.
End LinkBudget.

(** ** Views of a state used in the statements *)

Section Views.
Context {P : Platform}.

(** The list [pairs] of lines 96-99. *)
Definition pairs_of (w : World) : list Pair :=
  match bucket_Pair (world_objects w) with Some l => l | None => [] end.

Definition qubits_of (w : World) : list Qubit :=
  match bucket_Qubit (world_objects w) with Some l => l | None => [] end.

(** What [_get_pairs_between_stations] and [_get_pairs_scheduled] return. *)
Definition pairs_between (w : World) (station1 station2 : Station) : list Pair :=
  filter (fun pair => is_between_stations pair station1 station2) (pairs_of w).

Definition scheduled_for (w : World) (station1 station2 : Station) : list Event :=
  filter (is_scheduled_for station1 station2) (queue (event_queue w)).

(** [link_used] of line 133 for the link between two stations. *)
Definition link_used (self : FourlinkProtocol) (link : Station * Station) : nat :=
  length (pairs_between (world self) (fst link) (snd link))
  + length (scheduled_for (world self) (fst link) (snd link)).

Definition pending (self : FourlinkProtocol) : list Event :=
  queue (event_queue (world self)).

Definition now (self : FourlinkProtocol) : num :=
  current_time (event_queue (world self)).

Definition is_swap_event (e : Event) : bool :=
  match e with EntanglementSwappingEvent _ _ => true | _ => false end.

Definition is_source_event (e : Event) : bool :=
  match e with SourceEvent _ _ _ _ => true | _ => false end.

(** The pending events a source has scheduled. *)
Definition is_event_of (src : Source) (e : Event) : bool :=
  match e with
  | SourceEvent _ s _ _ => source_id s =? source_id src
  | _ => false
  end.

(** The pending swaps. *)
Definition pending_swaps (self : FourlinkProtocol) : list Event :=
  filter is_swap_event (pending self).

(** What no step of [check] assigns. *)
Definition config (self : FourlinkProtocol) :=
  (num_memories self, stations self, sources self,
   (station_ground_left self, sat_left self, sat_central self, sat_right self,
    station_ground_right self),
   source_links self, link_stations self).

Definition logs (self : FourlinkProtocol) :=
  (time_list self, state_list self,
   resource_cost_max_list self, resource_cost_add_list self).

(** What the steps before the evaluation leave alone: they only add events
    and draw random numbers. *)
Definition static (self : FourlinkProtocol) :=
  (config self, logs self, world_objects (world self), now self).

(** What the evaluation leaves alone. *)
Definition scheduling (self : FourlinkProtocol) :=
  (config self, event_queue (world self), rng_draws (world self)).

(** The four logs have one length. *)
Definition logs_aligned (self : FourlinkProtocol) : Prop :=
  length (state_list self) = length (time_list self)
  /\ length (resource_cost_max_list self) = length (time_list self)
  /\ length (resource_cost_add_list self) = length (time_list self).

(** The logs of [self'] are the logs of [self] with as many new entries at
    the end of each. *)
Definition logs_grown (self self' : FourlinkProtocol) : Prop :=
  exists (tl : list num) (sl : list qstate) (ml al : list Z),
    time_list self' = time_list self ++ tl
    /\ state_list self' = state_list self ++ sl
    /\ resource_cost_max_list self' = resource_cost_max_list self ++ ml
    /\ resource_cost_add_list self' = resource_cost_add_list self ++ al
    /\ length sl = length tl /\ length ml = length tl /\ length al = length tl.

(** A sequence of calls of [check] on one protocol object.  Between two
    calls the rest of the simulation may change the world in any way. *)
Inductive check_calls : FourlinkProtocol -> FourlinkProtocol -> Prop :=
| calls_none : forall self, check_calls self self
| calls_more : forall self w fuel r self1 self2,
    check fuel (set_world w self) = Some (r, self1) ->
    check_calls self1 self2 ->
    check_calls self self2.

(** [m] keeps the invariant [I], whatever its outcome, and raises only
    exceptions of [E]. *)
Definition preserves {A} (I : FourlinkProtocol -> Prop) (E : Exception -> Prop)
    (m : M A) : Prop :=
  forall self, I self ->
    I (snd (m self)) /\ (forall e, fst (m self) = Raise e -> E e).

(** The setup of a chain: the five stations, their labels and the four
    links, as [setup] leaves them. *)
Definition configured (self : FourlinkProtocol) (s0 s1 s2 s3 s4 : Station) : Prop :=
  stations self = [s0; s1; s2; s3; s4]
  /\ station_ground_left self = Some s0
  /\ sat_left self = Some s1
  /\ sat_central self = Some s2
  /\ sat_right self = Some s3
  /\ station_ground_right self = Some s4
  /\ link_stations self = Some [(s0, s1); (s1, s2); (s2, s3); (s3, s4)].

(** A source serves a link when both stations of the link are among its
    target stations: the test of lines 104-105. *)
Definition serves (src : Source) (link : Station * Station) : bool :=
  station_in (fst link) (target_stations src)
  && station_in (snd link) (target_stations src).

(** The light-propagation delay between two stations. *)
Definition delay (a b : Station) : num := num_div (distance a b) C.
(** The exceptions other than the [KeyError] of a registry lookup. *)
Definition not_KeyError (e : Exception) : Prop := e <> KeyError.

(** The registry after the pairs of [l] have been destroyed. *)
Definition remove_pairs (l : list Pair) (bucket : list Pair) : list Pair :=
  fold_left (fun acc p => remove Pair_eq_dec p acc) l bucket.

Definition remove_qubits (l : list Qubit) (bucket : list Qubit) : list Qubit :=
  fold_left (fun acc q => remove Qubit_eq_dec q acc) l bucket.

(** The qubits of a list of pairs, in the order line 199-200 destroys them. *)
Definition qubits_of_pairs (l : list Pair) : list Qubit :=
  flat_map (fun p => [fst (qubits p); snd (qubits p)]) l.

(** The time [_eval_pair] records, lines 110-113. *)
Definition eval_time (self : FourlinkProtocol) (sc gl gr : Station) : num :=
  num_add (now self) (num_div (np_max2 (distance sc gl) (distance sc gr)) C).

(** The registry and the logs of [self'] are those of [self] after the
    pairs of [l] have been evaluated and destroyed. *)
Definition evaluated (l : list Pair) (t : num) (self self' : FourlinkProtocol) : Prop :=
  config self' = config self
  /\ now self' = now self
  /\ pairs_of (world self') = remove_pairs l (pairs_of (world self))
  /\ qubits_of (world self') = remove_qubits (qubits_of_pairs l) (qubits_of (world self))
  /\ time_list self' = time_list self ++ map (fun _ => t) l
  /\ state_list self' = state_list self ++ map state l
  /\ resource_cost_max_list self' = resource_cost_max_list self ++ map resource_cost_max l
  /\ resource_cost_add_list self' = resource_cost_add_list self ++ map resource_cost_add l.

(** The test of lines 143-151 on a queue. *)
Definition scheduled_swap (q : list Event) (lr : Pair * Pair) : bool :=
  existsb (is_swap_of (fst lr) (snd lr)) q.

(** [zip(lists[i], lists[j])] *)
Definition zip_at (lists : list (list Pair)) (i j : nat) : list (Pair * Pair) :=
  match nth_error lists i, nth_error lists j with
  | Some li, Some lj => combine li lj
  | _, _ => []
  end.

(** [pairs_links] of line 130. *)
Definition link_pairs (self : FourlinkProtocol) : list (list Pair) :=
  match link_stations self with
  | Some links => map (fun st => pairs_between (world self) (fst st) (snd st)) links
  | None => []
  end.

(** [zip(left_pairs, right_pairs)] of line 179. *)
Definition central_candidates (self : FourlinkProtocol) : list (Pair * Pair) :=
  match station_ground_left self, sat_central self, station_ground_right self with
  | Some gl, Some sc, Some gr =>
      combine (pairs_between (world self) gl sc) (pairs_between (world self) sc gr)
  | _, _, _ => []
  end.

(** Every (left_pair, right_pair) the three swapping loops of a pass go
    through. *)
Definition swap_candidates (self : FourlinkProtocol) : list (Pair * Pair) :=
  zip_at (link_pairs self) 0 1 ++ zip_at (link_pairs self) 2 3
  ++ central_candidates self.

(** The number of calls of [schedule_event] line 136 asks for. *)
Definition topup (n : Z) (link_used : nat) : nat := Z.to_nat (n - Z.of_nat link_used).

(** The number of events the loop of lines 134-137 schedules on the sources
    that [g] selects. *)
Fixpoint scheduled_on (g : Source -> bool) (n : Z) (l : list (nat * Source)) : nat :=
  match l with
  | [] => 0
  | (lu, src) :: l' => (if g src then topup n lu else 0) + scheduled_on g n l'
  end.

(** The pending events a filter selects. *)
Definition count (f : Event -> bool) (self : FourlinkProtocol) : nat :=
  length (filter f (pending self)).

(** A source that can schedule and never draws a time before the current
    one. *)
Definition admissible (self : FourlinkProtocol) (src : Source) : Prop :=
  has_schedule_event src = true
  /\ forall n, num_ltb (num_add (now self) (fst (time_distribution src n))) (now self)
               = false.

(** The four links of a chain of five stations. *)
Definition chain_links (s0 s1 s2 s3 s4 : Station) : list (Station * Station) :=
  [(s0, s1); (s1, s2); (s2, s3); (s3, s4)].

(** An event that a call of [check] entered in state [self] can add to the
    queue: a [SourceEvent] that [schedule_event] builds for one of the
    protocol's sources, or a swap of two registered pairs at the current
    time. *)
Definition added_by_check (self : FourlinkProtocol) (e : Event) : Prop :=
  (exists c k,
      In c (sources self) /\ has_schedule_event c = true
      /\ e = SourceEvent (num_add (now self) (fst (time_distribution c k))) c
               (state_generation c) (snd (time_distribution c k)))
  \/ (exists l r,
         In l (pairs_of (world self)) /\ In r (pairs_of (world self))
         /\ e = EntanglementSwappingEvent (now self) [l; r]).

(** The state [s] is [s0] but for the queue and the random draws, and the
    queue of [s] holds, up to order, the events of the queue of [s0] and a
    list of events that a call of [check] entered in [s0] can add. *)
Definition grown_from (s0 s : FourlinkProtocol) : Prop :=
  static s = static s0
  /\ exists added,
       Permutation (pending s) (added ++ pending s0)
       /\ Forall (added_by_check s0) added.

(** The state [s] of a call of [check] entered in [self], between two
    passes. *)
Definition between_passes (self s : FourlinkProtocol) : Prop :=
  now s = now self
  /\ sources s = sources self
  /\ incl (pairs_of (world s)) (pairs_of (world self))
  /\ exists added,
       Permutation (pending s) (added ++ pending self)
       /\ Forall (added_by_check self) added.

(** The exceptions a call of [check] can end in. *)
Definition raised_by_check (e : Exception) : Prop :=
  e = AttributeError \/ e = TypeError \/ e = IndexError
  \/ e = InvalidScheduleError \/ e = DoubleDestroyError.

(** The exceptions of the collaborators: the event queue refusing an event
    and the registry refusing a destruction. *)
Definition raised_by_collaborators (e : Exception) : Prop :=
  e = InvalidScheduleError \/ e = DoubleDestroyError.

(** [b] has the configuration of [a]. *)
Definition same_config (a b : FourlinkProtocol) : Prop := config b = config a.

End Views.

(** ** A concrete chain *)

(** Integers for the numbers, natural numbers for the states; the stations
    stand 300 apart and light covers 3 per unit of time. *)
Definition ZP : Platform :=
  {| num := Z;
     num_add := Z.add;
     num_div := Z.div;
     num_ltb := Z.ltb;
     qstate := nat;
     qstate_eq_dec := Nat.eq_dec;
     distance := fun a b =>
       (Z.abs (Z.of_nat (station_id a) - Z.of_nat (station_id b)) * 300)%Z;
     C := 3%Z |}.

Section ConcreteChain.
#[local] Existing Instance ZP.

Definition ex_station (i : nat) : Station := {| station_id := i |}.

Definition ex_stations : list Station := map ex_station (seq 0 5).

(** The i-th source entangles stations i and i+1; its k-th draw takes k+1
    units of time. *)
Definition ex_source (i : nat) : @Source ZP :=
  {| source_id := i;
     target_stations := [ex_station i; ex_station (S i)];
     time_distribution := fun k => (Z.of_nat (S k), S k);
     state_generation := 0;
     schedule_event_attr := Callable |}.

Definition ex_sources : list (@Source ZP) := map ex_source (seq 0 4).

(** An object without [schedule_event] in the place of a source. *)
Definition ex_not_a_source : @Source ZP :=
  {| source_id := 9;
     target_stations := [];
     time_distribution := fun k => (0%Z, 0);
     state_generation := 0;
     schedule_event_attr := Missing |}.

Definition ex_pair (id a b : nat) : @Pair ZP :=
  {| pair_id := id;
     pair_stations := (ex_station a, ex_station b);
     qubits := ({| qubit_id := 2 * id |}, {| qubit_id := 2 * id + 1 |});
     state := 10 + id;
     resource_cost_max := Z.of_nat id;
     resource_cost_add := Z.of_nat (2 * id) |}.

(** A world at time 5 with the given pairs and their qubits registered and
    nothing pending. *)
Definition ex_world (pairs : list (@Pair ZP)) : @World ZP :=
  {| world_objects :=
       {| bucket_Pair := Some pairs;
          bucket_Qubit :=
            Some (flat_map (fun p => [fst (qubits p); snd (qubits p)]) pairs) |};
     event_queue := {| queue := []; current_time := 5%Z |};
     rng_draws := 0 |}.

(** A world whose registry has no entry for pairs. *)
Definition ex_world_unregistered : @World ZP :=
  {| world_objects := {| bucket_Pair := None; bucket_Qubit := None |};
     event_queue := {| queue := []; current_time := 5%Z |};
     rng_draws := 0 |}.

(** The protocol object after [__init__] and [setup], with two memories per
    link. *)
Definition ex_protocol (pairs : list (@Pair ZP)) : @FourlinkProtocol ZP :=
  snd (setup (init (ex_world pairs) 2 ex_stations ex_sources)).

(** The state a call of [check] leaves. *)
Definition after_check (self : @FourlinkProtocol ZP) : @FourlinkProtocol ZP :=
  match check 2 self with
  | Some (_, self') => self'
  | None => self
  end.

(** Three pairs on link 1. *)
Definition ex_crowded : @FourlinkProtocol ZP :=
  ex_protocol [ex_pair 1 0 1; ex_pair 2 0 1; ex_pair 3 0 1].

(** One pair on link 1 and one on link 2. *)
Definition ex_two_pairs : @FourlinkProtocol ZP :=
  ex_protocol [ex_pair 1 0 1; ex_pair 2 1 2].


(** A source whose pairs are due before the current time. *)
Definition ex_late_source : @Source ZP :=
  {| source_id := 0;
     target_stations := [ex_station 0; ex_station 1];
     time_distribution := fun k => ((-1)%Z, S k);
     state_generation := 0;
     schedule_event_attr := Callable |}.

(** The chain with the late source on link 1. *)
Definition ex_late : @FourlinkProtocol ZP :=
  snd (setup (init (ex_world []) 2 ex_stations
                [ex_late_source; ex_source 1; ex_source 2; ex_source 3])).

(** The chain with no memory per link, one pair on link 1 and one on
    link 2. *)
Definition ex_no_memory : @FourlinkProtocol ZP :=
  snd (setup (init (ex_world [ex_pair 1 0 1; ex_pair 2 1 2]) 0 ex_stations ex_sources)).

(** One pair on link 1 and one between the ground stations. *)
Definition ex_mixed : @FourlinkProtocol ZP :=
  ex_protocol [ex_pair 1 0 1; ex_pair 2 0 4].

(** A protocol object with four stations, and one with a single source. *)
Definition ex_four_stations : @FourlinkProtocol ZP :=
  init (ex_world []) 2 (map ex_station (seq 0 4)) ex_sources.

Definition ex_one_source : @FourlinkProtocol ZP :=
  init (ex_world []) 2 ex_stations [ex_source 0].

(** An object whose [schedule_event] attribute is not a method, and a
    protocol object that holds it as the source of link 1, with
    [link_stations] assigned by hand. *)
Definition ex_uncallable_source : @Source ZP :=
  {| source_id := 0;
     target_stations := [ex_station 0; ex_station 1];
     time_distribution := fun k => (Z.of_nat (S k), S k);
     state_generation := 0;
     schedule_event_attr := NotCallable |}.

Definition ex_uncallable : @FourlinkProtocol ZP :=
  set_link_stations
    [(ex_station 0, ex_station 1); (ex_station 1, ex_station 2);
     (ex_station 2, ex_station 3); (ex_station 3, ex_station 4)]
    (init (ex_world []) 2 ex_stations
       [ex_uncallable_source; ex_source 1; ex_source 2; ex_source 3]).

(** A chain whose right ground station stands further out: stations 0, 1,
    2, 3 and 7, with one pair between the ground stations. *)
Definition ex_far_source : @Source ZP :=
  {| source_id := 3;
     target_stations := [ex_station 3; ex_station 7];
     time_distribution := fun k => (Z.of_nat (S k), S k);
     state_generation := 0;
     schedule_event_attr := Callable |}.

Definition ex_uneven : @FourlinkProtocol ZP :=
  snd (setup (init (ex_world [ex_pair 1 0 7]) 2
                [ex_station 0; ex_station 1; ex_station 2; ex_station 3; ex_station 7]
                [ex_source 0; ex_source 1; ex_source 2; ex_far_source])).

(** One pair on each of the four links; and one pair on each of links 1, 2
    and 3. *)
Definition ex_four_pairs : @FourlinkProtocol ZP :=
  ex_protocol [ex_pair 1 0 1; ex_pair 2 1 2; ex_pair 3 2 3; ex_pair 4 3 4].

Definition ex_three_pairs : @FourlinkProtocol ZP :=
  ex_protocol [ex_pair 1 0 1; ex_pair 2 1 2; ex_pair 3 2 3].
End ConcreteChain.

(** ** The monad *)

Section MonadFacts.
Context {P : Platform}.

(** A method is called. *)
Lemma call_schedule_event_callable (src : Source) :
  has_schedule_event src = true ->
  call_schedule_event src = on_world (schedule_event src).
Proof.
  unfold has_schedule_event, call_schedule_event.
  destruct (schedule_event_attr src); intros H; try discriminate. reflexivity.
Qed.

Lemma bind_Ok {A B} (m : M A) (f : A -> M B) self a self1 :
  m self = (Ok a, self1) -> bind m f self = f a self1.
Proof. unfold bind. intros ->. reflexivity. Qed.

Lemma bind_inv {A B} (m : M A) (f : A -> M B) self r self' :
  bind m f self = (r, self') ->
  (exists a self1, m self = (Ok a, self1) /\ f a self1 = (r, self'))
  \/ (exists e, m self = (Raise e, self') /\ r = Raise e).
Proof.
  unfold bind. destruct (m self) as [[a|e] self1]; intros H.
  - left. eauto.
  - right. inversion H; subst. eauto.
Qed.

Lemma bind_inv_Ok {A B} (m : M A) (f : A -> M B) self b self' :
  bind m f self = (Ok b, self') ->
  exists a self1, m self = (Ok a, self1) /\ f a self1 = (Ok b, self').
Proof.
  intros H. destruct (bind_inv _ _ _ H) as [?|[e [_ ?]]]; [assumption|discriminate].
Qed.

Lemma getattr_Some {A} (field : FourlinkProtocol -> option A) self a :
  field self = Some a -> getattr field self = (Ok a, self).
Proof. unfold getattr. intros ->. reflexivity. Qed.

Lemma getattr_inv {A} (field : FourlinkProtocol -> option A) self a self' :
  getattr field self = (Ok a, self') -> field self = Some a /\ self' = self.
Proof.
  unfold getattr. destruct (field self); intros H; inversion H; auto.
Qed.

Lemma get_pairs_between_eq station1 station2 self :
  _get_pairs_between_stations station1 station2 self
  = (Ok (pairs_between (world self) station1 station2), self).
Proof.
  unfold _get_pairs_between_stations, pairs_between, pairs_of, bind,
    try_except_KeyError, world_objects_Pair, ret.
  destruct (bucket_Pair (world_objects (world self))); reflexivity.
Qed.

Lemma get_pairs_scheduled_eq station1 station2 self :
  _get_pairs_scheduled station1 station2 self
  = (Ok (scheduled_for (world self) station1 station2), self).
Proof. reflexivity. Qed.

Lemma mapM_between_eq links self :
  mapM (fun st => _get_pairs_between_stations (fst st) (snd st)) links self
  = (Ok (map (fun st => pairs_between (world self) (fst st) (snd st)) links), self).
Proof.
  induction links as [|st links IH]; simpl; [reflexivity|].
  rewrite (bind_Ok _ _ _ (get_pairs_between_eq _ _ _)).
  rewrite (bind_Ok _ _ _ IH). reflexivity.
Qed.

Lemma mapM_scheduled_eq links self :
  mapM (fun st => _get_pairs_scheduled (fst st) (snd st)) links self
  = (Ok (map (fun st => scheduled_for (world self) (fst st) (snd st)) links), self).
Proof.
  induction links as [|st links IH]; simpl; [reflexivity|].
  rewrite (bind_Ok _ _ _ (get_pairs_scheduled_eq _ _ _)).
  rewrite (bind_Ok _ _ _ IH). reflexivity.
Qed.

(** *** Invariants through the combinators *)

Lemma preserves_ret {A} I E (a : A) : preserves I E (ret a).
Proof. intros s Hs. split; [exact Hs|]. simpl. discriminate. Qed.

Lemma preserves_raise {A} (I : FourlinkProtocol -> Prop) (E : Exception -> Prop) e :
  E e -> preserves I E (@raise _ A e).
Proof. intros He s Hs. split; [exact Hs|]. simpl. intros e' H. inversion H; subst; auto. Qed.

Lemma preserves_bind {A B} I E (m : M A) (f : A -> M B) :
  preserves I E m -> (forall a, preserves I E (f a)) -> preserves I E (bind m f).
Proof.
  intros Hm Hf s Hs. unfold bind.
  destruct (Hm s Hs) as [H1 H2].
  destruct (m s) as [[a|e] s1]; simpl in *.
  - apply Hf. exact H1.
  - split; [exact H1|]. intros e' H. inversion H; subst. apply H2. reflexivity.
Qed.

Lemma preserves_gets {A} I E (field : FourlinkProtocol -> A) :
  preserves I E (gets field).
Proof. intros s Hs. split; [exact Hs|]. simpl. discriminate. Qed.

Lemma preserves_getattr {A} (I : FourlinkProtocol -> Prop) (E : Exception -> Prop)
    (field : FourlinkProtocol -> option A) :
  E AttributeError -> preserves I E (getattr field).
Proof.
  intros He s Hs. unfold getattr. destruct (field s); simpl.
  - split; [exact Hs|discriminate].
  - split; [exact Hs|]. intros e H. inversion H; subst; auto.
Qed.

Lemma preserves_getitem {A} (I : FourlinkProtocol -> Prop) (E : Exception -> Prop)
    (l : list A) i :
  E IndexError -> preserves I E (getitem l i).
Proof.
  intros He. unfold getitem. destruct (nth_error l i).
  - apply preserves_ret.
  - apply preserves_raise. exact He.
Qed.

Lemma preserves_forM {A} I E (f : A -> M unit) l :
  (forall a, preserves I E (f a)) -> preserves I E (forM_ f l).
Proof.
  intros Hf. induction l as [|a l IH]; simpl.
  - apply preserves_ret.
  - apply preserves_bind; [apply Hf|intros _; exact IH].
Qed.

Lemma preserves_repeatM I E (m : M unit) n :
  preserves I E m -> preserves I E (repeatM n m).
Proof.
  intros Hm. induction n as [|n IH]; simpl.
  - apply preserves_ret.
  - apply preserves_bind; [exact Hm|intros _; exact IH].
Qed.

Lemma preserves_between I E station1 station2 :
  preserves I E (_get_pairs_between_stations station1 station2).
Proof.
  intros s Hs. rewrite get_pairs_between_eq. split; [exact Hs|]. simpl. discriminate.
Qed.

Lemma preserves_mapM_between I E links :
  preserves I E (mapM (fun st => _get_pairs_between_stations (fst st) (snd st)) links).
Proof.
  intros s Hs. rewrite mapM_between_eq. split; [exact Hs|]. simpl. discriminate.
Qed.

Lemma preserves_mapM_scheduled I E links :
  preserves I E (mapM (fun st => _get_pairs_scheduled (fst st) (snd st)) links).
Proof.
  intros s Hs. rewrite mapM_scheduled_eq. split; [exact Hs|]. simpl. discriminate.
Qed.
End MonadFacts.

(** ** Invariants through the steps of [check] *)

Section Invariants.
Context {P : Platform}.
Variable I : FourlinkProtocol -> Prop.
Variable E : Exception -> Prop.
Hypothesis E_attribute : E AttributeError.
Hypothesis E_index : E IndexError.
Hypothesis E_type : E TypeError.

Section Scheduling.
Hypothesis I_add_event : forall e, preserves I E (on_world (add_event e)).
Hypothesis I_schedule_event : forall src, preserves I E (on_world (schedule_event src)).

Lemma preserves_call_schedule_event src : preserves I E (call_schedule_event src).
Proof.
  unfold call_schedule_event. destruct (schedule_event_attr src).
  - apply preserves_raise. exact E_attribute.
  - apply preserves_raise. exact E_type.
  - apply I_schedule_event.
Qed.

Lemma preserves_replenish lu_source : preserves I E (replenish lu_source).
Proof.
  destruct lu_source as [lu src]. unfold replenish.
  apply preserves_bind; [apply preserves_gets|]. intros n.
  destruct (Z.of_nat lu <? n)%Z.
  - apply preserves_bind; [apply preserves_gets|]. intros n'.
    apply preserves_repeatM, preserves_call_schedule_event.
  - apply preserves_ret.
Qed.

Lemma preserves_replenishment : preserves I E replenishment.
Proof.
  unfold replenishment.
  apply preserves_bind; [apply preserves_getattr, E_attribute|]. intros links.
  apply preserves_bind; [apply preserves_mapM_between|]. intros pairs_links.
  apply preserves_bind; [apply preserves_getattr, E_attribute|]. intros links'.
  apply preserves_bind; [apply preserves_mapM_scheduled|]. intros scheduled.
  apply preserves_bind; [apply preserves_gets|]. intros srcs.
  apply preserves_bind; [apply preserves_forM, preserves_replenish|]. intros _.
  apply preserves_ret.
Qed.

Lemma preserves_schedule_swap lr : preserves I E (schedule_swap lr).
Proof.
  destruct lr as [l r]. unfold schedule_swap.
  apply preserves_bind; [apply preserves_gets|]. intros q.
  destruct (negb _).
  - apply preserves_bind; [apply preserves_gets|]. intros t. apply I_add_event.
  - apply preserves_ret.
Qed.

Lemma preserves_swapping nums lists i j : preserves I E (swapping nums lists i j).
Proof.
  unfold swapping.
  apply preserves_bind; [apply preserves_getitem, E_index|]. intros ni.
  destruct (ni =? 0); [apply preserves_ret|].
  apply preserves_bind; [apply preserves_getitem, E_index|]. intros nj.
  destruct (nj =? 0); [apply preserves_ret|].
  apply preserves_bind; [apply preserves_getitem, E_index|]. intros li.
  apply preserves_bind; [apply preserves_getitem, E_index|]. intros lj.
  apply preserves_forM, preserves_schedule_swap.
Qed.

Lemma preserves_swapping_central : preserves I E swapping_central.
Proof.
  unfold swapping_central.
  apply preserves_bind; [apply preserves_getattr, E_attribute|]. intros gl.
  apply preserves_bind; [apply preserves_getattr, E_attribute|]. intros sc.
  apply preserves_bind; [apply preserves_between|]. intros left_pairs.
  apply preserves_bind; [apply preserves_getattr, E_attribute|]. intros sc'.
  apply preserves_bind; [apply preserves_getattr, E_attribute|]. intros gr.
  apply preserves_bind; [apply preserves_between|]. intros right_pairs.
  destruct (_ && _).
  - apply preserves_forM, preserves_schedule_swap.
  - apply preserves_ret.
Qed.

Lemma preserves_scheduling_steps : preserves I E scheduling_steps.
Proof.
  unfold scheduling_steps.
  apply preserves_bind; [apply preserves_replenishment|]. intros lists.
  apply preserves_bind; [apply preserves_swapping|]. intros _.
  apply preserves_bind; [apply preserves_swapping|]. intros _.
  apply preserves_swapping_central.
Qed.
End Scheduling.

Section Evaluating.
Hypothesis I_eval_pair : forall p, preserves I E (_eval_pair p).
Hypothesis I_destroy_qubit : forall q, preserves I E (on_world (destroy_qubit q)).
Hypothesis I_destroy_pair : forall p, preserves I E (on_world (destroy_pair p)).

Lemma preserves_evaluate p : preserves I E (evaluate p).
Proof.
  unfold evaluate.
  apply preserves_bind; [apply I_eval_pair|]. intros _.
  apply preserves_bind; [apply I_destroy_qubit|]. intros _.
  apply preserves_bind; [apply I_destroy_qubit|]. intros _.
  apply I_destroy_pair.
Qed.

Lemma preserves_evaluation : preserves I E evaluation.
Proof.
  unfold evaluation.
  apply preserves_bind; [apply preserves_getattr, E_attribute|]. intros gl.
  apply preserves_bind; [apply preserves_getattr, E_attribute|]. intros gr.
  apply preserves_bind; [apply preserves_between|]. intros long_range_pairs.
  destruct long_range_pairs as [|p l].
  - apply preserves_ret.
  - apply preserves_bind; [apply preserves_forM, preserves_evaluate|]. intros _.
    apply preserves_ret.
Qed.

Hypothesis I_add_event : forall e, preserves I E (on_world (add_event e)).
Hypothesis I_schedule_event : forall src, preserves I E (on_world (schedule_event src)).

Lemma preserves_check_pass : preserves I E check_pass.
Proof.
  unfold check_pass.
  apply preserves_bind; [apply preserves_scheduling_steps; assumption|]. intros _.
  apply preserves_evaluation.
Qed.

Lemma preserves_check fuel : forall self r self',
  I self -> check fuel self = Some (r, self') ->
  I self' /\ (forall e, r = Raise e -> E e).
Proof.
  induction fuel as [|fuel IH]; intros self r self' HI H; simpl in H; [discriminate|].
  assert (Hp := preserves_check_pass). unfold preserves in Hp.
  destruct (Hp self HI) as [H1 H2]. clear Hp.
  destruct (check_pass self) as [[[|]|e] s1]; simpl in *.
  - eapply IH; eauto.
  - inversion H; subst. split; [assumption|]. discriminate.
  - inversion H; subst. split; [assumption|]. intros e' He'. apply H2. inversion He'. reflexivity.
Qed.
End Evaluating.
End Invariants.

(** ** What each operation of the world keeps *)

(** Unfold an operation of the world, or [_eval_pair], and split on what
    it tests. *)
Ltac prim :=
  let s := fresh "s" in let Hs := fresh "Hs" in
  intros s Hs;
  unfold on_world, schedule_event, add_event, destroy_qubit, destroy_pair,
    _eval_pair, bind, getattr, gets, modify, ret;
  repeat match goal with
    | |- context [time_distribution ?a ?b] => destruct (time_distribution a b)
    | |- context [num_ltb ?a ?b] => destruct (num_ltb a b)
    | |- context [in_dec ?a ?b ?c] => destruct (in_dec a b c)
    | |- context [match bucket_Qubit ?a with _ => _ end] => destruct (bucket_Qubit a)
    | |- context [match bucket_Pair ?a with _ => _ end] => destruct (bucket_Pair a)
    | |- context [match sat_central ?a with _ => _ end] => destruct (sat_central a)
    | |- context [match station_ground_left ?a with _ => _ end] =>
        destruct (station_ground_left a)
    | |- context [match station_ground_right ?a with _ => _ end] =>
        destruct (station_ground_right a)
    end;
  simpl;
  (split; [try assumption
          | try discriminate; try (intros ? _; exact Logic.I);
            try (let He := fresh in intros ? He; inversion He; subst; discriminate)]).

Section Primitives.
Context {P : Platform}.

Lemma static_add_event v e :
  preserves (fun s => static s = v) (fun _ => True) (on_world (add_event e)).
Proof. prim. Qed.

Lemma static_schedule_event v src :
  preserves (fun s => static s = v) (fun _ => True) (on_world (schedule_event src)).
Proof. prim. Qed.

Lemma scheduling_eval_pair v p :
  preserves (fun s => scheduling s = v) (fun _ => True) (_eval_pair p).
Proof. prim. Qed.

Lemma scheduling_destroy_qubit v q :
  preserves (fun s => scheduling s = v) (fun _ => True) (on_world (destroy_qubit q)).
Proof. prim. Qed.

Lemma scheduling_destroy_pair v p :
  preserves (fun s => scheduling s = v) (fun _ => True) (on_world (destroy_pair p)).
Proof. prim. Qed.

(** The steps before the evaluation touch nothing but the queue and the
    random draws. *)
Lemma scheduling_steps_static self :
  static (snd (scheduling_steps self)) = static self.
Proof.
  apply (@preserves_scheduling_steps _ (fun s => static s = static self) (fun _ => True));
    try exact Logic.I; try reflexivity.
  - intros e. apply static_add_event.
  - intros src. apply static_schedule_event.
Qed.

(** The evaluation touches nothing but the registry and the logs. *)
Lemma evaluation_scheduling self :
  scheduling (snd (evaluation self)) = scheduling self.
Proof.
  apply (@preserves_evaluation _ (fun s => scheduling s = scheduling self) (fun _ => True));
    try exact Logic.I; try reflexivity.
  - intros p. apply scheduling_eval_pair.
  - intros q. apply scheduling_destroy_qubit.
  - intros p. apply scheduling_destroy_pair.
Qed.
End Primitives.

(** ** Registry lookup, and [check] before [setup] *)

Section Lookup.
Context {P : Platform}.

Lemma check_never_KeyError fuel self r self' :
  check fuel self = Some (r, self') -> r <> Raise KeyError.
Proof.
  intros H.
  assert (Hi : True /\ forall e, r = Raise e -> not_KeyError e).
  { apply (@preserves_check _ (fun _ => True) not_KeyError) with (fuel := fuel) (self := self)
      (self' := self'); try exact Logic.I; try assumption; try discriminate;
      intros; prim. }
  intros ->. destruct Hi as [_ Hi]. apply (Hi KeyError); reflexivity.
Qed.

(** C10: when the registry has no entry for the kind "Pair",
    [_get_pairs_between_stations] returns the empty list and raises
    nothing, and no call of [check] ends in the [KeyError] of the lookup. *)
Theorem get_pairs_without_Pair_entry (self : FourlinkProtocol)
    (station1 station2 : Station) :
  bucket_Pair (world_objects (world self)) = None ->
  _get_pairs_between_stations station1 station2 self = (Ok [], self)
  /\ (forall fuel r self', check fuel self = Some (r, self') -> r <> Raise KeyError).
Proof.
  intros Hnone. split.
  - rewrite get_pairs_between_eq. unfold pairs_between, pairs_of.
    rewrite Hnone. reflexivity.
  - intros fuel r self'. apply check_never_KeyError.
Qed.

(** C9, as the code has it: [check] on a protocol object on which [setup]
    has never run stops at line 130 with Python's [AttributeError] for the
    missing attribute [link_stations], and changes nothing. *)
Theorem check_before_setup (w : World) (n : Z) (sts : list Station)
    (srcs : list Source) (fuel : nat) :
  check (S fuel) (init w n sts srcs)
  = Some (Raise AttributeError, init w n sts srcs).
Proof. reflexivity. Qed.
End Lookup.

(** ** [setup] *)

Section Setup.
Context {P : Platform}.

(** [setup] on five stations and four sources that can all schedule. *)
Lemma setup_succeeds (self : FourlinkProtocol) s0 s1 s2 s3 s4 c0 c1 c2 c3 :
  stations self = [s0; s1; s2; s3; s4] ->
  sources self = [c0; c1; c2; c3] ->
  forallb has_schedule_event (sources self) = true ->
  fst (setup self) = Ok tt
  /\ configured (snd (setup self)) s0 s1 s2 s3 s4
  /\ sources (snd (setup self)) = sources self
  /\ num_memories (snd (setup self)) = num_memories self
  /\ world (snd (setup self)) = world self
  /\ logs (snd (setup self)) = logs self.
Proof.
  intros Hst Hsrc Hf. unfold setup, bind, gets. rewrite Hst. simpl. rewrite Hsrc.
  rewrite Hsrc in Hf. simpl in *. unfold bind, assert.
  destruct (has_schedule_event c0), (has_schedule_event c1),
    (has_schedule_event c2), (has_schedule_event c3);
    simpl in *; try discriminate.
  split; [reflexivity|]. split.
  - unfold configured. simpl. rewrite Hst. repeat split.
  - repeat split; auto.
Qed.

(** C8, as the code has it: every check of [setup] is an [assert], so
    [setup] fails with [AssertionError] when the station list does not have
    length 5 or the source list does not have length 4, and with
    [AssertionError] again when a source has no callable [schedule_event];
    otherwise it returns normally, the five stations labelled and the four
    links built, the world and the logs untouched. *)
Theorem setup_outcome (self : FourlinkProtocol) :
  (length (stations self) <> 5 \/ length (sources self) <> 4 ->
   fst (setup self) = Raise AssertionError)
  /\ (length (stations self) = 5 -> length (sources self) = 4 ->
      forallb has_schedule_event (sources self) = false ->
      fst (setup self) = Raise AssertionError)
  /\ (length (stations self) = 5 -> length (sources self) = 4 ->
      forallb has_schedule_event (sources self) = true ->
      fst (setup self) = Ok tt
      /\ (exists s0 s1 s2 s3 s4, configured (snd (setup self)) s0 s1 s2 s3 s4)
      /\ sources (snd (setup self)) = sources self
      /\ num_memories (snd (setup self)) = num_memories self
      /\ world (snd (setup self)) = world self
      /\ logs (snd (setup self)) = logs self).
Proof.
  destruct (stations self) as [|s0 [|s1 [|s2 [|s3 [|s4 [|s5 sts]]]]]] eqn:Hst;
    try (repeat split; intros; try (simpl in *; discriminate);
         unfold setup, bind, gets; rewrite Hst; reflexivity).
  destruct (sources self) as [|c0 [|c1 [|c2 [|c3 [|c4 srcs]]]]] eqn:Hsrc;
    try (repeat split; intros; try (simpl in *; discriminate);
         try (exfalso; simpl in *; intuition congruence);
         unfold setup, bind, gets; rewrite Hst; simpl; rewrite Hsrc; reflexivity).
  split; [|split].
  - simpl. intros [H|H]; exfalso; apply H; reflexivity.
  - intros _ _ Hf. unfold setup, bind, gets. rewrite Hst. simpl. rewrite Hsrc.
    simpl in *. unfold bind, assert.
    destruct (has_schedule_event c0), (has_schedule_event c1),
      (has_schedule_event c2), (has_schedule_event c3);
      simpl in *; try discriminate; reflexivity.
  - intros _ _ Hf.
    assert (Hf' : forallb has_schedule_event (sources self) = true)
      by (rewrite Hsrc; exact Hf).
    destruct (@setup_succeeds self s0 s1 s2 s3 s4 c0 c1 c2 c3 Hst Hsrc Hf')
      as (H1 & H2 & H3 & H4 & H5 & H6).
    rewrite Hsrc in H3.
    split; [exact H1|]. split; [exists s0, s1, s2, s3, s4; exact H2|].
    split; [exact H3|]. split; [exact H4|]. split; [exact H5|exact H6].
Qed.
End Setup.

(** ** The evaluation step *)

Section Evaluation.
Context {P : Platform}.

Lemma in_remove_pairs l : forall bucket x,
  In x (remove_pairs l bucket) <-> In x bucket /\ ~ In x l.
Proof.
  induction l as [|p l IH]; intros bucket x; simpl.
  - tauto.
  - unfold remove_pairs in *. simpl. rewrite IH. split.
    + intros [H1 H2]. apply in_remove in H1. destruct H1 as [H1 H3].
      split; [assumption|]. simpl. intros [Heq|H4]; [congruence|contradiction].
    + intros [H1 H2]. split.
      * apply in_in_remove; [|assumption]. intros Heq. apply H2. left. congruence.
      * intros H3. apply H2. right. assumption.
Qed.

Lemma in_remove_qubits l : forall bucket x,
  In x (remove_qubits l bucket) <-> In x bucket /\ ~ In x l.
Proof.
  induction l as [|p l IH]; intros bucket x; simpl.
  - tauto.
  - unfold remove_qubits in *. simpl. rewrite IH. split.
    + intros [H1 H2]. apply in_remove in H1. destruct H1 as [H1 H3].
      split; [assumption|]. simpl. intros [Heq|H4]; [congruence|contradiction].
    + intros [H1 H2]. split.
      * apply in_in_remove; [|assumption]. intros Heq. apply H2. left. congruence.
      * intros H3. apply H2. right. assumption.
Qed.

Lemma eval_pair_inv p self self' :
  _eval_pair p self = (Ok tt, self') ->
  exists sc gl gr,
    sat_central self = Some sc
    /\ station_ground_left self = Some gl
    /\ station_ground_right self = Some gr
    /\ world self' = world self
    /\ config self' = config self
    /\ time_list self' = time_list self ++ [eval_time self sc gl gr]
    /\ state_list self' = state_list self ++ [state p]
    /\ resource_cost_max_list self' = resource_cost_max_list self ++ [resource_cost_max p]
    /\ resource_cost_add_list self' = resource_cost_add_list self ++ [resource_cost_add p].
Proof.
  destruct (sat_central self) as [sc|] eqn:Hsc;
    destruct (station_ground_left self) as [gl|] eqn:Hgl;
    destruct (station_ground_right self) as [gr|] eqn:Hgr;
    unfold _eval_pair, bind, getattr, gets, modify;
    repeat (progress (simpl; rewrite ?Hsc, ?Hgl, ?Hgr));
    intros H; try discriminate.
  inversion H; subst. exists sc, gl, gr. simpl.
  repeat split; try assumption.
Qed.

Lemma destroy_qubit_inv q self self' :
  on_world (destroy_qubit q) self = (Ok tt, self') ->
  In q (qubits_of (world self))
  /\ qubits_of (world self') = remove Qubit_eq_dec q (qubits_of (world self))
  /\ bucket_Pair (world_objects (world self')) = bucket_Pair (world_objects (world self))
  /\ logs self' = logs self
  /\ scheduling self' = scheduling self.
Proof.
  unfold on_world, destroy_qubit, qubits_of.
  destruct (bucket_Qubit (world_objects (world self))) as [l|]; [|discriminate].
  destruct (in_dec Qubit_eq_dec q l); [|discriminate].
  intros H. inversion H; subst. simpl. repeat split; assumption.
Qed.

Lemma destroy_pair_inv p self self' :
  on_world (destroy_pair p) self = (Ok tt, self') ->
  In p (pairs_of (world self))
  /\ pairs_of (world self') = remove Pair_eq_dec p (pairs_of (world self))
  /\ bucket_Qubit (world_objects (world self')) = bucket_Qubit (world_objects (world self))
  /\ logs self' = logs self
  /\ scheduling self' = scheduling self.
Proof.
  unfold on_world, destroy_pair, pairs_of.
  destruct (bucket_Pair (world_objects (world self))) as [l|]; [|discriminate].
  destruct (in_dec Pair_eq_dec p l); [|discriminate].
  intros H. inversion H; subst. simpl. repeat split; assumption.
Qed.

(** What one turn of the loop of lines 196-201 does when it completes. *)
Lemma evaluate_inv p self self' :
  evaluate p self = (Ok tt, self') ->
  exists sc gl gr,
    sat_central self = Some sc
    /\ station_ground_left self = Some gl
    /\ station_ground_right self = Some gr
    /\ scheduling self' = scheduling self
    /\ pairs_of (world self') = remove Pair_eq_dec p (pairs_of (world self))
    /\ qubits_of (world self')
       = remove_qubits [fst (qubits p); snd (qubits p)] (qubits_of (world self))
    /\ time_list self' = time_list self ++ [eval_time self sc gl gr]
    /\ state_list self' = state_list self ++ [state p]
    /\ resource_cost_max_list self' = resource_cost_max_list self ++ [resource_cost_max p]
    /\ resource_cost_add_list self' = resource_cost_add_list self ++ [resource_cost_add p].
Proof.
  unfold evaluate. intros H.
  apply bind_inv_Ok in H. destruct H as ([] & s1 & H1 & H).
  apply bind_inv_Ok in H. destruct H as ([] & s2 & H2 & H).
  apply bind_inv_Ok in H. destruct H as ([] & s3 & H3 & H4).
  apply eval_pair_inv in H1.
  destruct H1 as (sc & gl & gr & Hsc & Hgl & Hgr & Hw & Hc & Ht & Hs & Hm & Ha).
  apply destroy_qubit_inv in H2. destruct H2 as (_ & Hq2 & Hp2 & Hl2 & Hs2).
  apply destroy_qubit_inv in H3. destruct H3 as (_ & Hq3 & Hp3 & Hl3 & Hs3).
  apply destroy_pair_inv in H4. destruct H4 as (_ & Hp4 & Hq4 & Hl4 & Hs4).
  exists sc, gl, gr. repeat split; try assumption.
  - rewrite Hs4, Hs3, Hs2. unfold scheduling. rewrite Hc, Hw. reflexivity.
  - rewrite Hp4. unfold pairs_of. rewrite Hp3, Hp2, Hw. reflexivity.
  - unfold qubits_of at 1. rewrite Hq4. fold (qubits_of (world s3)).
    rewrite Hq3, Hq2, Hw. reflexivity.
  - assert (Hx : time_list self' = time_list s1).
    { assert (H : logs self' = logs s1) by (rewrite Hl4, Hl3, Hl2; reflexivity).
      unfold logs in H. congruence. }
    rewrite Hx. exact Ht.
  - assert (Hx : state_list self' = state_list s1).
    { assert (H : logs self' = logs s1) by (rewrite Hl4, Hl3, Hl2; reflexivity).
      unfold logs in H. congruence. }
    rewrite Hx. exact Hs.
  - assert (Hx : resource_cost_max_list self' = resource_cost_max_list s1).
    { assert (H : logs self' = logs s1) by (rewrite Hl4, Hl3, Hl2; reflexivity).
      unfold logs in H. congruence. }
    rewrite Hx. exact Hm.
  - assert (Hx : resource_cost_add_list self' = resource_cost_add_list s1).
    { assert (H : logs self' = logs s1) by (rewrite Hl4, Hl3, Hl2; reflexivity).
      unfold logs in H. congruence. }
    rewrite Hx. exact Ha.
Qed.

(** The whole loop of lines 196-201, when it completes. *)
Lemma evaluate_loop_inv sc gl gr l : forall self self',
  sat_central self = Some sc ->
  station_ground_left self = Some gl ->
  station_ground_right self = Some gr ->
  forM_ evaluate l self = (Ok tt, self') ->
  scheduling self' = scheduling self
  /\ pairs_of (world self') = remove_pairs l (pairs_of (world self))
  /\ qubits_of (world self') = remove_qubits (qubits_of_pairs l) (qubits_of (world self))
  /\ time_list self' = time_list self ++ map (fun _ => eval_time self sc gl gr) l
  /\ state_list self' = state_list self ++ map state l
  /\ resource_cost_max_list self' = resource_cost_max_list self ++ map resource_cost_max l
  /\ resource_cost_add_list self' = resource_cost_add_list self ++ map resource_cost_add l.
Proof.
  induction l as [|p l IH]; intros self self' Hsc Hgl Hgr H; simpl in H.
  - inversion H; subst. simpl. rewrite !app_nil_r. repeat split.
  - apply bind_inv_Ok in H. destruct H as ([] & s1 & H1 & H2).
    apply evaluate_inv in H1.
    destruct H1 as (sc' & gl' & gr' & Hsc' & Hgl' & Hgr' & Hs & Hp & Hq & Ht & Hst & Hm & Ha).
    assert (sc' = sc) by congruence. assert (gl' = gl) by congruence.
    assert (gr' = gr) by congruence. subst sc' gl' gr'.
    assert (Hcfg : config s1 = config self) by (unfold scheduling in Hs; congruence).
    assert (Hnow : now s1 = now self).
    { unfold now. unfold scheduling in Hs. congruence. }
    assert (Hsc1 : sat_central s1 = Some sc) by (unfold config in Hcfg; congruence).
    assert (Hgl1 : station_ground_left s1 = Some gl) by (unfold config in Hcfg; congruence).
    assert (Hgr1 : station_ground_right s1 = Some gr) by (unfold config in Hcfg; congruence).
    destruct (IH s1 self' Hsc1 Hgl1 Hgr1 H2) as (Is & Ip & Iq & It & Ist & Im & Ia).
    assert (Het : eval_time s1 sc gl gr = eval_time self sc gl gr).
    { unfold eval_time. rewrite Hnow. reflexivity. }
    repeat split.
    + congruence.
    + rewrite Ip, Hp. reflexivity.
    + rewrite Iq, Hq. unfold qubits_of_pairs, remove_qubits. simpl. reflexivity.
    + rewrite It, Ht, Het. simpl. rewrite <- app_assoc. reflexivity.
    + rewrite Ist, Hst. simpl. rewrite <- app_assoc. reflexivity.
    + rewrite Im, Hm. simpl. rewrite <- app_assoc. reflexivity.
    + rewrite Ia, Ha. simpl. rewrite <- app_assoc. reflexivity.
Qed.

Lemma check_pass_inv self b self' :
  check_pass self = (Ok b, self') ->
  exists mid, scheduling_steps self = (Ok tt, mid) /\ evaluation mid = (Ok b, self').
Proof.
  unfold check_pass. intros H. apply bind_inv_Ok in H.
  destruct H as ([] & mid & H1 & H2). eauto.
Qed.

Lemma evaluation_inv self b self' :
  evaluation self = (Ok b, self') ->
  exists gl gr,
    station_ground_left self = Some gl
    /\ station_ground_right self = Some gr
    /\ ((pairs_between (world self) gl gr = [] /\ b = false /\ self' = self)
        \/ (pairs_between (world self) gl gr <> [] /\ b = true
            /\ forM_ evaluate (pairs_between (world self) gl gr) self = (Ok tt, self'))).
Proof.
  unfold evaluation. intros H.
  apply bind_inv_Ok in H. destruct H as (gl & s1 & H1 & H).
  apply getattr_inv in H1. destruct H1 as [Hgl ->].
  apply bind_inv_Ok in H. destruct H as (gr & s1 & H1 & H).
  apply getattr_inv in H1. destruct H1 as [Hgr ->].
  rewrite (bind_Ok _ _ _ (get_pairs_between_eq _ _ _)) in H.
  exists gl, gr. split; [assumption|]. split; [assumption|].
  destruct (pairs_between (world self) gl gr) as [|p l] eqn:HL.
  - left. inversion H; subst. auto.
  - right. apply bind_inv_Ok in H. destruct H as ([] & s1 & H1 & H2).
    inversion H2; subst. repeat split; [discriminate|assumption].
Qed.
End Evaluation.

(** ** Termination *)

Section Termination.
Context {P : Platform}.

Lemma filter_nil_iff {A} (f : A -> bool) (l : list A) :
  filter f l = [] <-> (forall x, In x l -> f x = false).
Proof.
  induction l as [|a l IH]; simpl.
  - split; [intros _ x []|reflexivity].
  - destruct (f a) eqn:Ha; split.
    + discriminate.
    + intros H. specialize (H a (or_introl eq_refl)). congruence.
    + intros H x [<-|Hx]; [assumption|]. apply IH; assumption.
    + intros H. apply IH. intros x Hx. apply H. right. assumption.
Qed.

Lemma pairs_between_static (a b : FourlinkProtocol) station1 station2 :
  world_objects (world a) = world_objects (world b) ->
  pairs_between (world a) station1 station2 = pairs_between (world b) station1 station2.
Proof. unfold pairs_between, pairs_of. intros ->. reflexivity. Qed.

(** Once the loop of lines 196-201 has completed, no pair is left between
    the two stations it looked between. *)
Lemma evaluation_true_clears self self' :
  evaluation self = (Ok true, self') ->
  exists gl gr,
    station_ground_left self' = Some gl
    /\ station_ground_right self' = Some gr
    /\ pairs_between (world self') gl gr = [].
Proof.
  intros H.
  assert (Hs := evaluation_scheduling self). rewrite H in Hs. simpl in Hs.
  apply evaluation_inv in H.
  destruct H as (gl & gr & Hgl & Hgr & [(_ & Hb & _)|(Hne & _ & Hloop)]); [discriminate|].
  assert (Hcfg : config self' = config self) by (unfold scheduling in Hs; congruence).
  exists gl, gr.
  split; [unfold config in Hcfg; congruence|].
  split; [unfold config in Hcfg; congruence|].
  destruct (pairs_between (world self) gl gr) as [|p l] eqn:HL; [congruence|].
  assert (Hsc : exists sc, sat_central self = Some sc).
  { simpl in Hloop. apply bind_inv_Ok in Hloop. destruct Hloop as ([] & s1 & H1 & _).
    apply evaluate_inv in H1. destruct H1 as (sc & _ & _ & Hsc & _). eauto. }
  destruct Hsc as [sc Hsc].
  destruct (@evaluate_loop_inv _ sc gl gr (p :: l) self self' Hsc Hgl Hgr Hloop)
    as (_ & Hp & _).
  unfold pairs_between at 1. rewrite Hp. apply filter_nil_iff.
  intros x Hx. apply in_remove_pairs in Hx. destruct Hx as [Hx Hnot].
  destruct (is_between_stations x gl gr) eqn:Hb; [|reflexivity].
  exfalso. apply Hnot. rewrite <- HL. unfold pairs_between.
  apply filter_In. split; assumption.
Qed.

(** A pass that starts without a pair between the ground stations does not
    reach line 202. *)
Lemma check_pass_without_long_range self gl gr :
  station_ground_left self = Some gl ->
  station_ground_right self = Some gr ->
  pairs_between (world self) gl gr = [] ->
  fst (check_pass self) <> Ok true.
Proof.
  intros Hgl Hgr Hnil Hfst.
  destruct (check_pass self) as [r s2] eqn:Hcp. simpl in Hfst. subst r.
  apply check_pass_inv in Hcp. destruct Hcp as (mid & Hsteps & Heval).
  assert (Hst := scheduling_steps_static self). rewrite Hsteps in Hst. simpl in Hst.
  apply evaluation_inv in Heval.
  destruct Heval as (gl' & gr' & Hgl' & Hgr' & [(_ & Hb & _)|(Hne & _ & _)]); [discriminate|].
  unfold static in Hst.
  assert (Hcfg : config mid = config self) by congruence.
  assert (Hwo : world_objects (world mid) = world_objects (world self)) by congruence.
  assert (gl' = gl) by (unfold config in Hcfg; congruence).
  assert (gr' = gr) by (unfold config in Hcfg; congruence).
  subst gl' gr'. apply Hne.
  rewrite (pairs_between_static mid self gl gr Hwo). exact Hnil.
Qed.

Lemma check_pass_twice self self1 :
  check_pass self = (Ok true, self1) -> fst (check_pass self1) <> Ok true.
Proof.
  intros H. apply check_pass_inv in H. destruct H as (mid & _ & Heval).
  apply evaluation_true_clears in Heval. destruct Heval as (gl & gr & Hgl & Hgr & Hnil).
  eapply check_pass_without_long_range; eassumption.
Qed.

(** C3: [check] returns on every state, after at most one invocation of
    itself (two nested calls are always enough), and with none when the
    pass finds no pair between the two ground stations. *)
Theorem check_terminates (self : FourlinkProtocol) :
  exists out,
    (forall fuel, 2 <= fuel -> check fuel self = Some out)
    /\ (forall gl gr,
          station_ground_left self = Some gl ->
          station_ground_right self = Some gr ->
          pairs_between (world self) gl gr = [] ->
          check 1 self = Some out).
Proof.
  destruct (check_pass self) as [[[|]|e] s1] eqn:H1.
  - assert (H2 := check_pass_twice _ H1).
    destruct (check_pass s1) as [[[|]|e] s2] eqn:H3.
    + exfalso. apply H2. reflexivity.
    + exists (Ok tt, s2). split.
      * intros [|[|fuel]] Hf; try lia. simpl. rewrite H1, H3. reflexivity.
      * intros gl gr Hgl Hgr Hnil. exfalso.
        apply (check_pass_without_long_range _ Hgl Hgr Hnil). rewrite H1. reflexivity.
    + exists (Raise e, s2). split.
      * intros [|[|fuel]] Hf; try lia. simpl. rewrite H1, H3. reflexivity.
      * intros gl gr Hgl Hgr Hnil. exfalso.
        apply (check_pass_without_long_range _ Hgl Hgr Hnil). rewrite H1. reflexivity.
  - exists (Ok tt, s1). split.
    + intros [|fuel] Hf; try lia. simpl. rewrite H1. reflexivity.
    + intros. simpl. rewrite H1. reflexivity.
  - exists (Raise e, s1). split.
    + intros [|fuel] Hf; try lia. simpl. rewrite H1. reflexivity.
    + intros. simpl. rewrite H1. reflexivity.
Qed.
End Termination.

(** ** The measurement logs *)

Section Logs.
Context {P : Platform}.

Lemma logs_grown_refl self : logs_grown self self.
Proof.
  exists [], [], [], []. rewrite !app_nil_r. repeat split.
Qed.

Lemma logs_grown_trans a b c : logs_grown a b -> logs_grown b c -> logs_grown a c.
Proof.
  intros (tl & sl & ml & al & Ht & Hs & Hm & Ha & L1 & L2 & L3)
         (tl' & sl' & ml' & al' & Ht' & Hs' & Hm' & Ha' & L1' & L2' & L3').
  exists (tl ++ tl'), (sl ++ sl'), (ml ++ ml'), (al ++ al').
  rewrite Ht', Hs', Hm', Ha', Ht, Hs, Hm, Ha, <- !app_assoc, !length_app.
  repeat split; lia.
Qed.

Lemma logs_grown_same a b c : logs c = logs b -> logs_grown a b -> logs_grown a c.
Proof.
  unfold logs. intros H (tl & sl & ml & al & Ht & Hs & Hm & Ha & L).
  exists tl, sl, ml, al.
  assert (time_list c = time_list b) by congruence.
  assert (state_list c = state_list b) by congruence.
  assert (resource_cost_max_list c = resource_cost_max_list b) by congruence.
  assert (resource_cost_add_list c = resource_cost_add_list b) by congruence.
  repeat split; try congruence; apply L.
Qed.

Lemma logs_grown_aligned a b : logs_grown a b -> logs_aligned a -> logs_aligned b.
Proof.
  unfold logs_aligned.
  intros (tl & sl & ml & al & Ht & Hs & Hm & Ha & L1 & L2 & L3) (A1 & A2 & A3).
  rewrite Ht, Hs, Hm, Ha, !length_app. repeat split; lia.
Qed.

Lemma logs_grown_on_world {A} a (op : World -> Result A * World) :
  preserves (logs_grown a) (fun _ => True) (on_world op).
Proof.
  intros s Hs. unfold on_world. destruct (op (world s)) as [r w']. simpl.
  split; [|intros; exact Logic.I].
  apply logs_grown_same with (b := s); [reflexivity|assumption].
Qed.

Lemma logs_grown_eval_pair a p :
  preserves (logs_grown a) (fun _ => True) (_eval_pair p).
Proof.
  intros s Hs. split; [|intros; exact Logic.I].
  destruct (_eval_pair p s) as [[[]|e] s'] eqn:H; simpl.
  - apply eval_pair_inv in H.
    destruct H as (sc & gl & gr & _ & _ & _ & _ & _ & Ht & Hst & Hm & Ha).
    apply logs_grown_trans with (b := s); [assumption|].
    exists [eval_time s sc gl gr], [state p], [resource_cost_max p], [resource_cost_add p].
    repeat split; assumption.
  - assert (s' = s); [|subst; assumption].
    revert H.
    destruct (sat_central s) as [sc|] eqn:Hsc;
      destruct (station_ground_left s) as [gl|] eqn:Hgl;
      destruct (station_ground_right s) as [gr|] eqn:Hgr;
      unfold _eval_pair, bind, getattr, gets, modify;
      repeat (progress (simpl; rewrite ?Hsc, ?Hgl, ?Hgr));
      intros H; inversion H; reflexivity.
Qed.

Lemma check_logs_grown fuel self r self' :
  check fuel self = Some (r, self') -> logs_grown self self'.
Proof.
  intros H.
  apply (@preserves_check _ (logs_grown self) (fun _ => True)) with (fuel := fuel) (self := self)
      (r := r); try exact Logic.I; try assumption.
  - intros p. apply logs_grown_eval_pair.
  - intros q. apply logs_grown_on_world.
  - intros p. apply logs_grown_on_world.
  - intros e. apply logs_grown_on_world.
  - intros src. apply logs_grown_on_world.
  - apply logs_grown_refl.
Qed.

Lemma check_calls_logs_grown self self' :
  check_calls self self' -> logs_grown self self'.
Proof.
  induction 1 as [self|self w fuel r self1 self2 Hcheck _ IH].
  - apply logs_grown_refl.
  - apply logs_grown_trans with (b := self1); [|exact IH].
    apply check_logs_grown in Hcheck.
    destruct Hcheck as (tl & sl & ml & al & H). exists tl, sl, ml, al. exact H.
Qed.

Lemma setup_logs self : logs (snd (setup self)) = logs self.
Proof.
  unfold setup, bind, gets.
  destruct (stations self) as [|s0 [|s1 [|s2 [|s3 [|s4 [|s5 sts]]]]]] eqn:Hst;
    try reflexivity.
  simpl.
  destruct (sources self) as [|c0 [|c1 [|c2 [|c3 [|c4 srcs]]]]] eqn:Hsrc;
    try reflexivity.
  simpl. unfold bind, assert.
  destruct (has_schedule_event c0), (has_schedule_event c1),
    (has_schedule_event c2), (has_schedule_event c3); reflexivity.
Qed.

(** C7: over any sequence of calls of [check], each of the four logs only
    gets new entries at its end, the same number in each; so the four logs
    keep one length, and have one length after every call on a protocol
    object made by [__init__] and [setup]. *)
Theorem logs_only_grow :
  (forall self self', check_calls self self' -> logs_grown self self')
  /\ (forall self self',
        check_calls self self' -> logs_aligned self -> logs_aligned self')
  /\ (forall w n sts srcs self',
        check_calls (snd (setup (init w n sts srcs))) self' -> logs_aligned self').
Proof.
  split; [|split].
  - apply check_calls_logs_grown.
  - intros self self' H. apply logs_grown_aligned, check_calls_logs_grown, H.
  - intros w n sts srcs self' H.
    apply (logs_grown_aligned (check_calls_logs_grown H)).
    assert (Hl := setup_logs (init w n sts srcs)).
    unfold logs_aligned. unfold logs in Hl. simpl in Hl.
    assert (H1 : time_list (snd (setup (init w n sts srcs))) = []) by congruence.
    assert (H2 : state_list (snd (setup (init w n sts srcs))) = []) by congruence.
    assert (H3 : resource_cost_max_list (snd (setup (init w n sts srcs))) = [])
      by congruence.
    assert (H4 : resource_cost_add_list (snd (setup (init w n sts srcs))) = [])
      by congruence.
    rewrite H1, H2, H3, H4. repeat split.
Qed.
End Logs.

(** ** What a call of [check] that returns has done to the registry and
       the logs *)

Section Evaluated.
Context {P : Platform}.

Lemma evaluated_nil t a b : static b = static a -> evaluated [] t a b.
Proof.
  unfold static, logs, evaluated. intros H.
  assert (Hc : config b = config a) by congruence.
  assert (Hw : world_objects (world b) = world_objects (world a)) by congruence.
  assert (Hn : now b = now a) by congruence.
  assert (time_list b = time_list a) by congruence.
  assert (state_list b = state_list a) by congruence.
  assert (resource_cost_max_list b = resource_cost_max_list a) by congruence.
  assert (resource_cost_add_list b = resource_cost_add_list a) by congruence.
  simpl. rewrite !app_nil_r. unfold pairs_of, qubits_of. rewrite Hw.
  repeat split; assumption.
Qed.

Lemma evaluated_static l t a b c :
  static b = static a -> evaluated l t b c -> evaluated l t a c.
Proof.
  unfold static, logs, evaluated. intros H (Hc & Hn & Hp & Hq & Ht & Hs & Hm & Ha).
  assert (Hc' : config b = config a) by congruence.
  assert (Hw : world_objects (world b) = world_objects (world a)) by congruence.
  assert (Hn' : now b = now a) by congruence.
  assert (H1 : time_list b = time_list a) by congruence.
  assert (H2 : state_list b = state_list a) by congruence.
  assert (H3 : resource_cost_max_list b = resource_cost_max_list a) by congruence.
  assert (H4 : resource_cost_add_list b = resource_cost_add_list a) by congruence.
  unfold pairs_of, qubits_of in *. rewrite Hw in *.
  repeat split; congruence.
Qed.

Lemma evaluated_then_static l t a b c :
  evaluated l t a b -> static c = static b -> evaluated l t a c.
Proof.
  unfold static, logs, evaluated. intros (Hc & Hn & Hp & Hq & Ht & Hs & Hm & Ha) H.
  assert (Hc' : config c = config b) by congruence.
  assert (Hw : world_objects (world c) = world_objects (world b)) by congruence.
  assert (Hn' : now c = now b) by congruence.
  assert (H1 : time_list c = time_list b) by congruence.
  assert (H2 : state_list c = state_list b) by congruence.
  assert (H3 : resource_cost_max_list c = resource_cost_max_list b) by congruence.
  assert (H4 : resource_cost_add_list c = resource_cost_add_list b) by congruence.
  unfold pairs_of, qubits_of in *. rewrite Hw.
  repeat split; congruence.
Qed.

(** One pass that completes: line 202 is reached exactly when there was a
    pair between the ground stations, and those pairs have been evaluated
    and destroyed. *)
Lemma check_pass_Ok_inv self b self' sc gl gr :
  sat_central self = Some sc ->
  station_ground_left self = Some gl ->
  station_ground_right self = Some gr ->
  check_pass self = (Ok b, self') ->
  (b = false <-> pairs_between (world self) gl gr = [])
  /\ evaluated (pairs_between (world self) gl gr) (eval_time self sc gl gr) self self'
  /\ (b = false -> static self' = static (snd (scheduling_steps self))).
Proof.
  intros Hsc Hgl Hgr H.
  apply check_pass_inv in H. destruct H as (mid & Hsteps & Heval).
  assert (Hst := scheduling_steps_static self). rewrite Hsteps in Hst. simpl in Hst.
  rewrite Hsteps. simpl.
  assert (Hcfg : config mid = config self) by (unfold static in Hst; congruence).
  assert (Hwo : world_objects (world mid) = world_objects (world self))
    by (unfold static in Hst; congruence).
  assert (Hnow : now mid = now self) by (unfold static in Hst; congruence).
  assert (Hsc' : sat_central mid = Some sc) by (unfold config in Hcfg; congruence).
  assert (Hgl' : station_ground_left mid = Some gl) by (unfold config in Hcfg; congruence).
  assert (Hgr' : station_ground_right mid = Some gr) by (unfold config in Hcfg; congruence).
  apply evaluation_inv in Heval.
  destruct Heval as (gl' & gr' & Hgl'' & Hgr'' & Hcases).
  assert (gl' = gl) by congruence. assert (gr' = gr) by congruence. subst gl' gr'.
  rewrite (pairs_between_static mid self gl gr Hwo) in Hcases.
  destruct Hcases as [(Hnil & -> & ->)|(Hne & -> & Hloop)].
  - split; [tauto|]. split; [|reflexivity].
    rewrite Hnil. apply evaluated_nil. exact Hst.
  - split; [split; [discriminate|contradiction]|]. split; [|discriminate].
    apply evaluated_static with (b := mid); [exact Hst|].
    destruct (@evaluate_loop_inv _ sc gl gr _ mid self' Hsc' Hgl' Hgr' Hloop)
      as (Hs & Hp & Hq & Ht & Hsl & Hm & Ha).
    assert (Het : eval_time mid sc gl gr = eval_time self sc gl gr).
    { unfold eval_time. rewrite Hnow. reflexivity. }
    rewrite Het in Ht.
    unfold evaluated. repeat split; try assumption.
    + unfold scheduling in Hs. congruence.
    + unfold now. unfold scheduling in Hs. congruence.
Qed.

(** A call that returns normally: the pairs that were between the ground
    stations when it was entered have been evaluated and destroyed, and no
    other pair has. *)
Lemma check_Ok_inv fuel self self' sc gl gr :
  sat_central self = Some sc ->
  station_ground_left self = Some gl ->
  station_ground_right self = Some gr ->
  check fuel self = Some (Ok tt, self') ->
  evaluated (pairs_between (world self) gl gr) (eval_time self sc gl gr) self self'.
Proof.
  intros Hsc Hgl Hgr H.
  destruct fuel as [|fuel]; [discriminate|]. simpl in H.
  destruct (check_pass self) as [[[|]|e] s1] eqn:H1; [| |discriminate].
  - destruct (check_pass_Ok_inv _ Hsc Hgl Hgr H1) as (_ & He & _).
    assert (H2 := check_pass_twice _ H1).
    destruct fuel as [|fuel]; [discriminate|]. simpl in H.
    destruct (check_pass s1) as [[[|]|e] s2] eqn:H3; [exfalso; auto| |discriminate].
    inversion H; subst s2. clear H.
    assert (Hcfg : config s1 = config self) by apply He.
    assert (Hsc1 : sat_central s1 = Some sc) by (unfold config in Hcfg; congruence).
    assert (Hgl1 : station_ground_left s1 = Some gl) by (unfold config in Hcfg; congruence).
    assert (Hgr1 : station_ground_right s1 = Some gr) by (unfold config in Hcfg; congruence).
    destruct (check_pass_Ok_inv _ Hsc1 Hgl1 Hgr1 H3) as (_ & _ & Hstat).
    apply evaluated_then_static with (b := s1); [exact He|].
    rewrite Hstat by reflexivity. apply scheduling_steps_static.
  - inversion H; subst s1. apply (check_pass_Ok_inv _ Hsc Hgl Hgr H1).
Qed.

(** The larger of two distances over [C] is the larger of the two delays,
    when [<] is a strict total order and dividing by [C] keeps the order. *)
Lemma larger_delay (a b : Station) (c d : Station) :
  (forall x, num_ltb x x = false) ->
  (forall x y, num_ltb x y = false -> num_ltb y x = false -> x = y) ->
  (forall x y, num_ltb x y = true -> num_ltb (num_div y C) (num_div x C) = false) ->
  (num_div (np_max2 (distance a b) (distance c d)) C = delay a b
   \/ num_div (np_max2 (distance a b) (distance c d)) C = delay c d)
  /\ num_ltb (num_div (np_max2 (distance a b) (distance c d)) C) (delay a b) = false
  /\ num_ltb (num_div (np_max2 (distance a b) (distance c d)) C) (delay c d) = false.
Proof.
  intros Hirr Hanti Hmono. unfold np_max2, delay.
  destruct (num_ltb (distance a b) (distance c d)) eqn:H1.
  - split; [right; reflexivity|]. split; [apply Hmono; exact H1|apply Hirr].
  - split; [left; reflexivity|]. split; [apply Hirr|].
    destruct (num_ltb (distance c d) (distance a b)) eqn:H3.
    + apply Hmono. exact H3.
    + rewrite (Hanti _ _ H1 H3). apply Hirr.
Qed.

(** C6: when [check] returns, for every pair that was between the two
    ground stations it has appended to [time_list] the current time plus a
    communication time, and the pair's state and two resource costs to the
    three other logs, in the order of the pairs; and the pair and its two
    qubits are no longer in the registry.  The communication time is the
    larger of the two distances from the central satellite to the ground
    stations over the speed of light; on an ordered [num] on which dividing
    by [C] is monotone it is the larger of the two light-propagation delays:
    it is one of the two, and neither of them exceeds it. *)
Theorem long_range_pairs_evaluated (fuel : nat) (self self' : FourlinkProtocol)
    (sc gl gr : Station) :
  sat_central self = Some sc ->
  station_ground_left self = Some gl ->
  station_ground_right self = Some gr ->
  check fuel self = Some (Ok tt, self') ->
  let long_range_pairs := pairs_between (world self) gl gr in
  let comm_time := num_div (np_max2 (distance sc gl) (distance sc gr)) C in
  time_list self'
  = time_list self ++ map (fun _ => num_add (now self) comm_time) long_range_pairs
  /\ state_list self' = state_list self ++ map state long_range_pairs
  /\ resource_cost_max_list self'
     = resource_cost_max_list self ++ map resource_cost_max long_range_pairs
  /\ resource_cost_add_list self'
     = resource_cost_add_list self ++ map resource_cost_add long_range_pairs
  /\ (forall p, In p long_range_pairs ->
        ~ In p (pairs_of (world self'))
        /\ ~ In (fst (qubits p)) (qubits_of (world self'))
        /\ ~ In (snd (qubits p)) (qubits_of (world self')))
  /\ ((forall x, num_ltb x x = false) ->
      (forall x y, num_ltb x y = false -> num_ltb y x = false -> x = y) ->
      (forall x y, num_ltb x y = true -> num_ltb (num_div y C) (num_div x C) = false) ->
      (comm_time = delay sc gl \/ comm_time = delay sc gr)
      /\ num_ltb comm_time (delay sc gl) = false
      /\ num_ltb comm_time (delay sc gr) = false).
Proof.
  intros Hsc Hgl Hgr H. simpl.
  destruct (check_Ok_inv _ _ Hsc Hgl Hgr H) as (_ & _ & Hp & Hq & Ht & Hs & Hm & Ha).
  split; [exact Ht|]. split; [exact Hs|]. split; [exact Hm|]. split; [exact Ha|].
  split.
  - intros p Hin. repeat split.
    + rewrite Hp. intros Hin'. apply in_remove_pairs in Hin'. tauto.
    + rewrite Hq. intros Hin'. apply in_remove_qubits in Hin'.
      destruct Hin' as [_ Hin']. apply Hin'. unfold qubits_of_pairs.
      apply in_flat_map. exists p. simpl. auto.
    + rewrite Hq. intros Hin'. apply in_remove_qubits in Hin'.
      destruct Hin' as [_ Hin']. apply Hin'. unfold qubits_of_pairs.
      apply in_flat_map. exists p. simpl. auto.
  - apply larger_delay.
Qed.
End Evaluated.

(** ** The event queue *)

Section Queue.
Context {P : Platform}.

Lemma in_insert_event e q x : In x (insert_event e q) <-> x = e \/ In x q.
Proof.
  induction q as [|y q IH]; simpl.
  - intuition.
  - destruct (num_ltb (time e) (time y)); simpl; [intuition|].
    rewrite IH. intuition.
Qed.

Lemma existsb_insert_event f e q :
  existsb f (insert_event e q) = f e || existsb f q.
Proof.
  induction q as [|y q IH]; simpl.
  - reflexivity.
  - destruct (num_ltb (time e) (time y)); simpl; [reflexivity|].
    rewrite IH. destruct (f e), (f y); reflexivity.
Qed.

Lemma filter_insert_event_false f e q :
  f e = false -> filter f (insert_event e q) = filter f q.
Proof.
  intros He. induction q as [|y q IH]; simpl.
  - rewrite He. reflexivity.
  - destruct (num_ltb (time e) (time y)); simpl.
    + rewrite He. reflexivity.
    + rewrite IH. reflexivity.
Qed.

Lemma filter_insert_event_true f e q :
  f e = true ->
  exists before after,
    filter f q = before ++ after
    /\ filter f (insert_event e q) = before ++ e :: after.
Proof.
  intros He. induction q as [|y q IH]; simpl.
  - rewrite He. exists [], []. auto.
  - destruct (num_ltb (time e) (time y)); simpl.
    + rewrite He. exists [], (if f y then y :: filter f q else filter f q). auto.
    + destruct IH as (b & a & H1 & H2). destruct (f y).
      * exists (y :: b), a. simpl. rewrite H1, H2. auto.
      * exists b, a. auto.
Qed.

Lemma count_insert_event f e q :
  length (filter f (insert_event e q))
  = (if f e then 1 else 0) + length (filter f q).
Proof.
  destruct (f e) eqn:He.
  - destruct (filter_insert_event_true f e q He) as (b & a & H1 & H2).
    rewrite H1, H2, !length_app. simpl. lia.
  - rewrite filter_insert_event_false by assumption. reflexivity.
Qed.

(** What [add_event] does to a protocol object. *)
Lemma add_event_inv e self r self' :
  on_world (add_event e) self = (r, self') ->
  static self' = static self
  /\ rng_draws (world self') = rng_draws (world self)
  /\ ((r = Ok tt /\ num_ltb (time e) (now self) = false
       /\ pending self' = insert_event e (pending self))
      \/ (r = Raise InvalidScheduleError /\ num_ltb (time e) (now self) = true
          /\ pending self' = pending self)).
Proof.
  unfold on_world, add_event, now, pending.
  destruct (num_ltb (time e) (current_time (event_queue (world self)))) eqn:Hlt;
    intros H; inversion H; subst; simpl; auto 10.
Qed.

(** What [schedule_event] does to a protocol object. *)
Lemma schedule_event_inv src self r self' :
  on_world (schedule_event src) self = (r, self') ->
  static self' = static self
  /\ rng_draws (world self') = S (rng_draws (world self))
  /\ exists attempts,
      let t := num_add (now self) (fst (time_distribution src (rng_draws (world self)))) in
      let e := SourceEvent t src (state_generation src) attempts in
      (r = Ok tt /\ num_ltb t (now self) = false
       /\ pending self' = insert_event e (pending self))
      \/ (r = Raise InvalidScheduleError /\ num_ltb t (now self) = true
          /\ pending self' = pending self).
Proof.
  unfold on_world, schedule_event, add_event, now, pending.
  destruct (time_distribution src (rng_draws (world self))) as [elapsed attempts].
  simpl.
  destruct (num_ltb (num_add (current_time (event_queue (world self))) elapsed)
              (current_time (event_queue (world self)))) eqn:Hlt;
    intros H; inversion H; subst; simpl; (split; [reflexivity|]);
    (split; [reflexivity|]); exists attempts; auto 10.
Qed.

(** Events are only added before the evaluation. *)
Lemma pending_incl_add_event q e :
  preserves (fun s => incl q (pending s)) (fun _ => True) (on_world (add_event e)).
Proof.
  intros s Hs. split; [|intros; exact Logic.I].
  destruct (on_world (add_event e) s) as [r s'] eqn:H. simpl.
  apply add_event_inv in H. destruct H as (_ & _ & [(_ & _ & Hq)|(_ & _ & Hq)]);
    rewrite Hq; [|assumption].
  intros x Hx. apply in_insert_event. right. apply Hs. exact Hx.
Qed.

Lemma pending_incl_schedule_event q src :
  preserves (fun s => incl q (pending s)) (fun _ => True) (on_world (schedule_event src)).
Proof.
  intros s Hs. split; [|intros; exact Logic.I].
  destruct (on_world (schedule_event src) s) as [r s'] eqn:H. simpl.
  apply schedule_event_inv in H.
  destruct H as (_ & _ & a & [(_ & _ & Hq)|(_ & _ & Hq)]); rewrite Hq; [|assumption].
  intros x Hx. apply in_insert_event. right. apply Hs. exact Hx.
Qed.

(** A filter that rejects every [SourceEvent] sees nothing of
    [schedule_event]. *)
Lemma filter_schedule_event f L src :
  (forall t s st a, f (SourceEvent t s st a) = false) ->
  preserves (fun s => filter f (pending s) = L) (fun _ => True)
    (on_world (schedule_event src)).
Proof.
  intros Hf s Hs. split; [|intros; exact Logic.I].
  destruct (on_world (schedule_event src) s) as [r s'] eqn:H. simpl.
  apply schedule_event_inv in H.
  destruct H as (_ & _ & a & [(_ & _ & Hq)|(_ & _ & Hq)]); rewrite Hq; [|assumption].
  rewrite filter_insert_event_false; [assumption|apply Hf].
Qed.

End Queue.

(** ** The swapping steps *)

Section Swapping.
Context {P : Platform}.

Lemma swap_candidates_static a b :
  static a = static b -> swap_candidates a = swap_candidates b.
Proof.
  unfold static. intros H.
  assert (Hc : config a = config b) by congruence.
  assert (Hw : world_objects (world a) = world_objects (world b)) by congruence.
  unfold swap_candidates, link_pairs, central_candidates, pairs_between, pairs_of.
  unfold config in Hc. rewrite Hw.
  assert (H1 : link_stations a = link_stations b) by congruence.
  assert (H2 : station_ground_left a = station_ground_left b) by congruence.
  assert (H3 : sat_central a = sat_central b) by congruence.
  assert (H4 : station_ground_right a = station_ground_right b) by congruence.
  rewrite H1, H2, H3, H4. reflexivity.
Qed.

Lemma is_swap_of_new (l r : Pair) t :
  is_swap_of l r (EntanglementSwappingEvent t [l; r]) = true.
Proof.
  unfold is_swap_of, pair_in, pair_eqb. simpl.
  destruct (Pair_eq_dec l l); [|congruence].
  destruct (Pair_eq_dec r r); [|congruence].
  destruct (Pair_eq_dec r l); reflexivity.
Qed.

Lemma scheduled_swap_incl q q' lr :
  incl q q' -> scheduled_swap q lr = true -> scheduled_swap q' lr = true.
Proof.
  unfold scheduled_swap. intros Hi H. apply existsb_exists in H.
  destruct H as (x & Hx & Hf). apply existsb_exists. exists x. auto.
Qed.

(** One turn of a swapping loop. *)
Lemma schedule_swap_inv lr self r self' :
  schedule_swap lr self = (r, self') ->
  (scheduled_swap (pending self) lr = true /\ r = Ok tt /\ self' = self)
  \/ (scheduled_swap (pending self) lr = false
      /\ on_world (add_event (EntanglementSwappingEvent (now self) [fst lr; snd lr])) self
         = (r, self')).
Proof.
  destruct lr as [l rp]. unfold schedule_swap, bind, gets, scheduled_swap. simpl.
  destruct (existsb (is_swap_of l rp) (queue (event_queue (world self)))) eqn:Hs; simpl.
  - intros H. inversion H; subst. left. auto.
  - intros H. right. split; [exact Hs|]. exact H.
Qed.

Lemma swaps_loop_incl cands self :
  incl (pending self) (pending (snd (forM_ schedule_swap cands self))).
Proof.
  apply (@preserves_forM _ _ (fun s => incl (pending self) (pending s)) (fun _ => True)).
  - intros lr. apply preserves_schedule_swap. intros e. apply pending_incl_add_event.
  - apply incl_refl.
Qed.

(** A swapping loop that completes leaves every one of its combinations
    with a pending swap. *)
Lemma swaps_loop_scheduled cands : forall self self',
  forM_ schedule_swap cands self = (Ok tt, self') ->
  Forall (fun lr => scheduled_swap (pending self') lr = true) cands.
Proof.
  induction cands as [|lr cands IH]; intros self self' H; [constructor|].
  simpl in H. apply bind_inv_Ok in H. destruct H as ([] & s1 & H1 & H2).
  constructor; [|apply (IH _ _ H2)].
  assert (Hincl := swaps_loop_incl cands s1). rewrite H2 in Hincl. simpl in Hincl.
  apply scheduled_swap_incl with (q := pending s1); [assumption|].
  apply schedule_swap_inv in H1. destruct H1 as [(Hs & _ & ->)|(_ & Hadd)]; [assumption|].
  apply add_event_inv in Hadd.
  destruct Hadd as (_ & _ & [(_ & _ & Hq)|(Hr & _)]); [|discriminate].
  unfold scheduled_swap. rewrite Hq, existsb_insert_event.
  destruct lr as [l r]. simpl fst. simpl snd. rewrite is_swap_of_new. reflexivity.
Qed.

(** A swapping loop whose combinations all have a pending swap does
    nothing. *)
Lemma swaps_loop_idle cands self :
  Forall (fun lr => scheduled_swap (pending self) lr = true) cands ->
  forM_ schedule_swap cands self = (Ok tt, self).
Proof.
  induction 1 as [|lr cands Hlr _ IH]; [reflexivity|].
  simpl. unfold bind.
  assert (H1 : schedule_swap lr self = (Ok tt, self)).
  { destruct lr as [l r]. unfold schedule_swap, bind, gets.
    unfold scheduled_swap in Hlr. simpl in Hlr. unfold pending in Hlr.
    rewrite Hlr. reflexivity. }
  rewrite H1. exact IH.
Qed.

(** Lines 139-154 and 156-171 are a loop over [zip_at], unless an index is
    out of range. *)
Lemma swapping_eq lists i j self :
  swapping (map (@length Pair) lists) lists i j self
  = forM_ schedule_swap (zip_at lists i j) self
  \/ swapping (map (@length Pair) lists) lists i j self = (Raise IndexError, self).
Proof.
  unfold swapping, getitem, zip_at, bind. rewrite !nth_error_map.
  destruct (nth_error lists i) as [li|]; simpl; [|right; reflexivity].
  destruct li as [|p li]; simpl.
  - left. destruct (nth_error lists j); reflexivity.
  - destruct (nth_error lists j) as [lj|]; simpl; [|right; reflexivity].
    destruct lj as [|p' lj]; simpl; left; reflexivity.
Qed.

(** Lines 172-192 are a loop over [central_candidates], unless a label is
    missing. *)
Lemma swapping_central_eq self :
  swapping_central self = forM_ schedule_swap (central_candidates self) self
  \/ swapping_central self = (Raise AttributeError, self).
Proof.
  unfold swapping_central, central_candidates.
  destruct (station_ground_left self) as [gl|] eqn:Hgl;
    destruct (sat_central self) as [sc|] eqn:Hsc;
    destruct (station_ground_right self) as [gr|] eqn:Hgr;
    unfold bind, getattr;
    repeat (progress (simpl; rewrite ?Hsc, ?Hgl, ?Hgr, ?get_pairs_between_eq));
    auto.
  left.
  destruct (pairs_between (world self) gl sc) as [|p l]; simpl; [reflexivity|].
  destruct (pairs_between (world self) sc gr) as [|p' l']; simpl; reflexivity.
Qed.

(** With both indices in range, lines 139-154 and 156-171 are a loop over
    [zip_at]. *)
Lemma swapping_in_range lists i j self :
  i < length lists -> j < length lists ->
  swapping (map (@length Pair) lists) lists i j self
  = forM_ schedule_swap (zip_at lists i j) self.
Proof.
  intros Hi Hj.
  destruct (nth_error lists i) as [li|] eqn:Ei;
    [|apply nth_error_None in Ei; lia].
  destruct (nth_error lists j) as [lj|] eqn:Ej;
    [|apply nth_error_None in Ej; lia].
  unfold swapping, getitem, zip_at, bind. rewrite !nth_error_map, Ei, Ej. simpl.
  destruct li as [|p li]; simpl; [reflexivity|].
  destruct lj as [|p' lj]; simpl; reflexivity.
Qed.
End Swapping.

(** ** The steps before the evaluation, as four loops *)

Section Steps.
Context {P : Platform}.

Lemma links_used_eq self links :
  map (fun nn => fst nn + snd nn)
    (combine
       (map (@length Pair)
          (map (fun st => pairs_between (world self) (fst st) (snd st)) links))
       (map (@length Event)
          (map (fun st => scheduled_for (world self) (fst st) (snd st)) links)))
  = map (link_used self) links.
Proof.
  induction links as [|st links IH]; simpl; [reflexivity|].
  rewrite IH. reflexivity.
Qed.

(** Lines 130-137 are the loop of lines 134-137 over the values of
    [link_used] computed on entry. *)
Lemma replenishment_eq self links :
  link_stations self = Some links ->
  replenishment self
  = (forM_ replenish (combine (map (link_used self) links) (sources self)) ;;;
     ret (map (@length Pair) (link_pairs self), link_pairs self)) self.
Proof.
  intros Hl. unfold replenishment.
  rewrite (bind_Ok _ _ _ (getattr_Some _ _ Hl)).
  rewrite (bind_Ok _ _ _ (mapM_between_eq _ _)).
  rewrite (bind_Ok _ _ _ (getattr_Some _ _ Hl)).
  rewrite (bind_Ok _ _ _ (mapM_scheduled_eq _ _)).
  unfold gets at 1. unfold bind at 1. rewrite links_used_eq.
  unfold link_pairs. rewrite Hl. reflexivity.
Qed.

Lemma scheduling_steps_eq self links :
  link_stations self = Some links ->
  scheduling_steps self
  = (forM_ replenish (combine (map (link_used self) links) (sources self)) ;;;
     swapping (map (@length Pair) (link_pairs self)) (link_pairs self) 0 1 ;;;
     swapping (map (@length Pair) (link_pairs self)) (link_pairs self) 2 3 ;;;
     swapping_central) self.
Proof.
  intros Hl. unfold scheduling_steps. unfold bind at 1.
  rewrite (replenishment_eq _ Hl). unfold bind.
  destruct (forM_ replenish _ self) as [[[]|e] s1]; reflexivity.
Qed.

Lemma scheduling_steps_unset self :
  link_stations self = None ->
  scheduling_steps self = (Raise AttributeError, self).
Proof.
  intros Hl. unfold scheduling_steps, replenishment, bind, getattr.
  rewrite Hl. reflexivity.
Qed.

(** The loop of lines 134-137 schedules no swap. *)
Lemma replenish_loop_filter f l self :
  (forall t s st a, f (SourceEvent t s st a) = false) ->
  filter f (pending (snd (forM_ replenish l self))) = filter f (pending self).
Proof.
  intros Hf.
  apply (@preserves_forM _ _ (fun s => filter f (pending s) = filter f (pending self))
           (fun _ => True)); [|reflexivity].
  intros lu. apply preserves_replenish; [exact Logic.I|exact Logic.I|].
  intros src. apply filter_schedule_event. exact Hf.
Qed.

Lemma replenish_loop_static l self :
  static (snd (forM_ replenish l self)) = static self.
Proof.
  apply (@preserves_forM _ _ (fun s => static s = static self) (fun _ => True));
    [|reflexivity].
  intros lu. apply preserves_replenish; [exact Logic.I|exact Logic.I|].
  intros src. apply static_schedule_event.
Qed.

Lemma replenish_loop_incl l self :
  incl (pending self) (pending (snd (forM_ replenish l self))).
Proof.
  apply (@preserves_forM _ _ (fun s => incl (pending self) (pending s)) (fun _ => True));
    [|apply incl_refl].
  intros lu. apply preserves_replenish; [exact Logic.I|exact Logic.I|].
  intros src. apply pending_incl_schedule_event.
Qed.

Lemma central_candidates_static a b :
  static a = static b -> central_candidates a = central_candidates b.
Proof.
  unfold static. intros H.
  assert (Hc : config a = config b) by congruence.
  assert (Hw : world_objects (world a) = world_objects (world b)) by congruence.
  unfold central_candidates, pairs_between, pairs_of. unfold config in Hc. rewrite Hw.
  assert (H2 : station_ground_left a = station_ground_left b) by congruence.
  assert (H3 : sat_central a = sat_central b) by congruence.
  assert (H4 : station_ground_right a = station_ground_right b) by congruence.
  rewrite H2, H3, H4. reflexivity.
Qed.

Lemma swaps_loop_static cands self :
  static (snd (forM_ schedule_swap cands self)) = static self.
Proof.
  apply (@preserves_forM _ _ (fun s => static s = static self) (fun _ => True));
    [|reflexivity].
  intros lr. apply preserves_schedule_swap. intros e. apply static_add_event.
Qed.

(** When the steps before the evaluation complete, every combination the
    three swapping loops went through has a pending swap. *)
Lemma scheduling_steps_scheduled self self' :
  scheduling_steps self = (Ok tt, self') ->
  Forall (fun lr => scheduled_swap (pending self') lr = true) (swap_candidates self).
Proof.
  intros H.
  destruct (link_stations self) as [links|] eqn:Hl;
    [|rewrite scheduling_steps_unset in H by assumption; discriminate].
  rewrite (scheduling_steps_eq _ Hl) in H.
  apply bind_inv_Ok in H. destruct H as ([] & sa & Ha & H).
  apply bind_inv_Ok in H. destruct H as ([] & sb & Hb & H).
  apply bind_inv_Ok in H. destruct H as ([] & sc & Hc & Hd).
  assert (Sa := replenish_loop_static (combine (map (link_used self) links) (sources self))
                  self). rewrite Ha in Sa. simpl in Sa.
  destruct (swapping_eq (link_pairs self) 0 1 sa) as [E1|E1];
    rewrite E1 in Hb; [|discriminate].
  destruct (swapping_eq (link_pairs self) 2 3 sb) as [E2|E2];
    rewrite E2 in Hc; [|discriminate].
  destruct (swapping_central_eq sc) as [E3|E3]; rewrite E3 in Hd; [|discriminate].
  assert (Sb := swaps_loop_static (zip_at (link_pairs self) 0 1) sa).
  rewrite Hb in Sb. simpl in Sb.
  assert (Sc := swaps_loop_static (zip_at (link_pairs self) 2 3) sb).
  rewrite Hc in Sc. simpl in Sc.
  assert (Ic := swaps_loop_incl (zip_at (link_pairs self) 2 3) sb).
  rewrite Hc in Ic. simpl in Ic.
  assert (Id := swaps_loop_incl (central_candidates sc) sc).
  rewrite Hd in Id. simpl in Id.
  assert (Hcc : central_candidates sc = central_candidates self).
  { apply central_candidates_static. congruence. }
  unfold swap_candidates. apply Forall_app. split; [|apply Forall_app; split].
  - apply swaps_loop_scheduled in Hb. revert Hb. apply Forall_impl. intros lr Hlr.
    apply scheduled_swap_incl with (q := pending sc); [assumption|].
    apply scheduled_swap_incl with (q := pending sb); assumption.
  - apply swaps_loop_scheduled in Hc. revert Hc. apply Forall_impl. intros lr Hlr.
    apply scheduled_swap_incl with (q := pending sc); assumption.
  - rewrite <- Hcc. apply swaps_loop_scheduled in Hd. exact Hd.
Qed.

(** When every combination has a pending swap already, the steps before the
    evaluation schedule no swap, whatever their outcome. *)
Lemma scheduling_steps_idle self :
  Forall (fun lr => scheduled_swap (pending self) lr = true) (swap_candidates self) ->
  pending_swaps (snd (scheduling_steps self)) = pending_swaps self.
Proof.
  intros HF.
  destruct (link_stations self) as [links|] eqn:Hl;
    [|rewrite scheduling_steps_unset by assumption; reflexivity].
  rewrite (scheduling_steps_eq _ Hl).
  set (l := combine (map (link_used self) links) (sources self)).
  assert (Sa := replenish_loop_static l self).
  assert (Ia := replenish_loop_incl l self).
  assert (Fa := replenish_loop_filter is_swap_event l self (fun _ _ _ _ => eq_refl)).
  unfold bind at 1.
  destruct (forM_ replenish l self) as [[[]|e] sa]; simpl in *; [|exact Fa].
  fold (pending_swaps sa) in Fa. fold (pending_swaps self) in Fa. rewrite <- Fa.
  unfold swap_candidates in HF. apply Forall_app in HF. destruct HF as [H1 HF].
  apply Forall_app in HF. destruct HF as [H2 H3].
  assert (H1' : Forall (fun lr => scheduled_swap (pending sa) lr = true)
                  (zip_at (link_pairs self) 0 1)).
  { revert H1. apply Forall_impl. intros lr. apply scheduled_swap_incl. assumption. }
  assert (H2' : Forall (fun lr => scheduled_swap (pending sa) lr = true)
                  (zip_at (link_pairs self) 2 3)).
  { revert H2. apply Forall_impl. intros lr. apply scheduled_swap_incl. assumption. }
  assert (H3' : Forall (fun lr => scheduled_swap (pending sa) lr = true)
                  (central_candidates sa)).
  { rewrite (central_candidates_static Sa).
    revert H3. apply Forall_impl. intros lr. apply scheduled_swap_incl. assumption. }
  unfold bind.
  destruct (swapping_eq (link_pairs self) 0 1 sa) as [E1|E1]; rewrite E1;
    [rewrite (swaps_loop_idle sa H1')|reflexivity].
  destruct (swapping_eq (link_pairs self) 2 3 sa) as [E2|E2]; rewrite E2;
    [rewrite (swaps_loop_idle sa H2')|reflexivity].
  destruct (swapping_central_eq sa) as [E3|E3]; rewrite E3;
    [rewrite (swaps_loop_idle sa H3')|]; reflexivity.
Qed.
End Steps.

(** ** Calling [check] twice *)

Section Idempotence.
Context {P : Platform}.

Lemma check_pass_queue self :
  event_queue (world (snd (check_pass self)))
  = event_queue (world (snd (scheduling_steps self))).
Proof.
  unfold check_pass, bind.
  destruct (scheduling_steps self) as [[[]|e] mid]; simpl; [|reflexivity].
  assert (H := evaluation_scheduling mid). unfold scheduling in H. congruence.
Qed.

(** A call that returns normally ends with a pass that evaluates nothing. *)
Lemma check_Ok_last_pass fuel : forall self self',
  check fuel self = Some (Ok tt, self') ->
  exists last, check_pass last = (Ok false, self').
Proof.
  induction fuel as [|fuel IH]; intros self self' H; simpl in H; [discriminate|].
  destruct (check_pass self) as [[[|]|e] s1] eqn:H1.
  - apply (IH _ _ H).
  - inversion H; subst. exists self. exact H1.
  - discriminate.
Qed.

(** After a call that returns normally every combination of the swapping
    loops has a pending swap, and no pair is between the ground stations. *)
Lemma check_Ok_settled fuel self self' :
  check fuel self = Some (Ok tt, self') ->
  Forall (fun lr => scheduled_swap (pending self') lr = true) (swap_candidates self')
  /\ exists gl gr,
       station_ground_left self' = Some gl
       /\ station_ground_right self' = Some gr
       /\ pairs_between (world self') gl gr = [].
Proof.
  intros H. apply check_Ok_last_pass in H. destruct H as [last H].
  apply check_pass_inv in H. destruct H as (mid & Hsteps & Heval).
  apply evaluation_inv in Heval.
  destruct Heval as (gl & gr & Hgl & Hgr & [(Hnil & _ & ->)|(_ & Hb & _)]);
    [|discriminate].
  split; [|exists gl, gr; auto].
  assert (Hst := scheduling_steps_static last). rewrite Hsteps in Hst. simpl in Hst.
  rewrite (swap_candidates_static Hst).
  apply scheduling_steps_scheduled. exact Hsteps.
Qed.

(** C2: when a call of [check] has returned and [check] is called again on
    the state it left, the second call schedules no swap: the pending
    [EntanglementSwappingEvent]s after it are those before it, whatever the
    outcome of the second call. *)
Theorem second_check_schedules_no_swap (fuel1 fuel2 : nat)
    (self self1 self2 : FourlinkProtocol) (r : Result unit) :
  check fuel1 self = Some (Ok tt, self1) ->
  check fuel2 self1 = Some (r, self2) ->
  pending_swaps self2 = pending_swaps self1
  /\ length (pending_swaps self2) = length (pending_swaps self1).
Proof.
  intros H1 H2.
  assert (Heq : pending_swaps self2 = pending_swaps self1);
    [|split; [exact Heq|rewrite Heq; reflexivity]].
  apply check_Ok_settled in H1. destruct H1 as (HF & gl & gr & Hgl & Hgr & Hnil).
  destruct fuel2 as [|fuel2]; [discriminate|]. simpl in H2.
  assert (Hno := check_pass_without_long_range _ Hgl Hgr Hnil).
  assert (Hq := check_pass_queue self1).
  destruct (check_pass self1) as [[[|]|e] s2] eqn:Hp; simpl in *.
  - exfalso. apply Hno. reflexivity.
  - inversion H2; subst. unfold pending_swaps, pending. rewrite Hq.
    apply (scheduling_steps_idle _ HF).
  - inversion H2; subst. unfold pending_swaps, pending. rewrite Hq.
    apply (scheduling_steps_idle _ HF).
Qed.
End Idempotence.

(** ** Counting what the replenishment schedules *)

Section Replenishment.
Context {P : Platform}.

Lemma forM_cons {A} (h : A -> M unit) (x : A) (l : list A) :
  forM_ h (x :: l) = (h x ;;; forM_ h l).
Proof. reflexivity. Qed.

Lemma replenish_static lu_source self :
  static (snd (replenish lu_source self)) = static self.
Proof.
  apply (@preserves_replenish _ (fun s => static s = static self) (fun _ => True));
    [exact Logic.I|exact Logic.I| |reflexivity].
  intros src. apply static_schedule_event.
Qed.

Section Counting.
Variable f : Event -> bool.
Variable g : Source -> bool.
Hypothesis f_source : forall t src st a, f (SourceEvent t src st a) = g src.

Lemma schedule_event_count src self self' :
  on_world (schedule_event src) self = (Ok tt, self') ->
  count f self' = (if g src then 1 else 0) + count f self.
Proof.
  intros H. apply schedule_event_inv in H.
  destruct H as (_ & _ & a & [(_ & _ & Hq)|(Hr & _)]); [|discriminate].
  unfold count. rewrite Hq, count_insert_event, f_source. reflexivity.
Qed.

Lemma repeat_schedule_count src n : forall self self',
  repeatM n (call_schedule_event src) self = (Ok tt, self') ->
  count f self' = (if g src then n else 0) + count f self.
Proof.
  induction n as [|n IH]; intros self self' H; simpl in H.
  - inversion H; subst. destruct (g src); reflexivity.
  - apply bind_inv_Ok in H. destruct H as ([] & s1 & H1 & H2).
    apply IH in H2. unfold call_schedule_event in H1.
    destruct (schedule_event_attr src); try discriminate.
    apply schedule_event_count in H1. rewrite H2, H1. destruct (g src); lia.
Qed.

Lemma replenish_count lu src self self' :
  replenish (lu, src) self = (Ok tt, self') ->
  count f self' = (if g src then topup (num_memories self) lu else 0) + count f self.
Proof.
  unfold replenish, bind, gets, topup.
  destruct (Z.of_nat lu <? num_memories self)%Z eqn:Hlt.
  - apply repeat_schedule_count.
  - intros H. inversion H; subst. apply Z.ltb_ge in Hlt.
    replace (Z.to_nat (num_memories self' - Z.of_nat lu)) with 0 by lia.
    destruct (g src); reflexivity.
Qed.

Lemma replenish_loop_count l : forall self self',
  forM_ replenish l self = (Ok tt, self') ->
  count f self' = scheduled_on g (num_memories self) l + count f self.
Proof.
  induction l as [|[lu src] l IH]; intros self self' H.
  - inversion H; subst. reflexivity.
  - rewrite forM_cons in H.
    apply bind_inv_Ok in H. destruct H as ([] & s1 & H1 & H2).
    assert (Hst := replenish_static (lu, src) self). rewrite H1 in Hst. simpl in Hst.
    assert (Hn : num_memories s1 = num_memories self).
    { unfold static, config in Hst. congruence. }
    apply IH in H2. apply replenish_count in H1. rewrite H2, H1, Hn. simpl. lia.
Qed.
End Counting.

Lemma admissible_now a b src : now a = now b -> admissible a src -> admissible b src.
Proof.
  unfold admissible. intros Hn [H1 H2]. rewrite <- Hn. auto.
Qed.

Lemma repeat_schedule_progress src n : forall self,
  admissible self src ->
  exists self', repeatM n (call_schedule_event src) self = (Ok tt, self').
Proof.
  induction n as [|n IH]; intros self Ha; simpl.
  - eexists. reflexivity.
  - destruct (call_schedule_event src self) as [r s1] eqn:H1.
    assert (H1' := H1).
    destruct Ha as [Hs Hd]. rewrite (call_schedule_event_callable _ Hs) in H1'.
    apply schedule_event_inv in H1'.
    destruct H1' as (Hst & _ & a & [(-> & _ & _)|(_ & Hlt & _)]).
    + destruct (IH s1) as [s' Hs'].
      { apply admissible_now with (a := self);
          [unfold static in Hst; congruence|split; assumption]. }
      exists s'. unfold bind. rewrite H1. exact Hs'.
    + rewrite Hd in Hlt. discriminate.
Qed.

Lemma replenish_loop_progress l : forall self,
  (forall lu src, In (lu, src) l -> admissible self src) ->
  exists self', forM_ replenish l self = (Ok tt, self').
Proof.
  induction l as [|[lu src] l IH]; intros self Ha.
  - eexists. reflexivity.
  - assert (H1 : exists s1, replenish (lu, src) self = (Ok tt, s1)).
    { unfold replenish, bind, gets.
      destruct (Z.of_nat lu <? num_memories self)%Z.
      - apply repeat_schedule_progress. apply (Ha lu src). left. reflexivity.
      - eexists. reflexivity. }
    destruct H1 as [s1 H1].
    assert (Hst := replenish_static (lu, src) self). rewrite H1 in Hst. simpl in Hst.
    destruct (IH s1) as [s' Hs'].
    { intros lu' src' Hin. apply admissible_now with (a := self);
        [unfold static in Hst; congruence|].
      apply (Ha lu' src'). right. exact Hin. }
    exists s'. rewrite forM_cons. rewrite (bind_Ok _ _ _ H1). exact Hs'.
Qed.
End Replenishment.

(** ** The capacity of a link *)

Section Capacity.
Context {P : Platform}.

(** A filter that rejects every swap sees nothing of a swapping loop. *)
Lemma swaps_loop_filter f cands :
  (forall t ps, f (EntanglementSwappingEvent t ps) = false) ->
  forall self,
    filter f (pending (snd (forM_ schedule_swap cands self))) = filter f (pending self).
Proof.
  intros Hf. induction cands as [|lr cands IH]; intros self; [reflexivity|].
  rewrite forM_cons. unfold bind.
  destruct (schedule_swap lr self) as [r s1] eqn:H1.
  apply schedule_swap_inv in H1. destruct H1 as [(_ & -> & ->)|(_ & Hadd)].
  - apply IH.
  - apply add_event_inv in Hadd.
    destruct Hadd as (_ & _ & [(-> & _ & Hq)|(-> & _ & Hq)]).
    + rewrite IH, Hq. apply filter_insert_event_false, Hf.
    + simpl. rewrite Hq. reflexivity.
Qed.

(** When the steps before the evaluation complete, the loop of lines
    134-137 has completed, and a filter that rejects every swap sees the
    queue as that loop left it. *)
Lemma scheduling_steps_Ok_inv self self' links :
  link_stations self = Some links ->
  scheduling_steps self = (Ok tt, self') ->
  exists sa,
    forM_ replenish (combine (map (link_used self) links) (sources self)) self
    = (Ok tt, sa)
    /\ forall f, (forall t ps, f (EntanglementSwappingEvent t ps) = false) ->
                 filter f (pending self') = filter f (pending sa).
Proof.
  intros Hl H. rewrite (scheduling_steps_eq _ Hl) in H.
  apply bind_inv_Ok in H. destruct H as ([] & sa & Ha & H).
  apply bind_inv_Ok in H. destruct H as ([] & sb & Hb & H).
  apply bind_inv_Ok in H. destruct H as ([] & sc & Hc & Hd).
  exists sa. split; [exact Ha|]. intros f Hf.
  destruct (swapping_eq (link_pairs self) 0 1 sa) as [E1|E1];
    rewrite E1 in Hb; [|discriminate].
  destruct (swapping_eq (link_pairs self) 2 3 sb) as [E2|E2];
    rewrite E2 in Hc; [|discriminate].
  destruct (swapping_central_eq sc) as [E3|E3]; rewrite E3 in Hd; [|discriminate].
  assert (F1 := swaps_loop_filter f (zip_at (link_pairs self) 0 1) Hf sa).
  assert (F2 := swaps_loop_filter f (zip_at (link_pairs self) 2 3) Hf sb).
  assert (F3 := swaps_loop_filter f (central_candidates sc) Hf sc).
  rewrite Hb in F1. rewrite Hc in F2. rewrite Hd in F3. simpl in *. congruence.
Qed.

Lemma filter_remove f (p : Pair) l :
  f p = false -> filter f (remove Pair_eq_dec p l) = filter f l.
Proof.
  intros Hp. induction l as [|x l IH]; simpl; [reflexivity|].
  destruct (Pair_eq_dec p x) as [<-|Hne]; simpl.
  - rewrite Hp. exact IH.
  - rewrite IH. reflexivity.
Qed.

Lemma filter_remove_pairs f l : forall bucket,
  (forall p, In p l -> f p = false) ->
  filter f (remove_pairs l bucket) = filter f bucket.
Proof.
  induction l as [|p l IH]; intros bucket Hl; [reflexivity|].
  unfold remove_pairs in *. simpl. rewrite IH.
  - apply filter_remove. apply Hl. left. reflexivity.
  - intros q Hq. apply Hl. right. exact Hq.
Qed.

(** A pair is between one unordered couple of stations only. *)
Lemma between_unique p a b c d :
  is_between_stations p a b = true ->
  is_between_stations p c d = true ->
  (a = c /\ b = d) \/ (a = d /\ b = c).
Proof.
  unfold is_between_stations, station_eqb. destruct (pair_stations p) as [u v].
  destruct (Station_eq_dec a u), (Station_eq_dec b v), (Station_eq_dec a v),
    (Station_eq_dec b u), (Station_eq_dec c u), (Station_eq_dec d v),
    (Station_eq_dec c v), (Station_eq_dec d u);
    simpl; intros H1 H2; try discriminate; subst; auto.
Qed.

Section Chain.
Variables s0 s1 s2 s3 s4 : Station.
Hypothesis distinct : NoDup [s0; s1; s2; s3; s4].

Lemma chain_distinct :
  s0 <> s1 /\ s0 <> s2 /\ s0 <> s3 /\ s0 <> s4 /\ s1 <> s2 /\ s1 <> s3 /\ s1 <> s4
  /\ s2 <> s3 /\ s2 <> s4 /\ s3 <> s4.
Proof.
  assert (H := distinct).
  repeat (apply NoDup_cons_iff in H; let Hn := fresh "Hn" in destruct H as [Hn H]).
  simpl in *. repeat split; intros Heq; subst; tauto.
Qed.

(** A pair between the two ground stations is on no link. *)
Lemma long_range_not_on_link p link :
  In link (chain_links s0 s1 s2 s3 s4) ->
  is_between_stations p s0 s4 = true ->
  is_between_stations p (fst link) (snd link) = false.
Proof.
  intros Hin Hlr.
  destruct (is_between_stations p (fst link) (snd link)) eqn:Hb; [|reflexivity].
  exfalso. destruct chain_distinct as (? & ? & ? & ? & ? & ? & ? & ? & ? & ?).
  destruct (between_unique _ _ _ _ _ Hb Hlr) as [[Ha Hc]|[Ha Hc]];
    simpl in Hin; destruct Hin as [<-|[<-|[<-|[<-|[]]]]]; simpl in *; congruence.
Qed.

(** Which link a source of the chain serves. *)
Lemma serves_chain (c : Source) (i j : nat) a b x y :
  nth_error (chain_links s0 s1 s2 s3 s4) i = Some (a, b) ->
  nth_error (chain_links s0 s1 s2 s3 s4) j = Some (x, y) ->
  target_stations c = [x; y] ->
  serves c (a, b) = (i =? j).
Proof.
  destruct chain_distinct as (? & ? & ? & ? & ? & ? & ? & ? & ? & ?).
  intros Hi Hj Ht. unfold serves, station_in, station_eqb. rewrite Ht. simpl.
  destruct i as [|[|[|[|i]]]]; simpl in Hi; try (destruct i; discriminate);
    destruct j as [|[|[|[|j]]]]; simpl in Hj; try (destruct j; discriminate);
    inversion Hi; inversion Hj; subst;
    repeat match goal with
      | |- context [Station_eq_dec ?u ?v] => destruct (Station_eq_dec u v)
      end; simpl; try congruence; reflexivity.
Qed.

(** One pass that completes, on the chain: every link is brought up to
    [num_memories] and no link loses anything. *)
Lemma check_pass_capacity self b self' c0 c1 c2 c3 :
  configured self s0 s1 s2 s3 s4 ->
  sources self = [c0; c1; c2; c3] ->
  target_stations c0 = [s0; s1] -> target_stations c1 = [s1; s2] ->
  target_stations c2 = [s2; s3] -> target_stations c3 = [s3; s4] ->
  check_pass self = (Ok b, self') ->
  forall link, In link (chain_links s0 s1 s2 s3 s4) ->
    Z.of_nat (link_used self' link)
    = Z.max (Z.of_nat (link_used self link)) (num_memories self).
Proof.
  intros (Hst & Hgl & _ & Hsc & _ & Hgr & Hl) Hsrc T0 T1 T2 T3 Hpass link Hin.
  destruct (check_pass_Ok_inv _ Hsc Hgl Hgr Hpass) as (_ & He & _).
  destruct He as (_ & _ & Hp & _).
  assert (Hq := check_pass_queue self). rewrite Hpass in Hq. simpl in Hq.
  apply check_pass_inv in Hpass. destruct Hpass as (mid & Hsteps & _).
  rewrite Hsteps in Hq. simpl in Hq.
  destruct (scheduling_steps_Ok_inv _ Hl Hsteps) as (sa & Ha & Hf).
  rewrite Hsrc in Ha. cbn [map combine] in Ha.
  set (f := is_scheduled_for (fst link) (snd link)).
  set (g := fun c : Source => serves c link).
  assert (Hfg : forall t src st a, f (SourceEvent t src st a) = g src) by reflexivity.
  assert (Hcount := @replenish_loop_count _ f g Hfg _ _ _ Ha).
  unfold count in Hcount. rewrite <- (Hf f (fun _ _ => eq_refl)) in Hcount.
  unfold link_used.
  assert (Hpairs : pairs_between (world self') (fst link) (snd link)
                   = pairs_between (world self) (fst link) (snd link)).
  { unfold pairs_between at 1. rewrite Hp. apply filter_remove_pairs.
    intros p Hpin. apply long_range_not_on_link; [exact Hin|].
    unfold pairs_between in Hpin. apply filter_In in Hpin. apply Hpin. }
  rewrite Hpairs.
  assert (Hsched : length (scheduled_for (world self') (fst link) (snd link))
                   = length (filter f (pending mid))).
  { unfold scheduled_for, pending. rewrite Hq. reflexivity. }
  rewrite Hsched, Hcount.
  fold (scheduled_for (world self) (fst link) (snd link)).
  simpl in Hin.
  destruct Hin as [<-|[<-|[<-|[<-|[]]]]]; simpl scheduled_on; unfold g;
    [ rewrite (@serves_chain c0 0 0 s0 s1 s0 s1 eq_refl eq_refl T0),
        (@serves_chain c1 0 1 s0 s1 s1 s2 eq_refl eq_refl T1),
        (@serves_chain c2 0 2 s0 s1 s2 s3 eq_refl eq_refl T2),
        (@serves_chain c3 0 3 s0 s1 s3 s4 eq_refl eq_refl T3)
    | rewrite (@serves_chain c0 1 0 s1 s2 s0 s1 eq_refl eq_refl T0),
        (@serves_chain c1 1 1 s1 s2 s1 s2 eq_refl eq_refl T1),
        (@serves_chain c2 1 2 s1 s2 s2 s3 eq_refl eq_refl T2),
        (@serves_chain c3 1 3 s1 s2 s3 s4 eq_refl eq_refl T3)
    | rewrite (@serves_chain c0 2 0 s2 s3 s0 s1 eq_refl eq_refl T0),
        (@serves_chain c1 2 1 s2 s3 s1 s2 eq_refl eq_refl T1),
        (@serves_chain c2 2 2 s2 s3 s2 s3 eq_refl eq_refl T2),
        (@serves_chain c3 2 3 s2 s3 s3 s4 eq_refl eq_refl T3)
    | rewrite (@serves_chain c0 3 0 s3 s4 s0 s1 eq_refl eq_refl T0),
        (@serves_chain c1 3 1 s3 s4 s1 s2 eq_refl eq_refl T1),
        (@serves_chain c2 3 2 s3 s4 s2 s3 eq_refl eq_refl T2),
        (@serves_chain c3 3 3 s3 s4 s3 s4 eq_refl eq_refl T3) ];
    subst f; unfold topup, link_used, scheduled_for, pending; cbn [fst snd Nat.eqb]; lia.
Qed.
End Chain.
End Capacity.

Section CapacityOfCheck.
Context {P : Platform}.

Lemma configured_config a b s0 s1 s2 s3 s4 :
  config a = config b -> configured b s0 s1 s2 s3 s4 -> configured a s0 s1 s2 s3 s4.
Proof.
  unfold config, configured. intros H (H1 & H2 & H3 & H4 & H5 & H6 & H7).
  repeat split; congruence.
Qed.

Lemma check_pass_config self : config (snd (check_pass self)) = config self.
Proof.
  apply (@preserves_check_pass _ (fun s => config s = config self) (fun _ => True));
    try exact Logic.I; try reflexivity; intros; prim.
Qed.

(** C1, as the code has it: on a chain of five distinct stations whose
    i-th source entangles the stations of the i-th link, when [check]
    returns, the pairs on a link plus the pending [SourceEvent]s whose source
    targets both stations of the link number the larger of what they
    numbered on entry and [num_memories]: exactly [num_memories] when the
    link was below it on entry, and what they were when the link was at or
    above it. *)
Theorem link_used_after_check (fuel : nat) :
  forall (self self' : FourlinkProtocol) (s0 s1 s2 s3 s4 : Station)
         (c0 c1 c2 c3 : Source),
  configured self s0 s1 s2 s3 s4 ->
  NoDup [s0; s1; s2; s3; s4] ->
  sources self = [c0; c1; c2; c3] ->
  target_stations c0 = [s0; s1] -> target_stations c1 = [s1; s2] ->
  target_stations c2 = [s2; s3] -> target_stations c3 = [s3; s4] ->
  check fuel self = Some (Ok tt, self') ->
  forall link, In link [(s0, s1); (s1, s2); (s2, s3); (s3, s4)] ->
    Z.of_nat (link_used self' link)
    = Z.max (Z.of_nat (link_used self link)) (num_memories self).
Proof.
  induction fuel as [|fuel IH];
    intros self self' s0 s1 s2 s3 s4 c0 c1 c2 c3 Hcfg Hnd Hsrc T0 T1 T2 T3 H link Hin;
    simpl in H; [discriminate|].
  assert (Hc := check_pass_config self).
  destruct (check_pass self) as [[[|]|e] mid] eqn:Hpass; simpl in Hc; [| |discriminate].
  - assert (Hmid := check_pass_capacity Hnd Hcfg Hsrc T0 T1 T2 T3 Hpass Hin).
    assert (Hcfg' : configured mid s0 s1 s2 s3 s4)
      by (apply configured_config with (b := self); assumption).
    assert (Hsrc' : sources mid = [c0; c1; c2; c3])
      by (unfold config in Hc; congruence).
    assert (Hn : num_memories mid = num_memories self)
      by (unfold config in Hc; congruence).
    rewrite (IH mid self' s0 s1 s2 s3 s4 c0 c1 c2 c3 Hcfg' Hnd Hsrc' T0 T1 T2 T3 H link Hin).
    rewrite Hmid, Hn. lia.
  - inversion H; subst mid.
    apply (check_pass_capacity Hnd Hcfg Hsrc T0 T1 T2 T3 Hpass Hin).
Qed.
End CapacityOfCheck.

(** ** The two scenarios *)

Section Scenarios.
Context {P : Platform}.

Lemma swapping_central_labelled self gl sc gr :
  station_ground_left self = Some gl ->
  sat_central self = Some sc ->
  station_ground_right self = Some gr ->
  swapping_central self = forM_ schedule_swap (central_candidates self) self.
Proof.
  intros Hgl Hsc Hgr.
  unfold swapping_central, central_candidates, bind, getattr.
  repeat (progress (simpl; rewrite ?Hsc, ?Hgl, ?Hgr, ?get_pairs_between_eq)).
  destruct (pairs_between (world self) gl sc) as [|p l]; simpl; [reflexivity|].
  destruct (pairs_between (world self) sc gr) as [|p' l']; simpl; reflexivity.
Qed.

Lemma evaluation_none self gl gr :
  station_ground_left self = Some gl ->
  station_ground_right self = Some gr ->
  pairs_between (world self) gl gr = [] ->
  evaluation self = (Ok false, self).
Proof.
  intros Hgl Hgr Hnil. unfold evaluation, bind, getattr.
  repeat (progress (simpl; rewrite ?Hgl, ?Hgr, ?get_pairs_between_eq, ?Hnil)).
  reflexivity.
Qed.

Lemma existsb_false_filter {A} (f : A -> bool) l :
  existsb f l = false <-> filter f l = [].
Proof.
  rewrite filter_nil_iff. split.
  - intros H x Hx. destruct (f x) eqn:Hf; [|reflexivity].
    assert (existsb f l = true) by (apply existsb_exists; eauto). congruence.
  - intros H. destruct (existsb f l) eqn:He; [|reflexivity].
    apply existsb_exists in He. destruct He as (x & Hx & Hf).
    rewrite (H x Hx) in Hf. discriminate.
Qed.

Lemma filter_all {A} (l : list A) : filter (fun _ => true) l = l.
Proof. induction l as [|a l IH]; simpl; [reflexivity|rewrite IH; reflexivity]. Qed.

Lemma pairs_between_none (w : World) a b : pairs_of w = [] -> pairs_between w a b = [].
Proof. unfold pairs_between. intros ->. reflexivity. Qed.

Lemma static_fields a b :
  static a = static b ->
  config a = config b /\ logs a = logs b
  /\ world_objects (world a) = world_objects (world b) /\ now a = now b.
Proof. unfold static. intros H. repeat split; congruence. Qed.

(** C4: five stations, four sources, [num_memories = 2], no pair and an
    empty queue.  [setup] succeeds and one call of [check] returns with
    exactly 2 pending [SourceEvent]s of each source, 8 pending events in all,
    no pending swap and four empty logs, provided every source can schedule
    and never draws a time before the current one. *)
Theorem first_check_of_chain (w : World) (sts : list Station) (c0 c1 c2 c3 : Source) :
  length sts = 5 ->
  NoDup (map source_id [c0; c1; c2; c3]) ->
  pairs_of w = [] ->
  queue (event_queue w) = [] ->
  (forall c, In c [c0; c1; c2; c3] -> admissible (init w 2 sts [c0; c1; c2; c3]) c) ->
  fst (setup (init w 2 sts [c0; c1; c2; c3])) = Ok tt
  /\ exists self',
       (forall fuel, 1 <= fuel ->
          check fuel (snd (setup (init w 2 sts [c0; c1; c2; c3]))) = Some (Ok tt, self'))
       /\ (forall c, In c [c0; c1; c2; c3] ->
             length (filter (is_event_of c) (pending self')) = 2)
       /\ length (pending self') = 8
       /\ length (filter is_source_event (pending self')) = 8
       /\ pending_swaps self' = []
       /\ logs self' = ([], [], [], []).
Proof.
  intros Hlen Hnd Hpairs Hqueue Hadm.
  destruct sts as [|s0 [|s1 [|s2 [|s3 [|s4 [|s5 sts]]]]]]; try discriminate Hlen.
  set (self0 := init w 2 [s0; s1; s2; s3; s4] [c0; c1; c2; c3]) in *.
  assert (Hall : forallb has_schedule_event (sources self0) = true).
  { simpl. rewrite (proj1 (Hadm c0 (or_introl eq_refl))).
    rewrite (proj1 (Hadm c1 (or_intror (or_introl eq_refl)))).
    rewrite (proj1 (Hadm c2 (or_intror (or_intror (or_introl eq_refl))))).
    rewrite (proj1 (Hadm c3 (or_intror (or_intror (or_intror (or_introl eq_refl)))))).
    reflexivity. }
  destruct (@setup_succeeds _ self0 s0 s1 s2 s3 s4 c0 c1 c2 c3 eq_refl eq_refl Hall)
    as (Hok & Hcfg & Hsrc & Hn & Hw & Hlogs).
  split; [exact Hok|].
  set (self := snd (setup self0)) in *.
  destruct Hcfg as (_ & Hgl & _ & Hsc & _ & Hgr & Hl).
  assert (Hw' : world self = w) by (rewrite Hw; reflexivity).
  assert (Hp0 : pairs_of (world self) = []) by (rewrite Hw'; exact Hpairs).
  assert (Hq0 : pending self = []) by (unfold pending; rewrite Hw'; exact Hqueue).
  assert (Hlu : forall link, link_used self link = 0).
  { intros link. unfold link_used, scheduled_for. fold (pending self).
    rewrite Hq0, (pairs_between_none _ _ _ Hp0). reflexivity. }
  assert (Hsteps := scheduling_steps_eq _ Hl).
  cbn [map] in Hsteps. rewrite !Hlu, Hsrc in Hsteps.
  change (sources self0) with [c0; c1; c2; c3] in Hsteps. cbn [combine] in Hsteps.
  set (l := [(0, c0); (0, c1); (0, c2); (0, c3)]) in *.
  assert (Hnow0 : now self0 = now self) by (unfold now; rewrite Hw; reflexivity).
  destruct (@replenish_loop_progress _ l self) as [sa Ha].
  { intros lu c Hin. apply admissible_now with (a := self0); [exact Hnow0|].
    apply Hadm. simpl in Hin.
    destruct Hin as [H|[H|[H|[H|[]]]]]; injection H as _ <-; simpl; auto. }
  assert (Sa := replenish_loop_static l self). rewrite Ha in Sa. simpl in Sa.
  destruct (static_fields Sa) as (Sc & Sl & Sw & _).
  assert (Hpa : pairs_of (world sa) = []) by (unfold pairs_of in *; rewrite Sw; exact Hp0).
  assert (Hlp : link_pairs self = [[]; []; []; []]).
  { unfold link_pairs. rewrite Hl. simpl. rewrite !(pairs_between_none _ _ _ Hp0).
    reflexivity. }
  rewrite Hlp in Hsteps. rewrite (bind_Ok _ _ _ Ha) in Hsteps.
  assert (E01 : swapping (map (@length Pair) [[]; []; []; []]) [[]; []; []; []] 0 1 sa
                = (Ok tt, sa)) by reflexivity.
  assert (E23 : swapping (map (@length Pair) [[]; []; []; []]) [[]; []; []; []] 2 3 sa
                = (Ok tt, sa)) by reflexivity.
  rewrite (bind_Ok _ _ _ E01), (bind_Ok _ _ _ E23) in Hsteps.
  assert (Hgl' : station_ground_left sa = Some s0) by (unfold config in Sc; congruence).
  assert (Hsc' : sat_central sa = Some s2) by (unfold config in Sc; congruence).
  assert (Hgr' : station_ground_right sa = Some s4) by (unfold config in Sc; congruence).
  rewrite (swapping_central_labelled _ Hgl' Hsc' Hgr') in Hsteps.
  assert (Hcc : central_candidates sa = []).
  { unfold central_candidates. rewrite Hgl', Hsc', Hgr'.
    rewrite !(pairs_between_none _ _ _ Hpa). reflexivity. }
  rewrite Hcc in Hsteps. simpl in Hsteps.
  assert (Hpass : check_pass self = (Ok false, sa)).
  { unfold check_pass. rewrite (bind_Ok _ _ _ Hsteps).
    apply evaluation_none with (gl := s0) (gr := s4); try assumption.
    apply pairs_between_none. exact Hpa. }
  exists sa.
  assert (Hcount : forall f g,
             (forall t src st a, f (SourceEvent t src st a) = g src) ->
             length (filter f (pending sa)) = scheduled_on g 2 l).
  { intros f g Hfg. assert (H := @replenish_loop_count _ f g Hfg l self sa Ha).
    unfold count in H. rewrite Hq0, Hn in H.
    change (num_memories self0) with 2%Z in H. simpl filter in H. simpl length in H.
    rewrite H. lia. }
  assert (Hids := Hnd). simpl in Hids.
  repeat (apply NoDup_cons_iff in Hids; let Hi := fresh "Hi" in destruct Hids as [Hi Hids]).
  simpl In in *.
  split; [|split; [|split; [|split; [|split]]]].
  - intros [|fuel] Hf; [lia|]. simpl. rewrite Hpass. reflexivity.
  - intros c Hin.
    rewrite (Hcount (is_event_of c) (fun s => source_id s =? source_id c))
      by reflexivity.
    unfold l, topup. simpl.
    destruct Hin as [<-|[<-|[<-|[<-|[]]]]]; rewrite Nat.eqb_refl;
      repeat match goal with
        | |- context [?a =? ?b] =>
            destruct (Nat.eqb_spec a b); [exfalso; intuition congruence|]
        end; reflexivity.
  - rewrite <- (filter_all (pending sa)).
    rewrite (Hcount (fun _ => true) (fun _ => true)) by reflexivity. reflexivity.
  - rewrite (Hcount is_source_event (fun _ => true)) by reflexivity. reflexivity.
  - assert (H := replenish_loop_filter is_swap_event l self (fun _ _ _ _ => eq_refl)).
    rewrite Ha in H. simpl in H. unfold pending_swaps. rewrite H, Hq0. reflexivity.
  - rewrite Sl, Hlogs. reflexivity.
Qed.
(** A combination without a pending swap gets one at the current time,
    when the current time is not before itself. *)
Lemma schedule_swap_fresh l r self :
  scheduled_swap (pending self) (l, r) = false ->
  num_ltb (now self) (now self) = false ->
  exists self',
    schedule_swap (l, r) self = (Ok tt, self')
    /\ static self' = static self
    /\ pending self'
       = insert_event (EntanglementSwappingEvent (now self) [l; r]) (pending self).
Proof.
  intros Hs Hirr.
  destruct (schedule_swap (l, r) self) as [res s'] eqn:H. exists s'.
  apply schedule_swap_inv in H. destruct H as [(Hs' & _)|(_ & Hadd)]; [congruence|].
  apply add_event_inv in Hadd. simpl in Hadd.
  destruct Hadd as (Hst & _ & [(-> & _ & Hq)|(_ & Hlt & _)]); [auto|congruence].
Qed.

(** A pass on a state where every combination has a pending swap: it
    schedules no swap, whatever its outcome. *)
Lemma check_pass_idle self :
  Forall (fun lr => scheduled_swap (pending self) lr = true) (swap_candidates self) ->
  pending_swaps (snd (check_pass self)) = pending_swaps self.
Proof.
  intros HF. unfold pending_swaps, pending. rewrite check_pass_queue.
  apply (scheduling_steps_idle _ HF).
Qed.

(** On a chain, destroying the pairs between the two ground stations
    changes no combination of the swapping loops. *)
Lemma evaluated_keeps_candidates self self' s0 s1 s2 s3 s4 t :
  NoDup [s0; s1; s2; s3; s4] ->
  configured self s0 s1 s2 s3 s4 ->
  evaluated (pairs_between (world self) s0 s4) t self self' ->
  swap_candidates self' = swap_candidates self.
Proof.
  intros Hnd Hcfg (Hc & _ & Hp & _).
  assert (Hcfg' : configured self' s0 s1 s2 s3 s4)
    by (apply configured_config with (b := self); assumption).
  destruct (chain_distinct Hnd) as (? & ? & ? & ? & ? & ? & ? & ? & ? & ?).
  assert (Hkeep : forall a b,
             In (a, b) [(s0, s1); (s1, s2); (s2, s3); (s3, s4); (s0, s2); (s2, s4)] ->
             pairs_between (world self') a b = pairs_between (world self) a b).
  { intros a b Hin. unfold pairs_between at 1. rewrite Hp.
    apply filter_remove_pairs. intros p Hpin.
    unfold pairs_between in Hpin. apply filter_In in Hpin. destruct Hpin as [_ Hlr].
    destruct (is_between_stations p a b) eqn:Hb; [|reflexivity]. exfalso.
    destruct (between_unique _ _ _ _ _ Hb Hlr) as [[Ha Hd]|[Ha Hd]];
      simpl in Hin; destruct Hin as [E|[E|[E|[E|[E|[E|[]]]]]]];
      inversion E; congruence. }
  destruct Hcfg as (_ & Hgl & _ & Hsc & _ & Hgr & Hl).
  destruct Hcfg' as (_ & Hgl' & _ & Hsc' & _ & Hgr' & Hl').
  unfold swap_candidates, link_pairs, central_candidates, zip_at.
  rewrite Hl, Hl', Hgl, Hgl', Hsc, Hsc', Hgr, Hgr'. simpl.
  rewrite !Hkeep by (simpl; auto 10). reflexivity.
Qed.

(** C5, as the code has it: on a chain of five distinct stations, when one
    pair is on link 1 and one on link 2, no pending swap refers to both, and
    every other combination the swapping loops go through (the pairs of
    links 3 and 4 at one position, the pairs of the two halves of the chain
    at one position) has a pending swap already, one call of [check]
    schedules exactly one [EntanglementSwappingEvent]: whatever the outcome
    of the call, the pending swaps are those of before with one more among
    them, which refers to exactly those two pairs and is scheduled at the
    current time.  The call returns normally, after a single pass, when no
    pair is between the ground stations.  The sources can schedule and draw
    no time before the current one, and the current time is not before
    itself. *)
Theorem one_swap_scheduled (self : FourlinkProtocol) (s0 s1 s2 s3 s4 : Station)
    (p1 p2 : Pair) :
  configured self s0 s1 s2 s3 s4 ->
  NoDup [s0; s1; s2; s3; s4] ->
  (forall c, In c (sources self) -> admissible self c) ->
  num_ltb (now self) (now self) = false ->
  pairs_between (world self) s0 s1 = [p1] ->
  pairs_between (world self) s1 s2 = [p2] ->
  scheduled_swap (pending self) (p1, p2) = false ->
  Forall (fun lr => scheduled_swap (pending self) lr = true)
    (combine (pairs_between (world self) s2 s3) (pairs_between (world self) s3 s4)
     ++ combine (pairs_between (world self) s0 s2) (pairs_between (world self) s2 s4)) ->
  exists r self',
    (forall fuel, 2 <= fuel -> check fuel self = Some (r, self'))
    /\ (pairs_between (world self) s0 s4 = [] -> check 1 self = Some (Ok tt, self'))
    /\ exists before after,
         pending_swaps self = before ++ after
         /\ pending_swaps self'
            = before ++ EntanglementSwappingEvent (now self) [p1; p2] :: after.
Proof.
  intros Hcfg Hnd Hadm Hirr Hp1 Hp2 Hfresh Hothers.
  assert (Hcfg0 := Hcfg).
  destruct Hcfg as (Hst & Hgl & _ & Hsc & _ & Hgr & Hl).
  apply Forall_app in Hothers. destruct Hothers as [H34 Hcen].
  set (L3 := pairs_between (world self) s2 s3) in *.
  set (L4 := pairs_between (world self) s3 s4) in *.
  assert (Hlp : link_pairs self = [[p1]; [p2]; L3; L4]).
  { unfold link_pairs. rewrite Hl. simpl. rewrite Hp1, Hp2. reflexivity. }
  assert (Hsteps := scheduling_steps_eq _ Hl). rewrite Hlp in Hsteps.
  set (l := combine (map (link_used self) [(s0, s1); (s1, s2); (s2, s3); (s3, s4)])
              (sources self)) in *.
  destruct (@replenish_loop_progress _ l self) as [sa Ha].
  { intros lu c Hin. apply Hadm. unfold l in Hin. apply in_combine_r in Hin. exact Hin. }
  assert (Sa := replenish_loop_static l self). rewrite Ha in Sa. simpl in Sa.
  assert (Ia := replenish_loop_incl l self). rewrite Ha in Ia. simpl in Ia.
  destruct (static_fields Sa) as (Ca & _ & Wa & Na).
  assert (Fa : forall f, (forall t s st a, f (SourceEvent t s st a) = false) ->
                         filter f (pending sa) = filter f (pending self)).
  { intros f Hf. assert (H' := replenish_loop_filter f l self Hf).
    rewrite Ha in H'. exact H'. }
  assert (Hfresh' : scheduled_swap (pending sa) (p1, p2) = false).
  { unfold scheduled_swap in *. apply existsb_false_filter.
    rewrite Fa by reflexivity. apply existsb_false_filter. exact Hfresh. }
  assert (Hirr' : num_ltb (now sa) (now sa) = false) by (rewrite Na; exact Hirr).
  destruct (schedule_swap_fresh p1 p2 sa Hfresh' Hirr') as (sb & Hb & Sb & Qb).
  destruct (static_fields Sb) as (Cb & _ & Wb & Nb).
  assert (Ib : incl (pending self) (pending sb)).
  { intros e He. rewrite Qb. apply in_insert_event. right. apply Ia. exact He. }
  assert (E01 : swapping (map (@length Pair) [[p1]; [p2]; L3; L4])
                  [[p1]; [p2]; L3; L4] 0 1 sa = (Ok tt, sb)).
  { rewrite swapping_in_range by (simpl; lia).
    change (zip_at [[p1]; [p2]; L3; L4] 0 1) with [(p1, p2)].
    rewrite forM_cons. rewrite (bind_Ok _ _ _ Hb). reflexivity. }
  assert (E23 : swapping (map (@length Pair) [[p1]; [p2]; L3; L4])
                  [[p1]; [p2]; L3; L4] 2 3 sb = (Ok tt, sb)).
  { rewrite swapping_in_range by (simpl; lia).
    change (zip_at [[p1]; [p2]; L3; L4] 2 3) with (combine L3 L4).
    apply swaps_loop_idle. revert H34. apply Forall_impl.
    intros lr. apply scheduled_swap_incl. exact Ib. }
  rewrite (bind_Ok _ _ _ Ha), (bind_Ok _ _ _ E01), (bind_Ok _ _ _ E23) in Hsteps.
  assert (Hgl' : station_ground_left sb = Some s0) by (unfold config in *; congruence).
  assert (Hsc' : sat_central sb = Some s2) by (unfold config in *; congruence).
  assert (Hgr' : station_ground_right sb = Some s4) by (unfold config in *; congruence).
  assert (Wsb : world_objects (world sb) = world_objects (world self)) by congruence.
  rewrite (swapping_central_labelled _ Hgl' Hsc' Hgr') in Hsteps.
  assert (Hcc : central_candidates sb
                = combine (pairs_between (world self) s0 s2)
                    (pairs_between (world self) s2 s4)).
  { unfold central_candidates. rewrite Hgl', Hsc', Hgr'.
    rewrite (pairs_between_static sb self s0 s2 Wsb),
      (pairs_between_static sb self s2 s4 Wsb). reflexivity. }
  assert (Ecen : forM_ schedule_swap (central_candidates sb) sb = (Ok tt, sb)).
  { rewrite Hcc. apply swaps_loop_idle. revert Hcen. apply Forall_impl.
    intros lr. apply scheduled_swap_incl. exact Ib. }
  rewrite Ecen in Hsteps.
  assert (Hswaps : exists before after,
             pending_swaps self = before ++ after
             /\ pending_swaps sb
                = before ++ EntanglementSwappingEvent (now self) [p1; p2] :: after).
  { unfold pending_swaps. rewrite Qb, Na.
    destruct (filter_insert_event_true is_swap_event
                (EntanglementSwappingEvent (now self) [p1; p2]) (pending sa) eq_refl)
      as (before & after & Hbefore & Hafter).
    exists before, after. rewrite <- (Fa is_swap_event) by reflexivity. auto. }
  assert (Hsched : Forall (fun lr => scheduled_swap (pending sb) lr = true)
                     (swap_candidates self))
    by (apply scheduling_steps_scheduled; exact Hsteps).
  assert (Hq1 : pending_swaps (snd (check_pass self)) = pending_swaps sb).
  { unfold pending_swaps, pending. rewrite check_pass_queue, Hsteps. reflexivity. }
  destruct (check_pass self) as [[[|]|e] t1] eqn:Hpass; simpl in Hq1.
  - (* the pass evaluated: one more pass *)
    assert (Hnot := check_pass_twice _ Hpass).
    destruct (check_pass_Ok_inv _ Hsc Hgl Hgr Hpass) as (Hiff & Hev & _).
    assert (Hcand : swap_candidates t1 = swap_candidates self)
      by (eapply evaluated_keeps_candidates; eassumption).
    assert (Hq : event_queue (world t1) = event_queue (world sb)).
    { assert (Hx := check_pass_queue self). rewrite Hpass, Hsteps in Hx. exact Hx. }
    assert (Hidle : pending_swaps (snd (check_pass t1)) = pending_swaps t1).
    { apply check_pass_idle. rewrite Hcand. unfold pending. rewrite Hq. exact Hsched. }
    destruct (check_pass t1) as [[[|]|e] t2] eqn:Hpass2; simpl in Hidle, Hnot.
    + exfalso. apply Hnot. reflexivity.
    + exists (Ok tt), t2. split; [|split].
      * intros [|[|fuel]] Hf; try lia. simpl. rewrite Hpass, Hpass2. reflexivity.
      * intros Hnil. apply Hiff in Hnil. discriminate.
      * rewrite Hidle, Hq1. exact Hswaps.
    + exists (Raise e), t2. split; [|split].
      * intros [|[|fuel]] Hf; try lia. simpl. rewrite Hpass, Hpass2. reflexivity.
      * intros Hnil. apply Hiff in Hnil. discriminate.
      * rewrite Hidle, Hq1. exact Hswaps.
  - exists (Ok tt), t1. split; [|split].
    + intros [|fuel] Hf; [lia|]. simpl. rewrite Hpass. reflexivity.
    + intros _. simpl. rewrite Hpass. reflexivity.
    + rewrite Hq1. exact Hswaps.
  - exists (Raise e), t1. split; [|split].
    + intros [|fuel] Hf; [lia|]. simpl. rewrite Hpass. reflexivity.
    + intros Hnil. exfalso.
      assert (Hev : evaluation sb = (Ok false, sb)).
      { apply evaluation_none with (gl := s0) (gr := s4); try assumption.
        rewrite (pairs_between_static sb self s0 s4 Wsb). exact Hnil. }
      unfold check_pass in Hpass. rewrite (bind_Ok _ _ _ Hsteps), Hev in Hpass.
      discriminate.
    + rewrite Hq1. exact Hswaps.
Qed.
End Scenarios.

(** ** More on [setup] *)

Section SetupMore.
Context {P : Platform}.

(** X1: whatever its outcome, [setup] leaves the world, the four logs,
    [num_memories], [stations] and [sources] as they were. *)
Theorem setup_frame (self : FourlinkProtocol) :
  world (snd (setup self)) = world self
  /\ logs (snd (setup self)) = logs self
  /\ num_memories (snd (setup self)) = num_memories self
  /\ stations (snd (setup self)) = stations self
  /\ sources (snd (setup self)) = sources self.
Proof.
  unfold setup, bind, gets.
  destruct (stations self) as [|s0 [|s1 [|s2 [|s3 [|s4 [|s5 sts]]]]]] eqn:Hst;
    try (simpl; rewrite ?Hst; repeat split; reflexivity).
  simpl.
  destruct (sources self) as [|c0 [|c1 [|c2 [|c3 [|c4 srcs]]]]] eqn:Hsrc;
    try (simpl; rewrite ?Hst, ?Hsrc; repeat split; reflexivity).
  simpl. unfold bind, assert.
  destruct (has_schedule_event c0), (has_schedule_event c1),
    (has_schedule_event c2), (has_schedule_event c3);
    simpl; rewrite ?Hst, ?Hsrc; repeat split; reflexivity.
Qed.

(** What a [setup] that returned normally was given. *)
Lemma setup_Ok_inv (self : FourlinkProtocol) :
  fst (setup self) = Ok tt ->
  exists s0 s1 s2 s3 s4 c0 c1 c2 c3,
    stations self = [s0; s1; s2; s3; s4]
    /\ sources self = [c0; c1; c2; c3]
    /\ forallb has_schedule_event (sources self) = true.
Proof.
  unfold setup, bind, gets.
  destruct (stations self) as [|s0 [|s1 [|s2 [|s3 [|s4 [|s5 sts]]]]]] eqn:Hst;
    try (simpl; discriminate).
  simpl.
  destruct (sources self) as [|c0 [|c1 [|c2 [|c3 [|c4 srcs]]]]] eqn:Hsrc;
    try (simpl; discriminate).
  simpl. unfold bind, assert.
  destruct (has_schedule_event c0) eqn:H0, (has_schedule_event c1) eqn:H1,
    (has_schedule_event c2) eqn:H2, (has_schedule_event c3) eqn:H3;
    simpl; try discriminate.
  intros _. exists s0, s1, s2, s3, s4, c0, c1, c2, c3.
  repeat split.
Qed.

(** [setup] on a protocol object that already carries what [setup]
    assigns. *)
Lemma setup_fixed (m : FourlinkProtocol) s0 s1 s2 s3 s4 c0 c1 c2 c3 :
  stations m = [s0; s1; s2; s3; s4] ->
  sources m = [c0; c1; c2; c3] ->
  forallb has_schedule_event [c0; c1; c2; c3] = true ->
  station_ground_left m = Some s0 ->
  sat_left m = Some s1 ->
  sat_central m = Some s2 ->
  sat_right m = Some s3 ->
  station_ground_right m = Some s4 ->
  source_links m = Some (c0, c1, c2, c3) ->
  link_stations m = Some [(s0, s1); (s1, s2); (s2, s3); (s3, s4)] ->
  setup m = (Ok tt, m).
Proof.
  destruct m. simpl. intros -> -> Hall -> -> -> -> -> -> ->.
  simpl in Hall.
  destruct (has_schedule_event c0) eqn:H0; [|discriminate].
  destruct (has_schedule_event c1) eqn:H1; [|discriminate].
  destruct (has_schedule_event c2) eqn:H2; [|discriminate].
  destruct (has_schedule_event c3) eqn:H3; [|discriminate].
  unfold setup, bind, gets. simpl. unfold bind, assert.
  rewrite H0, H1, H2, H3. reflexivity.
Qed.

(** X2: [setup] can be run again: after a [setup] that returned normally, a
    second [setup] returns normally too and leaves the protocol object
    exactly as the first one left it. *)
Theorem setup_twice (self : FourlinkProtocol) :
  fst (setup self) = Ok tt ->
  setup (snd (setup self)) = (Ok tt, snd (setup self)).
Proof.
  intros Hok.
  destruct (setup_Ok_inv self Hok)
    as (s0 & s1 & s2 & s3 & s4 & c0 & c1 & c2 & c3 & Hst & Hsrc & Hall).
  destruct (@setup_succeeds _ self s0 s1 s2 s3 s4 c0 c1 c2 c3 Hst Hsrc Hall)
    as (_ & Hcfg & Hsrc' & _).
  destruct Hcfg as (Hst' & Hgl & Hsl & Hsc & Hsr & Hgr & Hl).
  assert (Hlinks : source_links (snd (setup self)) = Some (c0, c1, c2, c3)).
  { rewrite Hsrc in Hall. simpl in Hall.
    destruct (has_schedule_event c0) eqn:H0; [|discriminate].
    destruct (has_schedule_event c1) eqn:H1; [|discriminate].
    destruct (has_schedule_event c2) eqn:H2; [|discriminate].
    destruct (has_schedule_event c3) eqn:H3; [|discriminate].
    unfold setup, bind, gets. rewrite Hst. simpl. rewrite Hsrc. simpl.
    unfold bind, assert. rewrite H0, H1, H2, H3. reflexivity. }
  rewrite Hsrc in Hsrc', Hall.
  apply (@setup_fixed (snd (setup self)) s0 s1 s2 s3 s4 c0 c1 c2 c3); assumption.
Qed.

(** X3: [link_stations] is the last attribute [setup] assigns, so a
    [setup] that raises on a protocol object without [link_stations] leaves
    it without, and every later [check] stops with [AttributeError] and
    changes nothing. *)
Theorem check_after_failed_setup (self : FourlinkProtocol) (e : Exception)
    (fuel : nat) :
  link_stations self = None ->
  fst (setup self) = Raise e ->
  e = AssertionError
  /\ check (S fuel) (snd (setup self)) = Some (Raise AttributeError, snd (setup self)).
Proof.
  intros Hnone Hfail.
  assert (H : e = AssertionError /\ link_stations (snd (setup self)) = None).
  { revert Hfail. unfold setup, bind, gets.
    destruct (stations self) as [|s0 [|s1 [|s2 [|s3 [|s4 [|s5 sts]]]]]] eqn:Hst;
      try solve [simpl; intros H; inversion H; auto].
    simpl.
    destruct (sources self) as [|c0 [|c1 [|c2 [|c3 [|c4 srcs]]]]] eqn:Hsrc;
      try solve [simpl; intros H; inversion H; auto].
    simpl. unfold bind, assert.
    destruct (has_schedule_event c0), (has_schedule_event c1),
      (has_schedule_event c2), (has_schedule_event c3);
      simpl; intros H; inversion H; auto. }
  destruct H as [He Hl]. split; [exact He|].
  simpl. unfold check_pass, bind. rewrite (scheduling_steps_unset _ Hl). reflexivity.
Qed.

(** X4: [setup] is not atomic: with five stations and a source list that
    does not have length 4 it raises [AssertionError] after it has assigned
    the five station labels, and before it assigns [link_stations]. *)
Theorem setup_fails_after_labelling (self : FourlinkProtocol)
    (s0 s1 s2 s3 s4 : Station) :
  stations self = [s0; s1; s2; s3; s4] ->
  length (sources self) <> 4 ->
  fst (setup self) = Raise AssertionError
  /\ station_ground_left (snd (setup self)) = Some s0
  /\ sat_left (snd (setup self)) = Some s1
  /\ sat_central (snd (setup self)) = Some s2
  /\ sat_right (snd (setup self)) = Some s3
  /\ station_ground_right (snd (setup self)) = Some s4
  /\ source_links (snd (setup self)) = source_links self
  /\ link_stations (snd (setup self)) = link_stations self.
Proof.
  intros Hst Hlen. unfold setup, bind, gets. rewrite Hst. simpl.
  destruct (sources self) as [|c0 [|c1 [|c2 [|c3 [|c4 srcs]]]]] eqn:Hsrc;
    try (simpl; repeat split; reflexivity).
  exfalso. apply Hlen. reflexivity.
Qed.
End SetupMore.

(** ** More on [check] *)

Section CheckMore.
Context {P : Platform}.

(** [check] assigns nothing of the configuration. *)
Lemma check_config (fuel : nat) (self self' : FourlinkProtocol) (r : Result unit) :
  check fuel self = Some (r, self') -> config self' = config self.
Proof.
  intros H.
  assert (Hc : config self' = config self /\ forall e, r = Raise e -> True).
  { apply (@preserves_check _ (fun s => config s = config self) (fun _ => True))
      with (fuel := fuel) (self := self); try exact Logic.I; try reflexivity;
      try assumption; intros; prim. }
  apply Hc.
Qed.

(** X5: whatever its outcome, [check] assigns none of the attributes that
    [__init__] and [setup] assign, the four logs apart. *)
Theorem check_keeps_configuration (fuel : nat) (self self' : FourlinkProtocol)
    (r : Result unit) :
  check fuel self = Some (r, self') ->
  num_memories self' = num_memories self
  /\ stations self' = stations self
  /\ sources self' = sources self
  /\ station_ground_left self' = station_ground_left self
  /\ sat_left self' = sat_left self
  /\ sat_central self' = sat_central self
  /\ sat_right self' = sat_right self
  /\ station_ground_right self' = station_ground_right self
  /\ source_links self' = source_links self
  /\ link_stations self' = link_stations self.
Proof.
  intros H. assert (Hc := check_config _ _ H). unfold config in Hc.
  repeat split; congruence.
Qed.

(** X6: a call of [check] that raises ends in [AttributeError] (an
    attribute that is not set, or a source without [schedule_event]),
    [TypeError] (a source whose [schedule_event] cannot be called),
    [IndexError] (fewer than four links), or in what the event queue and the
    registry raise: [InvalidScheduleError] and [DoubleDestroyError].  It
    never ends in [AssertionError] or [KeyError]. *)
Theorem check_raises_only (fuel : nat) (self self' : FourlinkProtocol)
    (e : Exception) :
  check fuel self = Some (Raise e, self') ->
  e = AttributeError \/ e = TypeError \/ e = IndexError
  \/ e = InvalidScheduleError \/ e = DoubleDestroyError.
Proof.
  intros H.
  assert (Hi : True /\ forall e', Raise e = @Raise unit e' -> raised_by_check e').
  { apply (@preserves_check _ (fun _ => True) raised_by_check)
      with (fuel := fuel) (self := self) (self' := self');
      try exact Logic.I; try assumption; unfold raised_by_check; auto 10;
      intros x s _; unfold on_world, schedule_event, add_event, destroy_qubit,
        destroy_pair;
      (split; [exact Logic.I|]).
    - destruct (_eval_pair x s) as [[[]|e0] s1] eqn:He; simpl; [discriminate|].
      intros e' Heq. inversion Heq; subst. left.
      revert He.
      destruct (sat_central s) as [sc|] eqn:Hsc;
        destruct (station_ground_left s) as [gl|] eqn:Hgl;
        destruct (station_ground_right s) as [gr|] eqn:Hgr;
        unfold _eval_pair, bind, getattr, gets, modify;
        repeat (progress (simpl; rewrite ?Hsc, ?Hgl, ?Hgr));
        intros He; inversion He; reflexivity.
    - destruct (bucket_Qubit (world_objects (world s))) as [l|]; simpl;
        [destruct (in_dec Qubit_eq_dec x l); simpl|];
        intros e' Heq; inversion Heq; auto 10.
    - destruct (bucket_Pair (world_objects (world s))) as [l|]; simpl;
        [destruct (in_dec Pair_eq_dec x l); simpl|];
        intros e' Heq; inversion Heq; auto 10.
    - destruct (num_ltb (time x) (current_time (event_queue (world s)))); simpl;
        intros e' Heq; inversion Heq; auto 10.
    - destruct (time_distribution x (rng_draws (world s))) as [el at']. simpl.
      destruct (num_ltb _ _); simpl; intros e' Heq; inversion Heq; auto 10. }
  destruct Hi as [_ Hi]. apply (Hi e). reflexivity.
Qed.

(** X7: [_eval_pair] logs all or nothing: either the three labels it reads
    are assigned and each of the four logs gets exactly one entry, or a label
    is missing and it raises [AttributeError] before the first log is
    touched, leaving the protocol object as it was. *)
Theorem eval_pair_all_or_nothing (p : Pair) (self : FourlinkProtocol) :
  (exists sc gl gr,
      sat_central self = Some sc
      /\ station_ground_left self = Some gl
      /\ station_ground_right self = Some gr
      /\ fst (_eval_pair p self) = Ok tt
      /\ time_list (snd (_eval_pair p self))
         = time_list self
           ++ [num_add (now self)
                 (num_div (np_max2 (distance sc gl) (distance sc gr)) C)]
      /\ state_list (snd (_eval_pair p self)) = state_list self ++ [state p]
      /\ resource_cost_max_list (snd (_eval_pair p self))
         = resource_cost_max_list self ++ [resource_cost_max p]
      /\ resource_cost_add_list (snd (_eval_pair p self))
         = resource_cost_add_list self ++ [resource_cost_add p]
      /\ world (snd (_eval_pair p self)) = world self)
  \/ ((sat_central self = None \/ station_ground_left self = None
       \/ station_ground_right self = None)
      /\ _eval_pair p self = (Raise AttributeError, self)).
Proof.
  destruct (sat_central self) as [sc|] eqn:Hsc;
    destruct (station_ground_left self) as [gl|] eqn:Hgl;
    destruct (station_ground_right self) as [gr|] eqn:Hgr;
    try (right; split; [auto|];
         unfold _eval_pair, bind, getattr, gets, modify;
         repeat (progress (simpl; rewrite ?Hsc, ?Hgl, ?Hgr)); reflexivity).
  left. exists sc, gl, gr.
  unfold _eval_pair, bind, getattr, gets, modify.
  repeat (progress (simpl; rewrite ?Hsc, ?Hgl, ?Hgr)).
  repeat split.
Qed.
End CheckMore.

(** ** What [check] adds to the queue *)

Section Added.
Context {P : Platform}.

Lemma grown_from_refl s0 : grown_from s0 s0.
Proof.
  split; [reflexivity|]. exists []. split; [apply Permutation_refl|constructor].
Qed.

(** The queue after an insertion holds the new event and the events of
    before, each as often as before. *)
Lemma insert_event_perm e q : Permutation (insert_event e q) (e :: q).
Proof.
  induction q as [|x q IH]; simpl.
  - apply Permutation_refl.
  - destruct (num_ltb (time e) (time x)).
    + apply Permutation_refl.
    + apply perm_trans with (x :: e :: q); [apply perm_skip; exact IH|apply perm_swap].
Qed.

(** [_eval_pair] leaves the world alone. *)
Lemma eval_pair_world p s : world (snd (_eval_pair p s)) = world s.
Proof.
  destruct (sat_central s) as [sc|] eqn:Hsc;
    destruct (station_ground_left s) as [gl|] eqn:Hgl;
    destruct (station_ground_right s) as [gr|] eqn:Hgr;
    unfold _eval_pair, bind, getattr, gets, modify;
    repeat (progress (simpl; rewrite ?Hsc, ?Hgl, ?Hgr)); reflexivity.
Qed.

(** The queue after [schedule_event]: one more [SourceEvent], or the queue
    as it was when the event queue refuses it. *)
Lemma schedule_event_pending c s :
  pending (snd (on_world (schedule_event c) s))
  = insert_event
      (SourceEvent (num_add (now s) (fst (time_distribution c (rng_draws (world s))))) c
         (state_generation c) (snd (time_distribution c (rng_draws (world s)))))
      (pending s)
  \/ pending (snd (on_world (schedule_event c) s)) = pending s.
Proof.
  unfold on_world, schedule_event, add_event, now, pending.
  destruct (time_distribution c (rng_draws (world s))) as [el at']. simpl.
  destruct (num_ltb _ _); simpl; auto.
Qed.

Lemma static_now a b : static a = static b -> now a = now b.
Proof. unfold static. congruence. Qed.

Lemma schedule_event_added s0 c :
  In c (sources s0) -> has_schedule_event c = true ->
  preserves (grown_from s0) (fun _ => True) (on_world (schedule_event c)).
Proof.
  intros Hc Hs s [Hst (added & Hperm & Hall)]. split; [|intros; exact Logic.I].
  destruct (@static_schedule_event _ (static s0) c s Hst) as [Hst' _].
  split; [exact Hst'|].
  destruct (schedule_event_pending c s) as [Hp|Hp]; rewrite Hp.
  - eexists (_ :: added). split.
    + eapply perm_trans; [apply insert_event_perm|]. simpl. apply perm_skip. exact Hperm.
    + constructor; [|exact Hall].
      left. exists c, (rng_draws (world s)). rewrite (static_now Hst). auto.
  - exists added. auto.
Qed.

Lemma replenish_added s0 lu c :
  In c (sources s0) ->
  preserves (grown_from s0) (fun _ => True) (replenish (lu, c)).
Proof.
  intros Hc. unfold replenish.
  apply preserves_bind; [apply preserves_gets|]. intros n.
  destruct (Z.of_nat lu <? n)%Z; [|apply preserves_ret].
  apply preserves_bind; [apply preserves_gets|]. intros n'.
  apply preserves_repeatM.
  destruct (has_schedule_event c) eqn:Hs.
  - rewrite (call_schedule_event_callable _ Hs). apply schedule_event_added; assumption.
  - unfold call_schedule_event. unfold has_schedule_event in Hs.
    destruct (schedule_event_attr c); try discriminate;
      apply preserves_raise; exact Logic.I.
Qed.

Lemma replenish_loop_added s0 l :
  (forall lu c, In (lu, c) l -> In c (sources s0)) ->
  preserves (grown_from s0) (fun _ => True) (forM_ replenish l).
Proof.
  induction l as [|[lu c] l IH]; intros Hl.
  - apply preserves_ret.
  - rewrite forM_cons. apply preserves_bind.
    + apply replenish_added. apply (Hl lu c). left. reflexivity.
    + intros _. apply IH. intros lu' c' Hin. apply (Hl lu' c'). right. exact Hin.
Qed.

Lemma schedule_swap_added s0 l r :
  In l (pairs_of (world s0)) -> In r (pairs_of (world s0)) ->
  preserves (grown_from s0) (fun _ => True) (schedule_swap (l, r)).
Proof.
  intros Hl Hr s [Hst (added & Hperm & Hall)]. split; [|intros; exact Logic.I].
  destruct (schedule_swap (l, r) s) as [res s'] eqn:H. simpl.
  apply schedule_swap_inv in H. destruct H as [(_ & _ & ->)|(_ & Hadd)].
  - split; [assumption|]. exists added. auto.
  - apply add_event_inv in Hadd. simpl in Hadd.
    destruct Hadd as (Hst' & _ & [(_ & _ & Hp)|(_ & _ & Hp)]).
    + split; [congruence|]. rewrite Hp. eexists (_ :: added). split.
      * eapply perm_trans; [apply insert_event_perm|]. simpl. apply perm_skip.
        exact Hperm.
      * constructor; [|exact Hall].
        right. exists l, r. rewrite (static_now Hst). auto.
    + split; [congruence|]. rewrite Hp. exists added. auto.
Qed.

Lemma swaps_loop_added s0 cands :
  (forall l r, In (l, r) cands ->
     In l (pairs_of (world s0)) /\ In r (pairs_of (world s0))) ->
  preserves (grown_from s0) (fun _ => True) (forM_ schedule_swap cands).
Proof.
  induction cands as [|[l r] cands IH]; intros Hc.
  - apply preserves_ret.
  - rewrite forM_cons. apply preserves_bind.
    + apply schedule_swap_added; apply (Hc l r); left; reflexivity.
    + intros _. apply IH. intros l' r' Hin. apply (Hc l' r'). right. exact Hin.
Qed.

Lemma pairs_between_registered (w : World) a b p :
  In p (pairs_between w a b) -> In p (pairs_of w).
Proof. unfold pairs_between. intros H. apply filter_In in H. apply H. Qed.

Lemma zip_at_registered s0 i j l r :
  In (l, r) (zip_at (link_pairs s0) i j) ->
  In l (pairs_of (world s0)) /\ In r (pairs_of (world s0)).
Proof.
  unfold zip_at, link_pairs.
  destruct (link_stations s0) as [links|]; [|destruct i, j; simpl; intros []].
  destruct (nth_error _ i) as [li|] eqn:Hi; [|intros []].
  destruct (nth_error _ j) as [lj|] eqn:Hj; [|intros []].
  intros Hin.
  apply nth_error_In in Hi. apply nth_error_In in Hj.
  apply in_map_iff in Hi. destruct Hi as (sti & <- & _).
  apply in_map_iff in Hj. destruct Hj as (stj & <- & _).
  split.
  - apply in_combine_l in Hin. apply pairs_between_registered in Hin. exact Hin.
  - apply in_combine_r in Hin. apply pairs_between_registered in Hin. exact Hin.
Qed.

Lemma central_candidates_registered s0 l r :
  In (l, r) (central_candidates s0) ->
  In l (pairs_of (world s0)) /\ In r (pairs_of (world s0)).
Proof.
  unfold central_candidates.
  destruct (station_ground_left s0), (sat_central s0), (station_ground_right s0);
    try (intros []).
  intros Hin. split.
  - apply in_combine_l in Hin. apply pairs_between_registered in Hin. exact Hin.
  - apply in_combine_r in Hin. apply pairs_between_registered in Hin. exact Hin.
Qed.

Lemma swapping_added s0 i j :
  preserves (grown_from s0) (fun _ => True)
    (swapping (map (@length Pair) (link_pairs s0)) (link_pairs s0) i j).
Proof.
  intros s Hs. split; [|intros; exact Logic.I].
  destruct (swapping_eq (link_pairs s0) i j s) as [E|E]; rewrite E; [|exact Hs].
  assert (Hc : forall l r, In (l, r) (zip_at (link_pairs s0) i j) ->
                 In l (pairs_of (world s0)) /\ In r (pairs_of (world s0)))
    by (intros l r; apply zip_at_registered).
  destruct (@swaps_loop_added s0 (zip_at (link_pairs s0) i j) Hc s Hs) as [H _].
  exact H.
Qed.

Lemma swapping_central_added s0 :
  preserves (grown_from s0) (fun _ => True) swapping_central.
Proof.
  intros s Hs. split; [|intros; exact Logic.I].
  destruct (swapping_central_eq s) as [E|E]; rewrite E; [|exact Hs].
  assert (Hcc : central_candidates s = central_candidates s0)
    by (apply central_candidates_static; apply Hs).
  rewrite Hcc.
  assert (Hc : forall l r, In (l, r) (central_candidates s0) ->
                 In l (pairs_of (world s0)) /\ In r (pairs_of (world s0)))
    by (intros l r; apply central_candidates_registered).
  destruct (@swaps_loop_added s0 (central_candidates s0) Hc s Hs) as [H _].
  exact H.
Qed.

(** The steps before the evaluation only add events, of the two kinds. *)
Lemma scheduling_steps_added s0 : grown_from s0 (snd (scheduling_steps s0)).
Proof.
  destruct (link_stations s0) as [links|] eqn:Hl;
    [|rewrite scheduling_steps_unset by assumption; apply grown_from_refl].
  rewrite (scheduling_steps_eq _ Hl).
  apply (@preserves_bind _ _ _ (grown_from s0) (fun _ => True)).
  - apply replenish_loop_added. intros lu c Hin. apply in_combine_r in Hin. exact Hin.
  - intros _. apply preserves_bind; [apply swapping_added|]. intros _.
    apply preserves_bind; [apply swapping_added|]. intros _.
    apply swapping_central_added.
  - apply grown_from_refl.
Qed.

(** The evaluation only takes pairs out of the registry. *)
Lemma evaluation_registry_shrinks s0 :
  incl (pairs_of (world (snd (evaluation s0)))) (pairs_of (world s0)).
Proof.
  apply (@preserves_evaluation _ (fun s => incl (pairs_of (world s)) (pairs_of (world s0)))
           (fun _ => True)); try exact Logic.I; try apply incl_refl.
  - intros p s Hs. split; [|intros; exact Logic.I].
    rewrite eval_pair_world. exact Hs.
  - intros q s Hs. split; [|intros; exact Logic.I].
    unfold on_world, destroy_qubit.
    destruct (bucket_Qubit (world_objects (world s))) as [l|]; simpl; [|exact Hs].
    destruct (in_dec Qubit_eq_dec q l); simpl; exact Hs.
  - intros p s Hs. split; [|intros; exact Logic.I].
    unfold on_world, destroy_pair.
    destruct (bucket_Pair (world_objects (world s))) as [l|] eqn:Hb; simpl;
      [|exact Hs].
    destruct (in_dec Pair_eq_dec p l); simpl; [|exact Hs].
    intros x Hx. unfold pairs_of in Hx. simpl in Hx.
    apply in_remove in Hx. apply Hs. unfold pairs_of. rewrite Hb. apply Hx.
Qed.
(** What a later pass can add, a pass entered in [self] can add. *)
Lemma added_by_check_mono self s e :
  now s = now self -> sources s = sources self ->
  incl (pairs_of (world s)) (pairs_of (world self)) ->
  added_by_check s e -> added_by_check self e.
Proof.
  intros Hn Hsrc Hp [(c & k & Hc & Hs & ->)|(l & r & Hl & Hr & ->)].
  - left. exists c, k. rewrite <- Hn, <- Hsrc. auto.
  - right. exists l, r. rewrite <- Hn. auto.
Qed.

Lemma check_pass_between_passes self s :
  between_passes self s -> between_passes self (snd (check_pass s)).
Proof.
  intros (Hn & Hsrc & Hp & added0 & Hperm0 & Hall0).
  assert (Hg := scheduling_steps_added s).
  destruct Hg as [Hst (added1 & Hperm1 & Hall1)].
  assert (Hmid : between_passes self (snd (scheduling_steps s))).
  { destruct (static_fields Hst) as (Hc & _ & Hw & Hn').
    repeat split.
    - congruence.
    - unfold config in Hc. congruence.
    - unfold pairs_of in *. rewrite Hw. exact Hp.
    - exists (added1 ++ added0). split.
      + rewrite <- app_assoc.
        eapply perm_trans; [exact Hperm1|]. apply Permutation_app_head. exact Hperm0.
      + apply Forall_app. split; [|exact Hall0].
        revert Hall1. apply Forall_impl. intros e.
        apply added_by_check_mono; assumption. }
  unfold check_pass, bind.
  destruct (scheduling_steps s) as [[[]|e] mid]; simpl in *; [|exact Hmid].
  destruct Hmid as (Hn' & Hsrc' & Hp' & Hq').
  assert (Hs := evaluation_scheduling mid). unfold scheduling in Hs.
  assert (Hr := evaluation_registry_shrinks mid).
  destruct (evaluation mid) as [r s']. simpl in *.
  assert (Hc : config s' = config mid) by congruence.
  assert (He : event_queue (world s') = event_queue (world mid)) by congruence.
  repeat split.
  - unfold now in *. rewrite He. exact Hn'.
  - unfold config in Hc. congruence.
  - intros x Hx. apply Hp'. apply Hr. exact Hx.
  - unfold pending in *. rewrite He. exact Hq'.
Qed.

Lemma check_between_passes fuel : forall self s r s',
  between_passes self s -> check fuel s = Some (r, s') -> between_passes self s'.
Proof.
  induction fuel as [|fuel IH]; intros self s r s' Hb H; simpl in H; [discriminate|].
  assert (Hb' : between_passes self (snd (check_pass s)))
    by (apply check_pass_between_passes; exact Hb).
  destruct (check_pass s) as [[[|]|e] s1]; simpl in Hb'.
  - eapply IH; eassumption.
  - inversion H; subst. exact Hb'.
  - inversion H; subst. exact Hb'.
Qed.

Lemma check_pending_incl fuel self r self' :
  check fuel self = Some (r, self') -> incl (pending self) (pending self').
Proof.
  intros H.
  apply (@preserves_check _ (fun s => incl (pending self) (pending s)) (fun _ => True))
    with (fuel := fuel) (self := self) (r := r);
    try exact Logic.I; try assumption; try apply incl_refl.
  - intros p s Hs. split; [|intros; exact Logic.I].
    unfold pending. rewrite eval_pair_world. exact Hs.
  - intros q s Hs. split; [|intros; exact Logic.I].
    unfold on_world, destroy_qubit.
    destruct (bucket_Qubit (world_objects (world s))) as [l|]; simpl; [|exact Hs].
    destruct (in_dec Qubit_eq_dec q l); simpl; exact Hs.
  - intros p s Hs. split; [|intros; exact Logic.I].
    unfold on_world, destroy_pair.
    destruct (bucket_Pair (world_objects (world s))) as [l|]; simpl; [|exact Hs].
    destruct (in_dec Pair_eq_dec p l); simpl; exact Hs.
  - intros e. apply pending_incl_add_event.
  - intros src. apply pending_incl_schedule_event.
Qed.

(** X8: whatever its outcome, a call of [check] leaves the clock alone and
    takes no event out of the queue: the queue it leaves holds, up to order,
    every event of the queue it found, as often as it was there, and a list
    of added events.  Every added event is either a [SourceEvent] that
    [schedule_event] built for one of the protocol's sources, or an
    [EntanglementSwappingEvent] scheduled at the current time for exactly two
    pairs that were registered when the call was entered. *)
Theorem check_only_adds_events (fuel : nat) (self self' : FourlinkProtocol)
    (r : Result unit) :
  check fuel self = Some (r, self') ->
  now self' = now self
  /\ exists added,
       Permutation (pending self') (added ++ pending self)
       /\ length (pending self') = length added + length (pending self)
       /\ forall e, In e added ->
            (exists c k,
                In c (sources self) /\ has_schedule_event c = true
                /\ e = SourceEvent (num_add (now self) (fst (time_distribution c k))) c
                         (state_generation c) (snd (time_distribution c k)))
            \/ (exists l r',
                   In l (pairs_of (world self)) /\ In r' (pairs_of (world self))
                   /\ e = EntanglementSwappingEvent (now self) [l; r']).
Proof.
  intros H.
  assert (Hb : between_passes self self).
  { repeat split; try apply incl_refl. exists []. split; [apply Permutation_refl|].
    constructor. }
  assert (Hb' : between_passes self self') by (eapply check_between_passes; eassumption).
  destruct Hb' as (Hn & _ & _ & added & Hperm & Hall).
  split; [exact Hn|]. exists added. split; [exact Hperm|]. split.
  - rewrite (Permutation_length Hperm). apply length_app.
  - intros e He. rewrite Forall_forall in Hall. apply (Hall e He).
Qed.
End Added.

(** ** A protocol object that has been set up *)

Section Configured.
Context {P : Platform}.

Lemma link_pairs_length self s0 s1 s2 s3 s4 :
  configured self s0 s1 s2 s3 s4 -> length (link_pairs self) = 4.
Proof.
  intros (_ & _ & _ & _ & _ & _ & Hl). unfold link_pairs. rewrite Hl. reflexivity.
Qed.

(** The loop of lines 134-137 does nothing when no link is below
    [num_memories]. *)
Lemma replenish_loop_idle l : forall self,
  (forall lu c, In (lu, c) l -> (num_memories self <= Z.of_nat lu)%Z) ->
  forM_ replenish l self = (Ok tt, self).
Proof.
  induction l as [|[lu c] l IH]; intros self Hl; [reflexivity|].
  rewrite forM_cons.
  assert (H1 : replenish (lu, c) self = (Ok tt, self)).
  { unfold replenish, bind, gets.
    assert (Hlu := Hl lu c (or_introl eq_refl)).
    apply Z.ltb_ge in Hlu. rewrite Hlu. reflexivity. }
  rewrite (bind_Ok _ _ _ H1). apply IH.
  intros lu' c' Hin. apply (Hl lu' c'). right. exact Hin.
Qed.

(** One pass on a settled state: nothing is scheduled, nothing evaluated. *)
Lemma check_pass_settled self s0 s1 s2 s3 s4 :
  configured self s0 s1 s2 s3 s4 ->
  (forall link, In link [(s0, s1); (s1, s2); (s2, s3); (s3, s4)] ->
     (num_memories self <= Z.of_nat (link_used self link))%Z) ->
  Forall (fun lr => scheduled_swap (pending self) lr = true) (swap_candidates self) ->
  pairs_between (world self) s0 s4 = [] ->
  check_pass self = (Ok false, self).
Proof.
  intros Hcfg Hcap Hsw Hnil.
  assert (Hlen := link_pairs_length Hcfg).
  destruct Hcfg as (_ & Hgl & _ & Hsc & _ & Hgr & Hl).
  unfold swap_candidates in Hsw. apply Forall_app in Hsw. destruct Hsw as [H1 Hsw].
  apply Forall_app in Hsw. destruct Hsw as [H2 H3].
  assert (HA : forM_ replenish
                 (combine (map (link_used self) [(s0, s1); (s1, s2); (s2, s3); (s3, s4)])
                    (sources self)) self = (Ok tt, self)).
  { apply replenish_loop_idle. intros lu c Hin.
    apply in_combine_l in Hin. apply in_map_iff in Hin.
    destruct Hin as (link & <- & Hin). apply Hcap. exact Hin. }
  assert (HB1 : swapping (map (@length Pair) (link_pairs self)) (link_pairs self) 0 1 self
                = (Ok tt, self)).
  { rewrite swapping_in_range by lia. apply swaps_loop_idle. exact H1. }
  assert (HB2 : swapping (map (@length Pair) (link_pairs self)) (link_pairs self) 2 3 self
                = (Ok tt, self)).
  { rewrite swapping_in_range by lia. apply swaps_loop_idle. exact H2. }
  assert (HC : swapping_central self = (Ok tt, self)).
  { rewrite (swapping_central_labelled _ Hgl Hsc Hgr). apply swaps_loop_idle. exact H3. }
  assert (Hsteps : scheduling_steps self = (Ok tt, self)).
  { rewrite (scheduling_steps_eq _ Hl).
    rewrite (bind_Ok _ _ _ HA), (bind_Ok _ _ _ HB1), (bind_Ok _ _ _ HB2). exact HC. }
  unfold check_pass. rewrite (bind_Ok _ _ _ Hsteps).
  apply evaluation_none with (gl := s0) (gr := s4); assumption.
Qed.

(** X9: a settled state is a fixed point of [check]: when setup has run, no
    link is below [num_memories], every combination of the three swapping
    loops has a pending swap and no pair is between the two ground stations,
    [check] returns normally after a single pass and leaves the protocol
    object and the world exactly as they were. *)
Theorem check_on_settled_state (fuel : nat) (self : FourlinkProtocol)
    (s0 s1 s2 s3 s4 : Station) :
  configured self s0 s1 s2 s3 s4 ->
  (forall link, In link [(s0, s1); (s1, s2); (s2, s3); (s3, s4)] ->
     (num_memories self <= Z.of_nat (link_used self link))%Z) ->
  (forall l r,
      In (l, r)
        (combine (pairs_between (world self) s0 s1) (pairs_between (world self) s1 s2)
         ++ combine (pairs_between (world self) s2 s3)
              (pairs_between (world self) s3 s4)
         ++ combine (pairs_between (world self) s0 s2)
              (pairs_between (world self) s2 s4)) ->
      existsb (is_swap_of l r) (pending self) = true) ->
  pairs_between (world self) s0 s4 = [] ->
  check (S fuel) self = Some (Ok tt, self).
Proof.
  intros Hcfg Hcap Hsw Hnil.
  assert (Hcands : Forall (fun lr => scheduled_swap (pending self) lr = true)
                     (swap_candidates self)).
  { apply Forall_forall. intros [l r] Hin. unfold scheduled_swap. simpl.
    apply Hsw. revert Hin.
    destruct Hcfg as (_ & Hgl & _ & Hsc & _ & Hgr & Hl).
    unfold swap_candidates, link_pairs, central_candidates, zip_at.
    rewrite Hl, Hgl, Hsc, Hgr. simpl. auto. }
  simpl. rewrite (check_pass_settled Hcfg Hcap Hcands Hnil). reflexivity.
Qed.

(** A call that returns normally ends with a pass that evaluates nothing,
    on a state with the configuration of the state it was entered in. *)
Lemma check_Ok_last_pass_config fuel : forall self self',
  check fuel self = Some (Ok tt, self') ->
  exists last, check_pass last = (Ok false, self') /\ config last = config self.
Proof.
  induction fuel as [|fuel IH]; intros self self' H; simpl in H; [discriminate|].
  assert (Hc := check_pass_config self).
  destruct (check_pass self) as [[[|]|e] s1] eqn:H1; simpl in Hc.
  - destruct (IH _ _ H) as (last & Hl & Hcl). exists last. split; [exact Hl|congruence].
  - inversion H; subst. exists self. auto.
  - discriminate.
Qed.

(** X10: on a chain of five distinct stations whose i-th source entangles
    the stations of the i-th link, [check] is idempotent: called again on the
    state a call that returned has left, it returns normally after a single
    pass and changes nothing at all, neither the queue, nor the registry, nor
    the logs, nor the random draws. *)
Theorem check_twice_on_chain (fuel1 fuel2 : nat) (self self1 : FourlinkProtocol)
    (s0 s1 s2 s3 s4 : Station) (c0 c1 c2 c3 : Source) :
  configured self s0 s1 s2 s3 s4 ->
  NoDup [s0; s1; s2; s3; s4] ->
  sources self = [c0; c1; c2; c3] ->
  target_stations c0 = [s0; s1] -> target_stations c1 = [s1; s2] ->
  target_stations c2 = [s2; s3] -> target_stations c3 = [s3; s4] ->
  check fuel1 self = Some (Ok tt, self1) ->
  check (S fuel2) self1 = Some (Ok tt, self1).
Proof.
  intros Hcfg Hnd Hsrc T0 T1 T2 T3 H.
  assert (Hc1 : config self1 = config self) by (eapply check_config; eassumption).
  assert (Hcfg1 : configured self1 s0 s1 s2 s3 s4)
    by (apply configured_config with (b := self); assumption).
  destruct (check_Ok_settled _ _ H) as (Hsw & gl & gr & Hgl & Hgr & Hnil).
  assert (gl = s0) by (destruct Hcfg1 as (_ & Hx & _); congruence).
  assert (gr = s4) by (destruct Hcfg1 as (_ & _ & _ & _ & _ & Hx & _); congruence).
  subst gl gr.
  destruct (check_Ok_last_pass_config _ _ H) as (last & Hlast & Hcl).
  assert (Hcfgl : configured last s0 s1 s2 s3 s4)
    by (apply configured_config with (b := self); assumption).
  assert (Hsrcl : sources last = [c0; c1; c2; c3])
    by (unfold config in Hcl; congruence).
  assert (Hnl : num_memories last = num_memories self1)
    by (unfold config in Hcl, Hc1; congruence).
  assert (Hcap : forall link, In link [(s0, s1); (s1, s2); (s2, s3); (s3, s4)] ->
                   (num_memories self1 <= Z.of_nat (link_used self1 link))%Z).
  { intros link Hin.
    rewrite (check_pass_capacity Hnd Hcfgl Hsrcl T0 T1 T2 T3 Hlast Hin), Hnl. lia. }
  simpl. rewrite (check_pass_settled Hcfg1 Hcap Hsw Hnil). reflexivity.
Qed.
End Configured.

(** ** What a set-up protocol object can raise, and what it schedules *)

Section Safety.
Context {P : Platform}.

Lemma check_from_pass (I : FourlinkProtocol -> Prop) (E : Exception -> Prop) :
  preserves I E check_pass ->
  forall fuel self r self',
    I self -> check fuel self = Some (r, self') ->
    I self' /\ (forall e, r = Raise e -> E e).
Proof.
  intros Hp. induction fuel as [|fuel IH]; intros self r self' HI H; simpl in H;
    [discriminate|].
  unfold preserves in Hp. destruct (Hp self HI) as [H1 H2].
  destruct (check_pass self) as [[[|]|e] s1]; simpl in *.
  - eapply IH; eauto.
  - inversion H; subst. split; [assumption|]. discriminate.
  - inversion H; subst. split; [assumption|]. intros e' He'. apply H2.
    inversion He'. reflexivity.
Qed.

Section OnConfigured.
Variable self0 : FourlinkProtocol.
Variables s0 s1 s2 s3 s4 : Station.
Hypothesis setup_done : configured self0 s0 s1 s2 s3 s4.
Hypothesis can_schedule : forall c, In c (sources self0) -> has_schedule_event c = true.

Lemma same_config_fields s :
  same_config self0 s ->
  sources s = sources self0
  /\ station_ground_left s = Some s0
  /\ sat_central s = Some s2
  /\ station_ground_right s = Some s4
  /\ link_stations s = Some [(s0, s1); (s1, s2); (s2, s3); (s3, s4)].
Proof.
  unfold same_config, config. intros H.
  destruct setup_done as (_ & Hgl & _ & Hsc & _ & Hgr & Hl).
  repeat split; congruence.
Qed.

Lemma add_event_configured e :
  preserves (same_config self0) raised_by_collaborators (on_world (add_event e)).
Proof.
  intros s Hs. destruct (on_world (add_event e) s) as [r s'] eqn:H. simpl.
  apply add_event_inv in H. destruct H as (Hst & _ & [(-> & _)|(-> & _)]).
  - split; [|discriminate]. unfold same_config, static in *. congruence.
  - split; [unfold same_config, static in *; congruence|].
    intros e' He. inversion He. left. reflexivity.
Qed.

Lemma schedule_event_configured c :
  preserves (same_config self0) raised_by_collaborators (on_world (schedule_event c)).
Proof.
  intros s Hs. destruct (on_world (schedule_event c) s) as [r s'] eqn:H. simpl.
  apply schedule_event_inv in H.
  destruct H as (Hst & _ & a & [(-> & _)|(-> & _)]).
  - split; [|discriminate]. unfold same_config, static in *. congruence.
  - split; [unfold same_config, static in *; congruence|].
    intros e' He. inversion He. left. reflexivity.
Qed.

Lemma replenish_loop_configured l :
  (forall lu c, In (lu, c) l -> has_schedule_event c = true) ->
  preserves (same_config self0) raised_by_collaborators (forM_ replenish l).
Proof.
  induction l as [|[lu c] l IH]; intros Hl.
  - apply preserves_ret.
  - rewrite forM_cons. apply preserves_bind.
    + unfold replenish.
      apply preserves_bind; [apply preserves_gets|]. intros n.
      destruct (Z.of_nat lu <? n)%Z; [|apply preserves_ret].
      apply preserves_bind; [apply preserves_gets|]. intros n'.
      apply preserves_repeatM.
      rewrite (call_schedule_event_callable _ (Hl lu c (or_introl eq_refl))).
      apply schedule_event_configured.
    + intros _. apply IH. intros lu' c' Hin. apply (Hl lu' c'). right. exact Hin.
Qed.

Lemma swaps_loop_configured cands :
  preserves (same_config self0) raised_by_collaborators (forM_ schedule_swap cands).
Proof.
  apply preserves_forM. intros lr. apply preserves_schedule_swap.
  apply add_event_configured.
Qed.

Lemma scheduling_steps_configured :
  preserves (same_config self0) raised_by_collaborators scheduling_steps.
Proof.
  intros s Hs.
  destruct (same_config_fields Hs) as (Hsrc & Hgl & Hsc & Hgr & Hl).
  rewrite (scheduling_steps_eq _ Hl).
  assert (Hlen : length (link_pairs s) = 4) by (unfold link_pairs; rewrite Hl; reflexivity).
  revert s Hs Hsrc Hgl Hsc Hgr Hl Hlen.
  intros s Hs Hsrc Hgl Hsc Hgr Hl Hlen.
  apply (@preserves_bind _ _ _ (same_config self0) raised_by_collaborators); [| |exact Hs].
  - apply replenish_loop_configured. intros lu c Hin.
    apply in_combine_r in Hin. apply can_schedule. rewrite <- Hsrc. exact Hin.
  - intros _.
    apply preserves_bind.
    { intros x Hx. rewrite swapping_in_range by lia.
      apply swaps_loop_configured. exact Hx. }
    intros _. apply preserves_bind.
    { intros x Hx. rewrite swapping_in_range by lia.
      apply swaps_loop_configured. exact Hx. }
    intros _ x Hx.
    destruct (same_config_fields Hx) as (_ & Hgl' & Hsc' & Hgr' & _).
    rewrite (swapping_central_labelled _ Hgl' Hsc' Hgr').
    apply swaps_loop_configured. exact Hx.
Qed.

Lemma eval_pair_configured p :
  preserves (same_config self0) raised_by_collaborators (_eval_pair p).
Proof.
  intros s Hs.
  destruct (same_config_fields Hs) as (_ & Hgl & Hsc & Hgr & _).
  assert (H : fst (_eval_pair p s) = Ok tt /\ config (snd (_eval_pair p s)) = config s).
  { unfold _eval_pair, bind, getattr, gets, modify.
    repeat (progress (simpl; rewrite ?Hsc, ?Hgl, ?Hgr)).
    split; reflexivity. }
  destruct H as [H1 H2]. split.
  - unfold same_config in *. congruence.
  - intros e He. rewrite H1 in He. discriminate.
Qed.

Lemma destroy_qubit_configured q :
  preserves (same_config self0) raised_by_collaborators (on_world (destroy_qubit q)).
Proof.
  intros s Hs. unfold on_world, destroy_qubit.
  destruct (bucket_Qubit (world_objects (world s))) as [l|]; simpl;
    [destruct (in_dec Qubit_eq_dec q l); simpl|];
    (split; [exact Hs|]); intros e He; inversion He; right; reflexivity.
Qed.

Lemma destroy_pair_configured p :
  preserves (same_config self0) raised_by_collaborators (on_world (destroy_pair p)).
Proof.
  intros s Hs. unfold on_world, destroy_pair.
  destruct (bucket_Pair (world_objects (world s))) as [l|]; simpl;
    [destruct (in_dec Pair_eq_dec p l); simpl|];
    (split; [exact Hs|]); intros e He; inversion He; right; reflexivity.
Qed.

Lemma evaluation_configured :
  preserves (same_config self0) raised_by_collaborators evaluation.
Proof.
  intros s Hs.
  destruct (same_config_fields Hs) as (_ & Hgl & _ & Hgr & _).
  unfold evaluation.
  rewrite (bind_Ok _ _ _ (getattr_Some _ _ Hgl)).
  rewrite (bind_Ok _ _ _ (getattr_Some _ _ Hgr)).
  rewrite (bind_Ok _ _ _ (get_pairs_between_eq _ _ _)).
  destruct (pairs_between (world s) s0 s4) as [|p l].
  - split; [exact Hs|]. simpl. discriminate.
  - apply (@preserves_bind _ _ _ (same_config self0) raised_by_collaborators); [| |exact Hs].
    + apply preserves_forM. intros p'. apply preserves_evaluate.
      * apply eval_pair_configured.
      * apply destroy_qubit_configured.
      * apply destroy_pair_configured.
    + intros _. apply preserves_ret.
Qed.

Lemma check_pass_configured :
  preserves (same_config self0) raised_by_collaborators check_pass.
Proof.
  unfold check_pass. apply preserves_bind.
  - apply scheduling_steps_configured.
  - intros _. apply evaluation_configured.
Qed.
End OnConfigured.

(** X11: once [setup] has run and every source has a [schedule_event]
    method, [check] raises nothing of its own: a call that raises ends in
    what the event queue raises on an event before the current time
    ([InvalidScheduleError]) or in what the registry raises on an object that
    is not registered ([DoubleDestroyError]), never in [AttributeError],
    [IndexError], [KeyError] or [AssertionError]. *)
Theorem check_raises_only_collaborator_errors (fuel : nat)
    (self self' : FourlinkProtocol) (s0 s1 s2 s3 s4 : Station) (e : Exception) :
  configured self s0 s1 s2 s3 s4 ->
  (forall c, In c (sources self) -> has_schedule_event c = true) ->
  check fuel self = Some (Raise e, self') ->
  e = InvalidScheduleError \/ e = DoubleDestroyError.
Proof.
  intros Hcfg Hs H.
  assert (Hp := check_pass_configured Hcfg Hs).
  assert (H0 : same_config self self) by reflexivity.
  destruct (@check_from_pass _ _ Hp fuel self (Raise e) self' H0 H) as [_ He].
  apply (He e). reflexivity.
Qed.

(** X12: when [check] returns, every swap it exists to schedule is
    scheduled: for each pair of link 1 and the pair of link 2 at the same
    position, and likewise for links 3 and 4 and for the two halves of the
    chain, the queue holds an [EntanglementSwappingEvent] whose pairs include
    both. *)
Theorem check_schedules_every_swap (fuel : nat) (self self' : FourlinkProtocol)
    (s0 s1 s2 s3 s4 : Station) :
  configured self s0 s1 s2 s3 s4 ->
  check fuel self = Some (Ok tt, self') ->
  forall l r,
    In (l, r)
      (combine (pairs_between (world self') s0 s1) (pairs_between (world self') s1 s2)
       ++ combine (pairs_between (world self') s2 s3) (pairs_between (world self') s3 s4)
       ++ combine (pairs_between (world self') s0 s2)
            (pairs_between (world self') s2 s4)) ->
    exists t pairs,
      In (EntanglementSwappingEvent t pairs) (pending self')
      /\ In l pairs /\ In r pairs.
Proof.
  intros Hcfg H l r Hin.
  assert (Hc : config self' = config self) by (eapply check_config; eassumption).
  assert (Hcfg' : configured self' s0 s1 s2 s3 s4)
    by (apply configured_config with (b := self); assumption).
  destruct (check_Ok_settled _ _ H) as (Hsw & _).
  assert (Hin' : In (l, r) (swap_candidates self')).
  { destruct Hcfg' as (_ & Hgl & _ & Hsc & _ & Hgr & Hl).
    unfold swap_candidates, link_pairs, central_candidates, zip_at.
    rewrite Hl, Hgl, Hsc, Hgr. simpl. exact Hin. }
  rewrite Forall_forall in Hsw. specialize (Hsw _ Hin').
  unfold scheduled_swap in Hsw. simpl in Hsw.
  apply existsb_exists in Hsw. destruct Hsw as (ev & Hev & Hsw).
  destruct ev as [| t ps |]; simpl in Hsw; try discriminate.
  apply andb_prop in Hsw. destruct Hsw as [Hl' Hr'].
  exists t, ps. split; [exact Hev|].
  unfold pair_in, pair_eqb in *.
  apply existsb_exists in Hl'. destruct Hl' as (x & Hx & Hxl).
  apply existsb_exists in Hr'. destruct Hr' as (y & Hy & Hyr).
  destruct (Pair_eq_dec l x); [|discriminate].
  destruct (Pair_eq_dec r y); [|discriminate].
  subst. auto.
Qed.
End Safety.

(** ** Calls that schedule no source, and calls that evaluate nothing *)

Section Quiet.
Context {P : Platform}.

Lemma swapping_filter f lists i j self :
  (forall t ps, f (EntanglementSwappingEvent t ps) = false) ->
  filter f (pending (snd (swapping (map (@length Pair) lists) lists i j self)))
  = filter f (pending self).
Proof.
  intros Hf. destruct (swapping_eq lists i j self) as [-> | ->].
  - apply swaps_loop_filter. exact Hf.
  - reflexivity.
Qed.

Lemma swapping_central_filter f self :
  (forall t ps, f (EntanglementSwappingEvent t ps) = false) ->
  filter f (pending (snd (swapping_central self))) = filter f (pending self).
Proof.
  intros Hf. destruct (swapping_central_eq self) as [-> | ->].
  - apply swaps_loop_filter. exact Hf.
  - reflexivity.
Qed.

Lemma evaluation_pending self : pending (snd (evaluation self)) = pending self.
Proof.
  assert (H := evaluation_scheduling self). unfold scheduling in H.
  unfold pending. congruence.
Qed.

Lemma bind_keeps T (F : FourlinkProtocol -> T) A B (m : M A) (k : A -> M B) x :
  F (snd (m x)) = F x ->
  (forall a y, F (snd (k a y)) = F y) ->
  F (snd (bind m k x)) = F x.
Proof.
  unfold bind. destruct (m x) as [[a|e] y]; simpl; intros H1 H2.
  - rewrite H2. exact H1.
  - exact H1.
Qed.

Lemma check_pass_no_memory self :
  (num_memories self <= 0)%Z ->
  filter is_source_event (pending (snd (check_pass self)))
  = filter is_source_event (pending self).
Proof.
  intros Hn.
  assert (Hsw : forall t ps, is_source_event (EntanglementSwappingEvent t ps) = false)
    by reflexivity.
  unfold check_pass.
  apply (@bind_keeps _ (fun x => filter is_source_event (pending x))).
  - destruct (link_stations self) as [links|] eqn:Hl.
    + rewrite (scheduling_steps_eq _ Hl).
      assert (HA : forM_ replenish
                     (combine (map (link_used self) links) (sources self)) self
                   = (Ok tt, self)).
      { apply replenish_loop_idle. intros lu c _. lia. }
      rewrite (bind_Ok _ _ _ HA).
      apply (@bind_keeps _ (fun x => filter is_source_event (pending x))).
      { apply swapping_filter. exact Hsw. }
      intros _ y.
      apply (@bind_keeps _ (fun x => filter is_source_event (pending x))).
      { apply swapping_filter. exact Hsw. }
      intros _ z. apply swapping_central_filter. exact Hsw.
    + rewrite (scheduling_steps_unset _ Hl). reflexivity.
  - intros _ y. rewrite evaluation_pending. reflexivity.
Qed.

(** X13: with [num_memories] at most 0 no link is ever short of memories,
    so [check] asks no source for a pair: the [SourceEvent]s of the queue
    are the same before and after the call, however it ends. *)
Theorem check_without_memories (fuel : nat) (self self' : FourlinkProtocol)
    (r : Result unit) :
  (num_memories self <= 0)%Z ->
  check fuel self = Some (r, self') ->
  filter is_source_event (pending self') = filter is_source_event (pending self).
Proof.
  revert self. induction fuel as [|fuel IH]; intros self Hn H; simpl in H;
    [discriminate|].
  assert (Hp := @check_pass_no_memory self Hn).
  assert (Hc := check_pass_config self).
  destruct (check_pass self) as [[[|]|e] s1]; simpl in *.
  - rewrite <- Hp. apply IH; [|exact H].
    unfold config in Hc. replace (num_memories s1) with (num_memories self) by congruence.
    exact Hn.
  - inversion H; subst. exact Hp.
  - inversion H; subst. exact Hp.
Qed.

Lemma check_pass_nothing_to_evaluate self gl gr :
  station_ground_left self = Some gl ->
  station_ground_right self = Some gr ->
  pairs_between (world self) gl gr = [] ->
  static (snd (check_pass self)) = static self
  /\ fst (check_pass self) <> Ok true.
Proof.
  intros Hgl Hgr Hnil.
  assert (Hst := scheduling_steps_static self).
  unfold check_pass, bind.
  destruct (scheduling_steps self) as [[[]|e] mid]; simpl in *.
  - assert (Hev : evaluation mid = (Ok false, mid)).
    { unfold static, config in Hst.
      apply evaluation_none with (gl := gl) (gr := gr); try congruence.
      unfold pairs_between, pairs_of in *.
      replace (world_objects (world mid)) with (world_objects (world self)) by congruence.
      exact Hnil. }
    rewrite Hev. simpl. split; [exact Hst|discriminate].
  - split; [exact Hst|discriminate].
Qed.

(** X14: when no pair lies between the two ground stations, [check] is a
    single pass that evaluates nothing: whatever its outcome, the registry,
    the four logs, the configuration and the clock are as before the call,
    and the call made no nested call. *)
Theorem check_with_nothing_to_evaluate (fuel : nat) (self self' : FourlinkProtocol)
    (gl gr : Station) (r : Result unit) :
  station_ground_left self = Some gl ->
  station_ground_right self = Some gr ->
  pairs_between (world self) gl gr = [] ->
  check (S fuel) self = Some (r, self') ->
  world_objects (world self') = world_objects (world self)
  /\ logs self' = logs self
  /\ config self' = config self
  /\ now self' = now self
  /\ check 1 self = Some (r, self').
Proof.
  intros Hgl Hgr Hnil H.
  destruct (@check_pass_nothing_to_evaluate self gl gr Hgl Hgr Hnil) as [Hst Hne].
  simpl in *.
  destruct (check_pass self) as [[[|]|e] s1]; simpl in *.
  - exfalso. apply Hne. reflexivity.
  - inversion H; subst. unfold static in Hst.
    repeat split; congruence.
  - inversion H; subst. unfold static in Hst.
    repeat split; congruence.
Qed.

(** X16: the two queries of a link do not depend on the order in which
    the link's two stations are given: the registered pairs and the pending
    source events found for [(station1, station2)] are those found for
    [(station2, station1)]. *)
Theorem link_queries_symmetric (station1 station2 : Station) (self : FourlinkProtocol) :
  _get_pairs_between_stations station1 station2 self
  = _get_pairs_between_stations station2 station1 self
  /\ _get_pairs_scheduled station1 station2 self
     = _get_pairs_scheduled station2 station1 self.
Proof.
  rewrite !get_pairs_between_eq, !get_pairs_scheduled_eq. split; f_equal; f_equal.
  - unfold pairs_between. apply filter_ext. intros p.
    unfold is_between_stations. destruct (pair_stations p) as [a b].
    rewrite orb_comm. f_equal; apply andb_comm.
  - unfold scheduled_for. apply filter_ext. intros ev.
    destruct ev; simpl; try reflexivity. apply andb_comm.
Qed.

(** X17: [check] destroys long-range pairs and nothing else: when it
    returns, the registered pairs are exactly the pairs that were registered
    before and are not between the two ground stations, and the registered
    qubits are among those registered before. *)
Theorem check_destroys_only_long_range (fuel : nat) (self self' : FourlinkProtocol)
    (sc gl gr : Station) :
  sat_central self = Some sc ->
  station_ground_left self = Some gl ->
  station_ground_right self = Some gr ->
  check fuel self = Some (Ok tt, self') ->
  (forall p, In p (pairs_of (world self'))
             <-> In p (pairs_of (world self)) /\ is_between_stations p gl gr = false)
  /\ incl (qubits_of (world self')) (qubits_of (world self)).
Proof.
  intros Hsc Hgl Hgr H.
  destruct (check_Ok_inv _ _ Hsc Hgl Hgr H) as (_ & _ & Hp & Hq & _).
  split.
  - intros p. rewrite Hp, in_remove_pairs. unfold pairs_between.
    rewrite filter_In. split.
    + intros [Hin Hn]. split; [exact Hin|].
      destruct (is_between_stations p gl gr); [|reflexivity].
      exfalso. apply Hn. split; [exact Hin|reflexivity].
    + intros [Hin Hb]. split; [exact Hin|]. intros [_ Hb']. congruence.
  - intros q Hin. rewrite Hq in Hin. apply in_remove_qubits in Hin. apply Hin.
Qed.
End Quiet.

(** ** The link budget *)

Section Budget.
Context {P : Platform}.
Variable np_tan : num -> num.
Variable num_mul : num -> num -> num.
Variable num_pow : num -> nat -> num.
Variable one : num.

(** X15: [eta_dif] never reports an efficiency above 1: whatever the
    distance, the divergence and the two apertures, 1 is not below the
    result, given only that 1 is not below itself. *)
Theorem eta_dif_at_most_one (distance divergence_half_angle sender_aperture_radius
    receiver_aperture_radius : num) :
  num_ltb one one = false ->
  num_ltb one
    (eta_dif np_tan num_mul num_pow one distance divergence_half_angle
       sender_aperture_radius receiver_aperture_radius) = false.
Proof.
  intros H1. unfold eta_dif.
  set (x := num_add sender_aperture_radius
              (num_mul distance (np_tan divergence_half_angle))).
  set (arriving_fraction := num_div (num_pow receiver_aperture_radius 2) (num_pow x 2)).
  destruct (num_ltb one arriving_fraction) eqn:Hlt.
  - exact H1.
  - exact Hlt.
Qed.
End Budget.

(** ** The claims on the concrete chain *)

Section Examples.
#[local] Existing Instance ZP.

Lemma ex_stations_distinct :
  NoDup [ex_station 0; ex_station 1; ex_station 2; ex_station 3; ex_station 4].
Proof.
  repeat (constructor; [simpl; intuition discriminate|]). constructor.
Qed.

Lemma ex_sources_admissible (self : @FourlinkProtocol ZP) (c : @Source ZP) :
  (0 <= now self)%Z -> In c ex_sources -> admissible self c.
Proof.
  intros Hnow Hin. unfold ex_sources in Hin. simpl in Hin.
  destruct Hin as [<-|[<-|[<-|[<-|[]]]]]; (split; [reflexivity|]);
    intros n; apply Z.ltb_ge; simpl; lia.
Qed.

(** C1, as stated, fails: with three pairs on link 1 and two memories per
    link, [check] returns and link 1 still counts three. *)
Lemma capacity_counterexample :
  check 2 ex_crowded = Some (Ok tt, after_check ex_crowded)
  /\ (0 < num_memories ex_crowded)%Z
  /\ (num_memories ex_crowded
      < Z.of_nat (link_used (after_check ex_crowded) (ex_station 0, ex_station 1)))%Z.
Proof. vm_compute. repeat split. Qed.

(** The capacity theorem on the chain with one pair on link 1 and one on
    link 2. *)
Lemma capacity_witness :
  configured ex_two_pairs (ex_station 0) (ex_station 1) (ex_station 2)
    (ex_station 3) (ex_station 4)
  /\ check 2 ex_two_pairs = Some (Ok tt, after_check ex_two_pairs)
  /\ forall link,
       In link [(ex_station 0, ex_station 1); (ex_station 1, ex_station 2);
                (ex_station 2, ex_station 3); (ex_station 3, ex_station 4)] ->
       Z.of_nat (link_used (after_check ex_two_pairs) link)
       = Z.max (Z.of_nat (link_used ex_two_pairs link)) (num_memories ex_two_pairs).
Proof.
  assert (Hcfg : configured ex_two_pairs (ex_station 0) (ex_station 1) (ex_station 2)
                   (ex_station 3) (ex_station 4)) by (repeat split).
  assert (Hcheck : check 2 ex_two_pairs = Some (Ok tt, after_check ex_two_pairs))
    by (vm_compute; reflexivity).
  split; [exact Hcfg|]. split; [exact Hcheck|].
  exact (@link_used_after_check ZP 2 ex_two_pairs (after_check ex_two_pairs)
           (ex_station 0) (ex_station 1) (ex_station 2) (ex_station 3) (ex_station 4)
           (ex_source 0) (ex_source 1) (ex_source 2) (ex_source 3)
           Hcfg ex_stations_distinct eq_refl eq_refl eq_refl eq_refl eq_refl Hcheck).
Defined.
(** Two calls in a row on the chain with one pair on link 1 and one on
    link 2. *)
Lemma second_check_witness :
  check 2 ex_two_pairs = Some (Ok tt, after_check ex_two_pairs)
  /\ check 2 (after_check ex_two_pairs)
     = Some (Ok tt, after_check (after_check ex_two_pairs))
  /\ pending_swaps (after_check (after_check ex_two_pairs))
     = pending_swaps (after_check ex_two_pairs)
  /\ length (pending_swaps (after_check (after_check ex_two_pairs)))
     = length (pending_swaps (after_check ex_two_pairs)).
Proof.
  assert (H1 : check 2 ex_two_pairs = Some (Ok tt, after_check ex_two_pairs))
    by (vm_compute; reflexivity).
  assert (H2 : check 2 (after_check ex_two_pairs)
               = Some (Ok tt, after_check (after_check ex_two_pairs)))
    by (vm_compute; reflexivity).
  split; [exact H1|]. split; [exact H2|].
  exact (@second_check_schedules_no_swap ZP 2 2 ex_two_pairs (after_check ex_two_pairs)
           (after_check (after_check ex_two_pairs)) (Ok tt) H1 H2).
Defined.

(** The first scenario on the concrete chain. *)
Lemma first_check_witness :
  fst (setup (init (ex_world []) 2 ex_stations
                [ex_source 0; ex_source 1; ex_source 2; ex_source 3])) = Ok tt
  /\ exists self',
       (forall fuel, 1 <= fuel ->
          check fuel (snd (setup (init (ex_world []) 2 ex_stations
                                    [ex_source 0; ex_source 1; ex_source 2; ex_source 3])))
          = Some (Ok tt, self'))
       /\ (forall c, In c [ex_source 0; ex_source 1; ex_source 2; ex_source 3] ->
             length (filter (is_event_of c) (pending self')) = 2)
       /\ length (pending self') = 8
       /\ length (filter is_source_event (pending self')) = 8
       /\ pending_swaps self' = []
       /\ logs self' = ([], [], [], []).
Proof.
  apply (@first_check_of_chain ZP (ex_world []) ex_stations
           (ex_source 0) (ex_source 1) (ex_source 2) (ex_source 3)).
  - reflexivity.
  - repeat (constructor; [simpl; intuition discriminate|]). constructor.
  - reflexivity.
  - reflexivity.
  - intros c Hin. apply ex_sources_admissible; [vm_compute; discriminate|exact Hin].
Defined.

(** C5, as stated, fails: with one pair on each of the four links the
    conditions of the claim hold for the pairs of links 1 and 2, and [check]
    schedules two swaps, the second one for the pairs of links 3 and 4. *)
Lemma one_swap_counterexample :
  pairs_between (world ex_four_pairs) (ex_station 0) (ex_station 1) = [ex_pair 1 0 1]
  /\ pairs_between (world ex_four_pairs) (ex_station 1) (ex_station 2) = [ex_pair 2 1 2]
  /\ pending_swaps ex_four_pairs = []
  /\ check 2 ex_four_pairs = Some (Ok tt, after_check ex_four_pairs)
  /\ pending_swaps (after_check ex_four_pairs)
     = [EntanglementSwappingEvent 5%Z [ex_pair 1 0 1; ex_pair 2 1 2];
        EntanglementSwappingEvent 5%Z [ex_pair 3 2 3; ex_pair 4 3 4]]
  /\ length (pending_swaps (after_check ex_four_pairs)) = 2.
Proof.
  split; [reflexivity|]. split; [reflexivity|]. split; [reflexivity|].
  split; [vm_compute; reflexivity|]. split; vm_compute; reflexivity.
Qed.

(** The second scenario on the concrete chain, with one more pair on
    link 3: it has no partner on link 4, and one swap is scheduled. *)
Lemma one_swap_witness :
  pairs_between (world ex_three_pairs) (ex_station 0) (ex_station 1) = [ex_pair 1 0 1]
  /\ pairs_between (world ex_three_pairs) (ex_station 1) (ex_station 2) = [ex_pair 2 1 2]
  /\ pairs_between (world ex_three_pairs) (ex_station 2) (ex_station 3) = [ex_pair 3 2 3]
  /\ scheduled_swap (pending ex_three_pairs) (ex_pair 1 0 1, ex_pair 2 1 2) = false
  /\ exists r self',
       (forall fuel, 2 <= fuel -> check fuel ex_three_pairs = Some (r, self'))
       /\ (pairs_between (world ex_three_pairs) (ex_station 0) (ex_station 4) = [] ->
           check 1 ex_three_pairs = Some (Ok tt, self'))
       /\ exists before after,
            pending_swaps ex_three_pairs = before ++ after
            /\ pending_swaps self'
               = before
                 ++ EntanglementSwappingEvent (now ex_three_pairs)
                      [ex_pair 1 0 1; ex_pair 2 1 2] :: after.
Proof.
  split; [reflexivity|]. split; [reflexivity|]. split; [reflexivity|].
  split; [reflexivity|].
  apply (@one_swap_scheduled ZP ex_three_pairs (ex_station 0) (ex_station 1)
           (ex_station 2) (ex_station 3) (ex_station 4) (ex_pair 1 0 1) (ex_pair 2 1 2)).
  - repeat split.
  - exact ex_stations_distinct.
  - intros c Hin. apply ex_sources_admissible; [vm_compute; discriminate|exact Hin].
  - reflexivity.
  - reflexivity.
  - reflexivity.
  - reflexivity.
  - simpl. constructor.
Defined.

(** The order of the integers, and the division by 3. *)
Lemma ZP_ordered :
  (forall x : Z, (x <? x)%Z = false)
  /\ (forall x y : Z, (x <? y)%Z = false -> (y <? x)%Z = false -> x = y)
  /\ (forall x y : Z, (x <? y)%Z = true -> (y / 3 <? x / 3)%Z = false).
Proof.
  split; [|split].
  - intros x. apply Z.ltb_irrefl.
  - intros x y H1 H2. apply Z.ltb_ge in H1. apply Z.ltb_ge in H2. lia.
  - intros x y H. apply Z.ltb_lt in H. apply Z.ltb_ge.
    apply Z.div_le_mono; lia.
Qed.

(** One pair between the ground stations of a chain whose right ground
    station is further from the central satellite than the left one: the
    delays are 600 / 3 and 1500 / 3, the pair is logged at time 5 + 500 and
    destroyed with its qubits. *)
Lemma long_range_witness :
  check 2 ex_uneven = Some (Ok tt, after_check ex_uneven)
  /\ pairs_between (world ex_uneven) (ex_station 0) (ex_station 7) = [ex_pair 1 0 7]
  /\ delay (ex_station 2) (ex_station 0) = 200%Z
  /\ delay (ex_station 2) (ex_station 7) = 500%Z
  /\ time_list (after_check ex_uneven) = [(5 + 500)%Z]
  /\ state_list (after_check ex_uneven) = [11]
  /\ resource_cost_max_list (after_check ex_uneven) = [1%Z]
  /\ resource_cost_add_list (after_check ex_uneven) = [2%Z]
  /\ pairs_of (world (after_check ex_uneven)) = []
  /\ qubits_of (world (after_check ex_uneven)) = []
  /\ ((forall x : Z, num_ltb x x = false)
      /\ (forall x y : Z, num_ltb x y = false -> num_ltb y x = false -> x = y)
      /\ (forall x y : Z, num_ltb x y = true ->
                          num_ltb (num_div y C) (num_div x C) = false))
  /\ (let long_range_pairs :=
        pairs_between (world ex_uneven) (ex_station 0) (ex_station 7) in
      let comm_time :=
        num_div (np_max2 (distance (ex_station 2) (ex_station 0))
                   (distance (ex_station 2) (ex_station 7))) C in
      time_list (after_check ex_uneven)
      = time_list ex_uneven
        ++ map (fun _ => num_add (now ex_uneven) comm_time) long_range_pairs
      /\ state_list (after_check ex_uneven)
         = state_list ex_uneven ++ map state long_range_pairs
      /\ resource_cost_max_list (after_check ex_uneven)
         = resource_cost_max_list ex_uneven ++ map resource_cost_max long_range_pairs
      /\ resource_cost_add_list (after_check ex_uneven)
         = resource_cost_add_list ex_uneven ++ map resource_cost_add long_range_pairs
      /\ (forall p, In p long_range_pairs ->
            ~ In p (pairs_of (world (after_check ex_uneven)))
            /\ ~ In (fst (qubits p)) (qubits_of (world (after_check ex_uneven)))
            /\ ~ In (snd (qubits p)) (qubits_of (world (after_check ex_uneven))))
      /\ ((forall x, num_ltb x x = false) ->
          (forall x y, num_ltb x y = false -> num_ltb y x = false -> x = y) ->
          (forall x y, num_ltb x y = true ->
                       num_ltb (num_div y C) (num_div x C) = false) ->
          (comm_time = delay (ex_station 2) (ex_station 0)
           \/ comm_time = delay (ex_station 2) (ex_station 7))
          /\ num_ltb comm_time (delay (ex_station 2) (ex_station 0)) = false
          /\ num_ltb comm_time (delay (ex_station 2) (ex_station 7)) = false)).
Proof.
  assert (Hcheck : check 2 ex_uneven = Some (Ok tt, after_check ex_uneven))
    by (vm_compute; reflexivity).
  split; [exact Hcheck|]. do 9 (split; [reflexivity|]).
  split; [exact ZP_ordered|].
  exact (@long_range_pairs_evaluated ZP 2 ex_uneven (after_check ex_uneven)
           (ex_station 2) (ex_station 0) (ex_station 7) eq_refl eq_refl eq_refl Hcheck).
Defined.

(** A protocol object on a world whose registry has no entry for pairs. *)
Lemma unregistered_witness :
  bucket_Pair (world_objects (world (init ex_world_unregistered 2 ex_stations ex_sources)))
  = None
  /\ _get_pairs_between_stations (ex_station 0) (ex_station 1)
       (init ex_world_unregistered 2 ex_stations ex_sources)
     = (Ok [], init ex_world_unregistered 2 ex_stations ex_sources)
  /\ (forall fuel r self',
        check fuel (init ex_world_unregistered 2 ex_stations ex_sources)
        = Some (r, self') ->
        r <> Raise KeyError).
Proof.
  split; [reflexivity|].
  exact (@get_pairs_without_Pair_entry ZP
           (init ex_world_unregistered 2 ex_stations ex_sources)
           (ex_station 0) (ex_station 1) eq_refl).
Defined.

(** C8, as stated, fails: with four stations, and with an object without
    [schedule_event] among the sources, [setup] raises [AssertionError],
    which is neither [TopologyError] nor [InterfaceError]. *)
Lemma setup_counterexample :
  fst (setup (init (ex_world []) 2 (map ex_station (seq 0 4)) ex_sources))
  = Raise AssertionError
  /\ fst (setup (init (ex_world []) 2 ex_stations
                  [ex_source 0; ex_source 1; ex_not_a_source; ex_source 3]))
     = Raise AssertionError
  /\ @Raise unit AssertionError <> Raise TopologyError
  /\ @Raise unit AssertionError <> Raise InterfaceError.
Proof. repeat split; try reflexivity; discriminate. Qed.

(** C9, as stated, fails: [check] before [setup] raises [AttributeError],
    not [NotInitializedError]. *)
Lemma check_before_setup_counterexample :
  check 1 (init (ex_world []) 2 ex_stations ex_sources)
  = Some (Raise AttributeError, init (ex_world []) 2 ex_stations ex_sources)
  /\ @Raise unit AttributeError <> Raise NotInitializedError.
Proof. split; [reflexivity|discriminate]. Qed.

(** ** The further properties on the concrete chain *)

Lemma ex_two_pairs_configured :
  configured ex_two_pairs (ex_station 0) (ex_station 1) (ex_station 2)
    (ex_station 3) (ex_station 4).
Proof. repeat split. Qed.

Lemma ex_two_pairs_check :
  check 2 ex_two_pairs = Some (Ok tt, after_check ex_two_pairs).
Proof. vm_compute. reflexivity. Qed.

(** [setup] twice on the chain. *)
Lemma setup_twice_witness :
  fst (setup (init (ex_world []) 2 ex_stations ex_sources)) = Ok tt
  /\ setup (ex_protocol []) = (Ok tt, ex_protocol []).
Proof.
  split; [reflexivity|].
  exact (@setup_twice ZP (init (ex_world []) 2 ex_stations ex_sources) eq_refl).
Defined.

(** [setup] with four stations, then [check]. *)
Lemma check_after_failed_setup_witness :
  link_stations ex_four_stations = None
  /\ fst (setup ex_four_stations) = Raise AssertionError
  /\ AssertionError = AssertionError
  /\ check 1 (snd (setup ex_four_stations))
     = Some (Raise AttributeError, snd (setup ex_four_stations)).
Proof.
  split; [reflexivity|]. split; [reflexivity|].
  exact (@check_after_failed_setup ZP ex_four_stations AssertionError 0 eq_refl eq_refl).
Defined.

(** [setup] with five stations and one source. *)
Lemma setup_fails_after_labelling_witness :
  stations ex_one_source
  = [ex_station 0; ex_station 1; ex_station 2; ex_station 3; ex_station 4]
  /\ length (sources ex_one_source) <> 4
  /\ fst (setup ex_one_source) = Raise AssertionError
  /\ station_ground_left (snd (setup ex_one_source)) = Some (ex_station 0)
  /\ sat_left (snd (setup ex_one_source)) = Some (ex_station 1)
  /\ sat_central (snd (setup ex_one_source)) = Some (ex_station 2)
  /\ sat_right (snd (setup ex_one_source)) = Some (ex_station 3)
  /\ station_ground_right (snd (setup ex_one_source)) = Some (ex_station 4)
  /\ source_links (snd (setup ex_one_source)) = source_links ex_one_source
  /\ link_stations (snd (setup ex_one_source)) = link_stations ex_one_source.
Proof.
  assert (Hlen : length (sources ex_one_source) <> 4) by (simpl; lia).
  split; [reflexivity|]. split; [exact Hlen|].
  exact (@setup_fails_after_labelling ZP ex_one_source (ex_station 0) (ex_station 1)
           (ex_station 2) (ex_station 3) (ex_station 4) eq_refl Hlen).
Defined.

(** The configuration after [check] on the chain with two pairs. *)
Lemma check_keeps_configuration_witness :
  check 2 ex_two_pairs = Some (Ok tt, after_check ex_two_pairs)
  /\ num_memories (after_check ex_two_pairs) = num_memories ex_two_pairs
  /\ stations (after_check ex_two_pairs) = stations ex_two_pairs
  /\ sources (after_check ex_two_pairs) = sources ex_two_pairs
  /\ station_ground_left (after_check ex_two_pairs) = station_ground_left ex_two_pairs
  /\ sat_left (after_check ex_two_pairs) = sat_left ex_two_pairs
  /\ sat_central (after_check ex_two_pairs) = sat_central ex_two_pairs
  /\ sat_right (after_check ex_two_pairs) = sat_right ex_two_pairs
  /\ station_ground_right (after_check ex_two_pairs) = station_ground_right ex_two_pairs
  /\ source_links (after_check ex_two_pairs) = source_links ex_two_pairs
  /\ link_stations (after_check ex_two_pairs) = link_stations ex_two_pairs.
Proof.
  split; [exact ex_two_pairs_check|].
  exact (@check_keeps_configuration ZP 2 ex_two_pairs (after_check ex_two_pairs) (Ok tt)
           ex_two_pairs_check).
Defined.

(** A source whose [schedule_event] cannot be called: [check] stops with
    [TypeError] at the first call of line 137. *)
Lemma check_raises_only_witness :
  check 1 ex_uncallable = Some (Raise TypeError, ex_uncallable)
  /\ (TypeError = AttributeError \/ TypeError = TypeError \/ TypeError = IndexError
      \/ TypeError = InvalidScheduleError \/ TypeError = DoubleDestroyError).
Proof.
  split; [reflexivity|].
  exact (@check_raises_only ZP 1 ex_uncallable ex_uncallable TypeError eq_refl).
Defined.

(** The events [check] adds on the chain with two pairs: six source
    events and one swap. *)
Lemma check_only_adds_events_witness :
  check 2 ex_two_pairs = Some (Ok tt, after_check ex_two_pairs)
  /\ length (pending ex_two_pairs) = 0
  /\ length (pending (after_check ex_two_pairs)) = 7
  /\ now (after_check ex_two_pairs) = now ex_two_pairs
  /\ exists added,
       Permutation (pending (after_check ex_two_pairs)) (added ++ pending ex_two_pairs)
       /\ length (pending (after_check ex_two_pairs))
          = length added + length (pending ex_two_pairs)
       /\ forall e, In e added ->
            (exists c k,
                In c (sources ex_two_pairs) /\ has_schedule_event c = true
                /\ e = SourceEvent
                         (num_add (now ex_two_pairs) (fst (time_distribution c k)))
                         c (state_generation c) (snd (time_distribution c k)))
            \/ (exists l r',
                   In l (pairs_of (world ex_two_pairs))
                   /\ In r' (pairs_of (world ex_two_pairs))
                   /\ e = EntanglementSwappingEvent (now ex_two_pairs) [l; r']).
Proof.
  split; [exact ex_two_pairs_check|]. split; [reflexivity|].
  split; [vm_compute; reflexivity|].
  exact (@check_only_adds_events ZP 2 ex_two_pairs (after_check ex_two_pairs) (Ok tt)
           ex_two_pairs_check).
Defined.

Lemma after_check_configured :
  configured (after_check ex_two_pairs) (ex_station 0) (ex_station 1) (ex_station 2)
    (ex_station 3) (ex_station 4).
Proof. repeat split. Qed.

Lemma after_check_full :
  Forall (fun link => (num_memories (after_check ex_two_pairs)
                       <= Z.of_nat (link_used (after_check ex_two_pairs) link))%Z)
    [(ex_station 0, ex_station 1); (ex_station 1, ex_station 2);
     (ex_station 2, ex_station 3); (ex_station 3, ex_station 4)].
Proof.
  assert (H : forallb
                (fun l => (num_memories (after_check ex_two_pairs)
                           <=? Z.of_nat (link_used (after_check ex_two_pairs) l))%Z)
                [(ex_station 0, ex_station 1); (ex_station 1, ex_station 2);
                 (ex_station 2, ex_station 3); (ex_station 3, ex_station 4)] = true)
    by (vm_compute; reflexivity).
  rewrite forallb_forall in H. apply Forall_forall. intros link Hin.
  apply Z.leb_le. apply H. exact Hin.
Qed.

Lemma after_check_swaps :
  Forall (fun lr => existsb (is_swap_of (fst lr) (snd lr))
                      (pending (after_check ex_two_pairs)) = true)
    (combine (pairs_between (world (after_check ex_two_pairs)) (ex_station 0) (ex_station 1))
       (pairs_between (world (after_check ex_two_pairs)) (ex_station 1) (ex_station 2))
     ++ combine
          (pairs_between (world (after_check ex_two_pairs)) (ex_station 2) (ex_station 3))
          (pairs_between (world (after_check ex_two_pairs)) (ex_station 3) (ex_station 4))
     ++ combine
          (pairs_between (world (after_check ex_two_pairs)) (ex_station 0) (ex_station 2))
          (pairs_between (world (after_check ex_two_pairs)) (ex_station 2) (ex_station 4))).
Proof.
  apply Forall_forall. intros lr Hin. vm_compute in Hin. destruct Hin as [<-|[]].
  vm_compute. reflexivity.
Qed.

(** The state [check] leaves on the chain with two pairs is settled. *)
Lemma check_on_settled_state_witness :
  configured (after_check ex_two_pairs) (ex_station 0) (ex_station 1) (ex_station 2)
    (ex_station 3) (ex_station 4)
  /\ pairs_between (world (after_check ex_two_pairs)) (ex_station 0) (ex_station 4) = []
  /\ check 1 (after_check ex_two_pairs) = Some (Ok tt, after_check ex_two_pairs).
Proof.
  split; [exact after_check_configured|]. split; [reflexivity|].
  exact (@check_on_settled_state ZP 0 (after_check ex_two_pairs) (ex_station 0)
           (ex_station 1) (ex_station 2) (ex_station 3) (ex_station 4)
           after_check_configured
           (proj1 (Forall_forall _ _) after_check_full)
           (fun l r => proj1 (Forall_forall _ _) after_check_swaps (l, r))
           eq_refl).
Defined.

(** [check] twice on the chain with two pairs. *)
Lemma check_twice_on_chain_witness :
  check 2 ex_two_pairs = Some (Ok tt, after_check ex_two_pairs)
  /\ check 1 (after_check ex_two_pairs) = Some (Ok tt, after_check ex_two_pairs).
Proof.
  split; [exact ex_two_pairs_check|].
  exact (@check_twice_on_chain ZP 2 0 ex_two_pairs (after_check ex_two_pairs)
           (ex_station 0) (ex_station 1) (ex_station 2) (ex_station 3) (ex_station 4)
           (ex_source 0) (ex_source 1) (ex_source 2) (ex_source 3)
           ex_two_pairs_configured ex_stations_distinct eq_refl eq_refl eq_refl eq_refl
           eq_refl ex_two_pairs_check).
Defined.

Lemma ex_late_configured :
  configured ex_late (ex_station 0) (ex_station 1) (ex_station 2)
    (ex_station 3) (ex_station 4).
Proof. repeat split. Qed.

Lemma ex_late_sources :
  Forall (fun c => has_schedule_event c = true) (sources ex_late).
Proof. repeat constructor. Qed.

Lemma ex_late_check :
  check 2 ex_late = Some (Raise InvalidScheduleError, after_check ex_late).
Proof. vm_compute. reflexivity. Qed.

(** A source whose pair is due in the past: the queue refuses the event. *)
Lemma check_raises_only_collaborator_errors_witness :
  configured ex_late (ex_station 0) (ex_station 1) (ex_station 2)
    (ex_station 3) (ex_station 4)
  /\ check 2 ex_late = Some (Raise InvalidScheduleError, after_check ex_late)
  /\ (InvalidScheduleError = InvalidScheduleError
      \/ InvalidScheduleError = DoubleDestroyError).
Proof.
  split; [exact ex_late_configured|]. split; [exact ex_late_check|].
  exact (@check_raises_only_collaborator_errors ZP 2 ex_late (after_check ex_late)
           (ex_station 0) (ex_station 1) (ex_station 2) (ex_station 3) (ex_station 4)
           InvalidScheduleError ex_late_configured
           (proj1 (Forall_forall _ _) ex_late_sources) ex_late_check).
Defined.

(** The swap of the two pairs is pending after [check]. *)
Lemma check_schedules_every_swap_witness :
  check 2 ex_two_pairs = Some (Ok tt, after_check ex_two_pairs)
  /\ exists t pairs,
       In (EntanglementSwappingEvent t pairs) (pending (after_check ex_two_pairs))
       /\ In (ex_pair 1 0 1) pairs /\ In (ex_pair 2 1 2) pairs.
Proof.
  split; [exact ex_two_pairs_check|].
  apply (@check_schedules_every_swap ZP 2 ex_two_pairs (after_check ex_two_pairs)
           (ex_station 0) (ex_station 1) (ex_station 2) (ex_station 3) (ex_station 4)
           ex_two_pairs_configured ex_two_pairs_check (ex_pair 1 0 1) (ex_pair 2 1 2)).
  vm_compute. left. reflexivity.
Defined.

Lemma ex_no_memory_check :
  check 2 ex_no_memory = Some (Ok tt, after_check ex_no_memory).
Proof. vm_compute. reflexivity. Qed.

(** No memory per link: the swap is scheduled, no source is asked. *)
Lemma check_without_memories_witness :
  (num_memories ex_no_memory <= 0)%Z
  /\ check 2 ex_no_memory = Some (Ok tt, after_check ex_no_memory)
  /\ length (pending (after_check ex_no_memory)) = 1
  /\ filter is_source_event (pending (after_check ex_no_memory))
     = filter is_source_event (pending ex_no_memory).
Proof.
  assert (Hn : (num_memories ex_no_memory <= 0)%Z) by (simpl; lia).
  split; [exact Hn|]. split; [exact ex_no_memory_check|]. split; [reflexivity|].
  exact (@check_without_memories ZP 2 ex_no_memory (after_check ex_no_memory) (Ok tt)
           Hn ex_no_memory_check).
Defined.

(** No pair between the ground stations of the chain with two pairs. *)
Lemma check_with_nothing_to_evaluate_witness :
  pairs_between (world ex_two_pairs) (ex_station 0) (ex_station 4) = []
  /\ check 1 ex_two_pairs = Some (Ok tt, after_check ex_two_pairs)
  /\ world_objects (world (after_check ex_two_pairs)) = world_objects (world ex_two_pairs)
  /\ logs (after_check ex_two_pairs) = logs ex_two_pairs
  /\ config (after_check ex_two_pairs) = config ex_two_pairs
  /\ now (after_check ex_two_pairs) = now ex_two_pairs
  /\ check 1 ex_two_pairs = Some (Ok tt, after_check ex_two_pairs).
Proof.
  assert (H1 : check 1 ex_two_pairs = Some (Ok tt, after_check ex_two_pairs))
    by (vm_compute; reflexivity).
  split; [reflexivity|]. split; [exact H1|].
  exact (@check_with_nothing_to_evaluate ZP 0 ex_two_pairs (after_check ex_two_pairs)
           (ex_station 0) (ex_station 4) (Ok tt) eq_refl eq_refl eq_refl H1).
Defined.

(** A receiver three times the beam's width: the fraction 9 is cut to 1. *)
Lemma eta_dif_at_most_one_witness :
  @num_ltb ZP 1%Z 1%Z = false
  /\ (@num_div ZP 9 1 = 9)%Z
  /\ @num_ltb ZP 1%Z
       (eta_dif (P := ZP) (fun x => x) Z.mul (fun x n => Z.pow x (Z.of_nat n)) 1%Z
          0%Z 0%Z 1%Z 3%Z) = false.
Proof.
  split; [reflexivity|]. split; [reflexivity|].
  exact (@eta_dif_at_most_one ZP (fun x => x) Z.mul (fun x n => Z.pow x (Z.of_nat n)) 1%Z
           0%Z 0%Z 1%Z 3%Z eq_refl).
Defined.

Lemma ex_mixed_check :
  check 2 ex_mixed = Some (Ok tt, after_check ex_mixed).
Proof. vm_compute. reflexivity. Qed.

(** One pair on link 1 and one between the ground stations: the first
    stays, the second goes. *)
Lemma check_destroys_only_long_range_witness :
  check 2 ex_mixed = Some (Ok tt, after_check ex_mixed)
  /\ pairs_of (world ex_mixed) = [ex_pair 1 0 1; ex_pair 2 0 4]
  /\ pairs_of (world (after_check ex_mixed)) = [ex_pair 1 0 1]
  /\ (forall p, In p (pairs_of (world (after_check ex_mixed)))
                <-> In p (pairs_of (world ex_mixed))
                    /\ is_between_stations p (ex_station 0) (ex_station 4) = false)
  /\ incl (qubits_of (world (after_check ex_mixed))) (qubits_of (world ex_mixed)).
Proof.
  split; [exact ex_mixed_check|]. split; [reflexivity|]. split; [reflexivity|].
  exact (@check_destroys_only_long_range ZP 2 ex_mixed (after_check ex_mixed)
           (ex_station 2) (ex_station 0) (ex_station 4) eq_refl eq_refl eq_refl
           ex_mixed_check).
Defined.
End Examples.
